(** * Activity-feed platform: circuit breaker, cursor codec, keyset queries,
      cache keys, message consumer and the single-transaction route.

    Shallow embedding of the Python sources under [app/] together with the
    properties the specification states about them.  External services
    (Kafka, Elasticsearch, Redis, the relational engine, the wall clock) are
    modelled by explicit inputs: the outcome of each outbound call, the clock
    readings, the rows of the table. *)

From Stdlib Require Import ZArith Lia Bool List String Ascii DecimalString.
From stdpp Require Import base decidable option list strings gmap sorting.

Local Open Scope Z_scope.
Set Warnings "-register-all".

(* ===================================================================== *)
(** ** app/middleware/circuit_breaker.py *)
(* ===================================================================== *)

Module CircuitBreaker.

(** [class CircuitState(Enum)]. *)
Inductive CircuitState := CLOSED | OPEN | HALF_OPEN.

#[global] Instance CircuitState_eq_dec : EqDecision CircuitState.
Proof. solve_decision. Defined.

(** The attributes set by [CircuitBreaker.__init__].  Python integers are
    unbounded, hence [Z].  Clock readings ([datetime.now()]) are counted in
    microseconds, the resolution of [datetime]; [timeout] is in seconds. *)
Record breaker := {
  failure_threshold : Z;
  timeout : Z;
  failure_count : Z;
  last_failure_time : option Z;
  state : CircuitState;
  success_count : Z;
  half_open_success_threshold : Z
}.

(** [CircuitBreaker(failure_threshold, timeout)] *)
Definition init (threshold tmo : Z) : breaker :=
  {| failure_threshold := threshold; timeout := tmo;
     failure_count := 0; last_failure_time := None;
     state := CLOSED; success_count := 0;
     half_open_success_threshold := 2 |}.

Definition set_state (s : CircuitState) (b : breaker) : breaker :=
  {| failure_threshold := failure_threshold b; timeout := timeout b;
     failure_count := failure_count b; last_failure_time := last_failure_time b;
     state := s; success_count := success_count b;
     half_open_success_threshold := half_open_success_threshold b |}.

Definition set_failure_count (n : Z) (b : breaker) : breaker :=
  {| failure_threshold := failure_threshold b; timeout := timeout b;
     failure_count := n; last_failure_time := last_failure_time b;
     state := state b; success_count := success_count b;
     half_open_success_threshold := half_open_success_threshold b |}.

Definition set_success_count (n : Z) (b : breaker) : breaker :=
  {| failure_threshold := failure_threshold b; timeout := timeout b;
     failure_count := failure_count b; last_failure_time := last_failure_time b;
     state := state b; success_count := n;
     half_open_success_threshold := half_open_success_threshold b |}.

Definition set_last_failure_time (t : option Z) (b : breaker) : breaker :=
  {| failure_threshold := failure_threshold b; timeout := timeout b;
     failure_count := failure_count b; last_failure_time := t;
     state := state b; success_count := success_count b;
     half_open_success_threshold := half_open_success_threshold b |}.

(** [_should_attempt_reset]: [elapsed >= self.timeout], with [elapsed] the
    seconds between the clock reading [now] and the last failure. *)
Definition _should_attempt_reset (b : breaker) (now : Z) : bool :=
  match last_failure_time b with
  | None => false
  | Some t => bool_decide (timeout b * 1000000 <= now - t)
  end.

(** [_on_success]. *)
Definition _on_success (b : breaker) : breaker :=
  match state b with
  | HALF_OPEN =>
      let b1 := set_success_count (success_count b + 1) b in
      if bool_decide (half_open_success_threshold b1 <= success_count b1)
      then set_success_count 0 (set_failure_count 0 (set_state CLOSED b1))
      else b1
  | CLOSED => set_failure_count 0 b
  | OPEN => b
  end.

(** [_on_failure]; [now] is the clock reading taken inside it. *)
Definition _on_failure (b : breaker) (now : Z) : breaker :=
  let b1 := set_last_failure_time (Some now)
              (set_failure_count (failure_count b + 1) b) in
  match state b1 with
  | HALF_OPEN => set_success_count 0 (set_state OPEN b1)
  | CLOSED =>
      if bool_decide (failure_threshold b1 <= failure_count b1)
      then set_state OPEN b1
      else b1
  | OPEN => b1
  end.

(** What the wrapped function does when it is invoked: it returns, raises an
    instance of [expected_exception], or raises something else. *)
Inductive behaviour := Returns | RaisesExpected | RaisesOther.

(** What [call] does for its caller. *)
Inductive call_result :=
  | Result                 (* the value of [func] is returned *)
  | CircuitBreakerOpenError
  | Reraised (expected : bool).

(** The first [with self.lock] block of [call]: [None] stands for
    [raise CircuitBreakerOpenError], [Some b'] for falling through to the
    invocation of [func] with the breaker in state [b']. *)
Definition admit_call (b : breaker) (now : Z) : option breaker :=
  match state b with
  | OPEN =>
      if _should_attempt_reset b now
      then Some (set_success_count 0 (set_state HALF_OPEN b))
      else None
  | _ => Some b
  end.

(** The [try] block of [call], once [func] has been invoked. *)
Definition complete_call (b : breaker) (f : behaviour) (now : Z)
  : breaker * call_result :=
  match f with
  | Returns => (_on_success b, Result)
  | RaisesExpected => (_on_failure b now, Reraised true)
  | RaisesOther => (b, Reraised false)
  end.

Record call_outcome := {
  after : breaker;          (* the breaker once [call] is over *)
  invoked : bool;           (* was [func] invoked? *)
  outcome : call_result
}.

(** [call].  [enabled] is [settings.circuit_breaker_enabled]; [t_check] is the
    clock reading of [_should_attempt_reset], [t_fail] that of [_on_failure]. *)
Definition call (enabled : bool) (b : breaker) (t_check : Z) (f : behaviour)
    (t_fail : Z) : call_outcome :=
  if negb enabled then
    {| after := b; invoked := true;
       outcome := match f with
                  | Returns => Result
                  | RaisesExpected => Reraised true
                  | RaisesOther => Reraised false
                  end |}
  else
    match admit_call b t_check with
    | None => {| after := b; invoked := false;
                 outcome := CircuitBreakerOpenError |}
    | Some b1 =>
        let '(b2, r) := complete_call b1 f t_fail in
        {| after := b2; invoked := true; outcome := r |}
    end.

(** [reset]. *)
Definition reset (b : breaker) : breaker :=
  set_last_failure_time None
    (set_success_count 0 (set_failure_count 0 (set_state CLOSED b))).

(** A workload: each call comes with its two clock readings and with what
    the wrapped function would do if invoked. *)
Fixpoint run (enabled : bool) (b : breaker)
    (calls : list (Z * behaviour * Z)) : breaker :=
  match calls with
  | [] => b
  | (t1, f, t2) :: rest => run enabled (after (call enabled b t1 f t2)) rest
  end.

End CircuitBreaker.

(* ===================================================================== *)
(** ** The Python values and library functions the sources rely on *)
(* ===================================================================== *)

Module Py.

(** Exception classes that the modelled library calls raise
    ([DatabaseError] stands for the errors of the database driver,
    [ValidationError] for those of the schema classes).  [RecursionError]
    is what the interpreter raises when calls nest beyond its recursion
    limit.  [OutOfFuel] is not a Python exception: it marks a recursion of
    the model that ran out of fuel, and is shown below never to occur. *)
Inductive exn :=
  | ValueError | KeyError | TypeError | AttributeError
  | JSONDecodeError | UnicodeDecodeError | UnicodeEncodeError | binascii_Error
  | RecursionError | OverflowError
  | DatabaseError | ValidationError
  | OutOfFuel.

#[global] Instance exn_eq_dec : EqDecision exn.
Proof. solve_decision. Defined.

(** [issubclass(e, cls)] on these classes: [json.JSONDecodeError],
    [UnicodeError] and [binascii.Error] derive from [ValueError]. *)
Definition issubclass (e cls : exn) : bool :=
  match e, cls with
  | JSONDecodeError, ValueError
  | UnicodeDecodeError, ValueError
  | UnicodeEncodeError, ValueError
  | binascii_Error, ValueError => true
  | _, _ => bool_decide (e = cls)
  end.

(** A computation that returns or raises. *)
Inductive res (A : Type) :=
  | Ok (a : A)
  | Raise (e : exn).
Arguments Ok {A} a.
Arguments Raise {A} e.

Definition bind {A B} (m : res A) (k : A -> res B) : res B :=
  match m with
  | Ok a => k a
  | Raise e => Raise e
  end.

Definition fmap_res {A B} (f : A -> B) (m : res A) : res B :=
  bind m (fun a => Ok (f a)).

Notation "'let!' x ':=' m 'in' k" := (bind m (fun x => k))
  (at level 10, x pattern, m at level 100, k at level 200).

(** [[f(x) for x in l]] where [f] may raise. *)
Fixpoint comprehension {A B} (f : A -> res B) (l : list A) : res (list B) :=
  match l with
  | [] => Ok []
  | x :: rest =>
      let! y := f x in
      let! ys := comprehension f rest in
      Ok (y :: ys)
  end.

(** Python [bytes] are lists of octets; a Python [str] is represented by the
    [string] of its UTF-8 encoding (three-byte forms for lone surrogates, which
    only JSON escapes can produce), so that [str.encode()] and
    [bytes.decode()] are checks rather than conversions. *)
Definition bytes := list ascii.

Definition ord (c : ascii) : N := N_of_ascii c.
Definition chr (n : N) : ascii := ascii_of_N n.

(** JSON documents as [json.loads] builds them.  A [dict] keeps its keys in
    insertion order; floats keep the text they were read from. *)
Inductive json :=
  | JNull
  | JBool (b : bool)
  | JInt (n : Z)
  | JFloat (lexeme : string)
  | JStr (s : string)
  | JArr (l : list json)
  | JObj (d : list (string * json)).

Definition dict := list (string * json).

Fixpoint dict_get (d : dict) (k : string) : option json :=
  match d with
  | [] => None
  | (k', v) :: rest => if String.eqb k k' then Some v else dict_get rest k
  end.

(** [d[k] = v]: an existing key keeps its position. *)
Fixpoint dict_set (d : dict) (k : string) (v : json) : dict :=
  match d with
  | [] => [(k, v)]
  | (k', v') :: rest =>
      if String.eqb k k' then (k, v) :: rest else (k', v') :: dict_set rest k v
  end.

(** [d.pop(k, None)], dropping the popped value. *)
Fixpoint dict_pop (d : dict) (k : string) : dict :=
  match d with
  | [] => []
  | (k', v') :: rest =>
      if String.eqb k k' then rest else (k', v') :: dict_pop rest k
  end.

(** [x.get(k, default)]: only a [dict] has the method. *)
Definition get (x : json) (k : string) (default : json) : res json :=
  match x with
  | JObj d => Ok (match dict_get d k with Some v => v | None => default end)
  | _ => Raise AttributeError
  end.

(** [x[k]] with a string key. *)
Definition getitem (x : json) (k : string) : res json :=
  match x with
  | JObj d => match dict_get d k with
              | Some v => Ok v
              | None => Raise KeyError
              end
  | _ => Raise TypeError
  end.

(** *** [base64] *)

(** [table_b2a_base64]: the character of a six-bit value. *)
Definition b2a (v : N) : ascii :=
  (if v <? 26 then chr (65 + v)
   else if v <? 52 then chr (97 + (v - 26))
   else if v <? 62 then chr (48 + (v - 52))
   else if v =? 62 then "+"%char
   else "/"%char)%N.

(** [table_a2b_base64]: the six-bit value of a character of the standard
    alphabet, [None] for any other octet. *)
Definition a2b (c : ascii) : option N :=
  (let n := ord c in
   if (65 <=? n) && (n <=? 90) then Some (n - 65)
   else if (97 <=? n) && (n <=? 122) then Some (n - 97 + 26)
   else if (48 <=? n) && (n <=? 57) then Some (n - 48 + 52)
   else if n =? 43 then Some 62
   else if n =? 47 then Some 63
   else None)%N.

Definition PAD : ascii := "="%char.

(** [base64.b64encode]: three octets give four characters; one or two
    trailing octets are padded with [=]. *)
Fixpoint b64encode (l : bytes) : bytes :=
  match l with
  | [] => []
  | [a] =>
      let x := ord a in
      [b2a (x / 4); b2a ((x mod 4) * 16); PAD; PAD]%N
  | [a; b] =>
      let x := ord a in let y := ord b in
      [b2a (x / 4); b2a ((x mod 4) * 16 + y / 16); b2a ((y mod 16) * 4); PAD]%N
  | a :: b :: c :: rest =>
      let x := ord a in let y := ord b in let z := ord c in
      (b2a (x / 4) :: b2a ((x mod 4) * 16 + y / 16)
         :: b2a ((y mod 16) * 4 + z / 64) :: b2a (z mod 64)
         :: b64encode rest)%N
  end.

(** [bytes.translate] with the two tables of the URL-safe alphabet. *)
Definition _urlsafe_encode_translation (c : ascii) : ascii :=
  if Ascii.eqb c "+" then "-"%char
  else if Ascii.eqb c "/" then "_"%char else c.

Definition _urlsafe_decode_translation (c : ascii) : ascii :=
  if Ascii.eqb c "-" then "+"%char
  else if Ascii.eqb c "_" then "/"%char else c.

Definition urlsafe_b64encode (l : bytes) : bytes :=
  map _urlsafe_encode_translation (b64encode l).

Definition emit {A} (a : A) (m : res (list A)) : res (list A) :=
  fmap_res (cons a) m.

(** [binascii.a2b_base64] in its default, non-strict mode: octets outside the
    alphabet are skipped, a pad sequence that completes a quad ends the input,
    and leftover characters raise [binascii.Error].  [quad_pos], [leftchar]
    and [pads] are the variables of the C loop. *)
Fixpoint a2b_base64 (s : bytes) (quad_pos : nat) (leftchar : N) (pads : nat)
  : res bytes :=
  match s with
  | [] =>
      match quad_pos with
      | O => Ok []
      | _ => Raise binascii_Error
      end
  | c :: rest =>
      if Ascii.eqb c PAD then
        if (2 <=? quad_pos)%nat && (4 <=? quad_pos + S pads)%nat then Ok []
        else a2b_base64 rest quad_pos leftchar
               (if (2 <=? quad_pos)%nat then S pads else pads)
      else
        match a2b c with
        | None => a2b_base64 rest quad_pos leftchar pads
        | Some v =>
            match quad_pos with
            | 0%nat => a2b_base64 rest 1 v 0
            | 1%nat => emit (chr (leftchar * 4 + v / 16))
                         (a2b_base64 rest 2 (v mod 16) 0)
            | 2%nat => emit (chr (leftchar * 16 + v / 4))
                         (a2b_base64 rest 3 (v mod 4) 0)
            | _ => emit (chr (leftchar * 64 + v)) (a2b_base64 rest 0 0 0)
            end%N
        end
  end.

Definition b64decode (s : bytes) : res bytes := a2b_base64 s 0 0 0.

Definition urlsafe_b64decode (s : bytes) : res bytes :=
  b64decode (map _urlsafe_decode_translation s).

(** *** UTF-8 *)

Definition is_continuation (c : ascii) : bool :=
  (let n := ord c in (128 <=? n) && (n <? 192))%N.

Definition in_range (lo hi : N) (c : ascii) : bool :=
  (let n := ord c in (lo <=? n) && (n <=? hi))%N.

(** Well-formed UTF-8 (no overlong forms, no surrogates, nothing above
    U+10FFFF): what [bytes.decode()] and [str.encode()] accept. *)
Fixpoint utf8_valid (l : bytes) : bool :=
  match l with
  | [] => true
  | b1 :: r1 =>
      let n := ord b1 in
      if (n <? 128)%N then utf8_valid r1
      else if (n <? 194)%N then false
      else if (n <? 224)%N then
        match r1 with
        | b2 :: r2 => is_continuation b2 && utf8_valid r2
        | _ => false
        end
      else if (n <? 240)%N then
        match r1 with
        | b2 :: b3 :: r3 =>
            (if (n =? 224)%N then in_range 160 191 b2
             else if (n =? 237)%N then in_range 128 159 b2
             else is_continuation b2)
            && is_continuation b3 && utf8_valid r3
        | _ => false
        end
      else if (n <? 245)%N then
        match r1 with
        | b2 :: b3 :: b4 :: r4 =>
            (if (n =? 240)%N then in_range 144 191 b2
             else if (n =? 244)%N then in_range 128 143 b2
             else is_continuation b2)
            && is_continuation b3 && is_continuation b4 && utf8_valid r4
        | _ => false
        end
      else false
  end.

(** [s.encode()]: fails on a lone surrogate. *)
Definition str_encode (s : string) : res bytes :=
  let l := list_ascii_of_string s in
  if utf8_valid l then Ok l else Raise UnicodeEncodeError.

(** [b.decode()]. *)
Definition bytes_decode (l : bytes) : res string :=
  if utf8_valid l then Ok (string_of_list_ascii l) else Raise UnicodeDecodeError.

(** The UTF-8 form of a code point (lone surrogates included). *)
Definition utf8_of_code_point (u : N) : bytes :=
  (if u <? 128 then [chr u]
   else if u <? 2048 then [chr (192 + u / 64); chr (128 + u mod 64)]
   else if u <? 65536 then
     [chr (224 + u / 4096); chr (128 + (u / 64) mod 64); chr (128 + u mod 64)]
   else
     [chr (240 + u / 262144); chr (128 + (u / 4096) mod 64);
      chr (128 + (u / 64) mod 64); chr (128 + u mod 64)])%N.

(** [s[:n]]: the first [n] characters of a string, a character being a lead
    octet with the continuation octets that follow it. *)
Fixpoint str_take (n : nat) (s : string) : string :=
  match s with
  | EmptyString => EmptyString
  | String c r =>
      if is_continuation c then String c (str_take n r)
      else match n with
           | O => EmptyString
           | S n' => String c (str_take n' r)
           end
  end.

(** *** [json] *)

Definition is_ws (c : ascii) : bool :=
  (let n := ord c in (n =? 32) || (n =? 9) || (n =? 10) || (n =? 13))%N.

Fixpoint skip_ws (s : bytes) : bytes :=
  match s with
  | [] => []
  | c :: r => if is_ws c then skip_ws r else s
  end.

Definition is_digit (c : ascii) : bool := in_range 48 57 c.

Definition hex_value (c : ascii) : option N :=
  (let n := ord c in
   if (48 <=? n) && (n <=? 57) then Some (n - 48)
   else if (97 <=? n) && (n <=? 102) then Some (n - 97 + 10)
   else if (65 <=? n) && (n <=? 70) then Some (n - 65 + 10)
   else None)%N.

(** The one-character escapes of a JSON string ([BACKSLASH] in the decoder). *)
Definition simple_escape (c : ascii) : option ascii :=
  (let n := ord c in
   if n =? 34 then Some (chr 34)          (* quote *)
   else if n =? 92 then Some (chr 92)     (* backslash *)
   else if n =? 47 then Some (chr 47)     (* slash *)
   else if n =? 98 then Some (chr 8)
   else if n =? 102 then Some (chr 12)
   else if n =? 110 then Some (chr 10)
   else if n =? 114 then Some (chr 13)
   else if n =? 116 then Some (chr 9)
   else None)%N.

Definition is_high_surrogate (u : N) : bool := ((55296 <=? u) && (u <=? 56319))%N.
Definition is_low_surrogate (u : N) : bool := ((56320 <=? u) && (u <=? 57343))%N.
Definition join_surrogates (h l : N) : N :=
  (65536 + (h - 55296) * 1024 + (l - 56320))%N.

(** Where the string scanner stands: in plain text, after a backslash, or
    inside a [\uXXXX] escape with [k] digits still to read. *)
Inductive scan_state :=
  | Normal
  | Escape
  | Unicode (k : nat) (acc : N).

Definition flush (high : option N) : bytes :=
  match high with
  | Some h => utf8_of_code_point h
  | None => []
  end.

Definition prepend (l : bytes) (m : res (bytes * bytes)) : res (bytes * bytes) :=
  fmap_res (fun '(content, rest) => (l ++ content, rest)) m.

(** [scanstring] in strict mode, from just after the opening quote: the
    content of the string and the text after its closing quote.  [high] is a
    high surrogate read from a [\uXXXX] escape that still waits for its low
    half. *)
Fixpoint scanstring (s : bytes) (st : scan_state) (high : option N)
  : res (bytes * bytes) :=
  match s with
  | [] => Raise JSONDecodeError
  | c :: r =>
      match st with
      | Normal =>
          if (ord c =? 34)%N then Ok (flush high, r)
          else if (ord c =? 92)%N then scanstring r Escape high
          else if (ord c <? 32)%N then Raise JSONDecodeError
          else prepend (flush high ++ [c]) (scanstring r Normal None)
      | Escape =>
          if (ord c =? 117)%N then scanstring r (Unicode 4 0) high
          else match simple_escape c with
               | Some e => prepend (flush high ++ [e]) (scanstring r Normal None)
               | None => Raise JSONDecodeError
               end
      | Unicode k acc =>
          match hex_value c with
          | None => Raise JSONDecodeError
          | Some d =>
              let v := (acc * 16 + d)%N in
              match k with
              | 1%nat =>
                  match high with
                  | Some h =>
                      if is_low_surrogate v
                      then prepend (utf8_of_code_point (join_surrogates h v))
                             (scanstring r Normal None)
                      else if is_high_surrogate v
                      then prepend (utf8_of_code_point h)
                             (scanstring r Normal (Some v))
                      else prepend (utf8_of_code_point h ++ utf8_of_code_point v)
                             (scanstring r Normal None)
                  | None =>
                      if is_high_surrogate v then scanstring r Normal (Some v)
                      else prepend (utf8_of_code_point v) (scanstring r Normal None)
                  end
              | S k' => scanstring r (Unicode k' v) high
              | O => Raise JSONDecodeError
              end
          end
      end
  end.

Fixpoint span_digits (s : bytes) : bytes * bytes :=
  match s with
  | c :: r => if is_digit c
              then let '(ds, rest) := span_digits r in (c :: ds, rest)
              else ([], s)
  | [] => ([], [])
  end.

Definition digits_value (ds : bytes) : Z :=
  fold_left (fun acc c => acc * 10 + Z.of_N (ord c - 48)) ds 0.

(** The four groups of [NUMBER_RE]: an optional minus sign, an integer part
    without leading zero, then an optional fraction and an optional exponent,
    each taken only when it has at least one digit.  Every function returns
    the characters it matched and the rest of the text. *)
Definition number_sign (s : bytes) : bytes * bytes :=
  match s with
  | c :: r => if (ord c =? 45)%N then ([c], r) else ([], s)
  | [] => ([], s)
  end.

Definition number_int (s : bytes) : option (bytes * bytes) :=
  match s with
  | c :: r =>
      if (ord c =? 48)%N then Some ([c], r)
      else if is_digit c
      then let '(ds, rest) := span_digits r in Some (c :: ds, rest)
      else None
  | [] => None
  end.

Definition number_frac (s : bytes) : bytes * bytes :=
  match s with
  | c :: r =>
      if (ord c =? 46)%N then
        let '(fs, rest) := span_digits r in
        match fs with [] => ([], s) | _ => (c :: fs, rest) end
      else ([], s)
  | [] => ([], s)
  end.

Definition number_exp (s : bytes) : bytes * bytes :=
  match s with
  | e :: r =>
      if (ord e =? 101)%N || (ord e =? 69)%N then
        let '(sg, r1) := match r with
                         | c :: r' => if (ord c =? 45)%N || (ord c =? 43)%N
                                      then ([c], r') else ([], r)
                         | [] => ([], r)
                         end in
        let '(es, rest) := span_digits r1 in
        match es with [] => ([], s) | _ => (e :: sg ++ es, rest) end
      else ([], s)
  | [] => ([], s)
  end.

(** [NUMBER_RE.match]: an integer when there is neither fraction nor
    exponent, a float otherwise.  An integer is read whatever the number of
    its digits: the bound that the interpreter may put on them
    ([sys.set_int_max_str_digits]) is left out. *)
Definition match_number (s : bytes) : option (json * bytes) :=
  let '(sign, s1) := number_sign s in
  match number_int s1 with
  | None => None
  | Some (ip, s2) =>
      let '(frac, s3) := number_frac s2 in
      let '(exp, s4) := number_exp s3 in
      match frac, exp with
      | [], [] =>
          Some (JInt (match sign with
                      | [] => digits_value ip
                      | _ => - digits_value ip
                      end), s4)
      | _, _ => Some (JFloat (string_of_list_ascii (sign ++ ip ++ frac ++ exp)), s4)
      end
  end.

(** [s] starts with the characters of [lit]: the rest of [s]. *)
Fixpoint strip_prefix (lit : bytes) (s : bytes) : option bytes :=
  match lit, s with
  | [], _ => Some s
  | a :: lit', c :: r => if Ascii.eqb a c then strip_prefix lit' r else None
  | _ :: _, [] => None
  end.

Definition literal (lit : string) (v : json) (s : bytes) : option (json * bytes) :=
  match strip_prefix (list_ascii_of_string lit) s with
  | Some rest => Some (v, rest)
  | None => None
  end.

(** The atoms of [scan_once]: constants and numbers. *)
Definition scan_atom (s : bytes) : res (json * bytes) :=
  let try_ (o : option (json * bytes)) (k : res (json * bytes)) :=
    match o with Some x => Ok x | None => k end in
  try_ (literal "null" JNull s)
  (try_ (literal "true" (JBool true) s)
  (try_ (literal "false" (JBool false) s)
  (try_ (match_number s)
  (try_ (literal "NaN" (JFloat "NaN") s)
  (try_ (literal "Infinity" (JFloat "Infinity") s)
  (try_ (literal "-Infinity" (JFloat "-Infinity") s)
  (Raise JSONDecodeError))))))).

(** [scan_once], [JSONObject] and [JSONArray].  Every call takes one unit of
    [fuel]; [object_members] starts just after the opening quote of a key,
    [array_elements] at the start of a value.  The scanner enters a
    recursive call of the interpreter at every object and array that it
    opens: [depth] is the number of such calls that the recursion limit
    still allows, and opening a container at depth [0] raises
    [RecursionError]. *)
Fixpoint scan_once (fuel depth : nat) (s : bytes) : res (json * bytes) :=
  match fuel with
  | O => Raise OutOfFuel
  | S fuel' =>
      match s with
      | [] => Raise JSONDecodeError
      | c :: r =>
          if (ord c =? 34)%N then
            let! (content, rest) := scanstring r Normal None in
            Ok (JStr (string_of_list_ascii content), rest)
          else if (ord c =? 123)%N then
            match depth with
            | O => Raise RecursionError
            | S depth' =>
                match skip_ws r with
                | c1 :: r1 =>
                    if (ord c1 =? 125)%N then Ok (JObj [], r1)
                    else if (ord c1 =? 34)%N
                    then object_members fuel' depth' [] r1
                    else Raise JSONDecodeError
                | [] => Raise JSONDecodeError
                end
            end
          else if (ord c =? 91)%N then
            match depth with
            | O => Raise RecursionError
            | S depth' =>
                match skip_ws r with
                | c1 :: r1 =>
                    if (ord c1 =? 93)%N then Ok (JArr [], r1)
                    else array_elements fuel' depth' [] (c1 :: r1)
                | [] => Raise JSONDecodeError
                end
            end
          else scan_atom s
      end
  end
with object_members (fuel depth : nat) (d : dict) (s : bytes)
  : res (json * bytes) :=
  match fuel with
  | O => Raise OutOfFuel
  | S fuel' =>
      let! (key, s1) := scanstring s Normal None in
      match skip_ws s1 with
      | c :: s2 =>
          if (ord c =? 58)%N then
            let! (v, s3) := scan_once fuel' depth (skip_ws s2) in
            let d' := dict_set d (string_of_list_ascii key) v in
            match skip_ws s3 with
            | c1 :: r1 =>
                if (ord c1 =? 125)%N then Ok (JObj d', r1)
                else if (ord c1 =? 44)%N then
                  match skip_ws r1 with
                  | c2 :: r2 =>
                      if (ord c2 =? 34)%N
                      then object_members fuel' depth d' r2
                      else Raise JSONDecodeError
                  | [] => Raise JSONDecodeError
                  end
                else Raise JSONDecodeError
            | [] => Raise JSONDecodeError
            end
          else Raise JSONDecodeError
      | [] => Raise JSONDecodeError
      end
  end
with array_elements (fuel depth : nat) (acc : list json) (s : bytes)
  : res (json * bytes) :=
  match fuel with
  | O => Raise OutOfFuel
  | S fuel' =>
      let! (v, s1) := scan_once fuel' depth s in
      match skip_ws s1 with
      | c1 :: r1 =>
          if (ord c1 =? 93)%N then Ok (JArr (acc ++ [v]), r1)
          else if (ord c1 =? 44)%N
          then array_elements fuel' depth (acc ++ [v]) (skip_ws r1)
          else Raise JSONDecodeError
      | [] => Raise JSONDecodeError
      end
  end.

(** [json.loads(s)]: one value between optional white space, read when the
    recursion limit allows [headroom] more nested calls (the limit less the
    frames already on the stack).  A value and each of its elements take a
    unit of fuel, so that twice the length of the text, and one, are never
    used up. *)
Definition json_loads (headroom : nat) (s : string) : res json :=
  let l := list_ascii_of_string s in
  let! (v, rest) := scan_once (S (2 * length l)) headroom (skip_ws l) in
  match skip_ws rest with
  | [] => Ok v
  | _ => Raise JSONDecodeError
  end.

Definition hex_digit (v : N) : ascii :=
  (if v <? 10 then chr (48 + v) else chr (97 + (v - 10)))%N.

(** [\uXXXX] for a sixteen-bit unit. *)
Definition u_escape (u : N) : bytes :=
  (chr 92 :: chr 117 :: hex_digit (u / 4096) :: hex_digit ((u / 256) mod 16)
     :: hex_digit ((u / 16) mod 16) :: [hex_digit (u mod 16)])%N.

Definition escape_code_point (u : N) : bytes :=
  (if u <? 65536 then u_escape u
   else let v := u - 65536 in
        u_escape (55296 + v / 1024) ++ u_escape (56320 + v mod 1024))%N.

(** The body of [py_encode_basestring_ascii]: everything outside the
    printable ASCII range, the quote and the backslash are escaped. *)
Fixpoint escape_ascii (l : bytes) : bytes :=
  match l with
  | [] => []
  | c :: r =>
      let n := ord c in
      if (n =? 34)%N then chr 92 :: chr 34 :: escape_ascii r
      else if (n =? 92)%N then chr 92 :: chr 92 :: escape_ascii r
      else if (n =? 10)%N then chr 92 :: chr 110 :: escape_ascii r
      else if (n =? 13)%N then chr 92 :: chr 114 :: escape_ascii r
      else if (n =? 9)%N then chr 92 :: chr 116 :: escape_ascii r
      else if (n =? 8)%N then chr 92 :: chr 98 :: escape_ascii r
      else if (n =? 12)%N then chr 92 :: chr 102 :: escape_ascii r
      else if (32 <=? n)%N && (n <=? 126)%N then c :: escape_ascii r
      else if (n <? 192)%N then u_escape n ++ escape_ascii r
      else if (n <? 224)%N then
        match r with
        | b2 :: r2 =>
            escape_code_point ((n - 192) * 64 + (ord b2 - 128)) ++ escape_ascii r2
        | [] => u_escape n
        end
      else if (n <? 240)%N then
        match r with
        | b2 :: b3 :: r3 =>
            escape_code_point
              ((n - 224) * 4096 + (ord b2 - 128) * 64 + (ord b3 - 128))
              ++ escape_ascii r3
        | _ => u_escape n ++ escape_ascii r
        end
      else
        match r with
        | b2 :: b3 :: b4 :: r4 =>
            escape_code_point
              ((n - 240) * 262144 + (ord b2 - 128) * 4096
               + (ord b3 - 128) * 64 + (ord b4 - 128))
              ++ escape_ascii r4
        | _ => u_escape n ++ escape_ascii r
        end
  end.

(** [json.dumps(s)] for a string. *)
Definition dumps_str (s : string) : bytes :=
  chr 34 :: escape_ascii (list_ascii_of_string s) ++ [chr 34].

(** The order of [str] values: code point by code point. *)
Fixpoint bytes_ltb (a b : bytes) : bool :=
  match a, b with
  | [], [] => false
  | [], _ :: _ => true
  | _ :: _, [] => false
  | x :: a', y :: b' =>
      if (ord x <? ord y)%N then true
      else if (ord y <? ord x)%N then false
      else bytes_ltb a' b'
  end.

Definition str_ltb (a b : string) : bool :=
  bytes_ltb (list_ascii_of_string a) (list_ascii_of_string b).

Fixpoint insert_item (kv : string * string) (l : list (string * string))
  : list (string * string) :=
  match l with
  | [] => [kv]
  | kv' :: rest =>
      if str_ltb (fst kv) (fst kv') then kv :: l else kv' :: insert_item kv rest
  end.

(** [sorted(d.items())] for a dictionary with distinct keys. *)
Definition sorted_items (d : list (string * string)) : list (string * string) :=
  fold_right insert_item [] d.

Fixpoint dumps_items (l : list (string * string)) : bytes :=
  match l with
  | [] => []
  | [(k, v)] => dumps_str k ++ [chr 58; chr 32] ++ dumps_str v
  | (k, v) :: rest =>
      dumps_str k ++ [chr 58; chr 32] ++ dumps_str v
        ++ [chr 44; chr 32] ++ dumps_items rest
  end.

(** [json.dumps(d, sort_keys=True)] for a dictionary from strings to strings,
    with the default separators. *)
Definition json_dumps_sorted (d : list (string * string)) : string :=
  string_of_list_ascii (chr 123 :: dumps_items (sorted_items d) ++ [chr 125]).

(** *** [datetime] *)

(** A [datetime]; [tzinfo] is the UTC offset in microseconds of an aware
    value, [None] for a naive one. *)
Record datetime := {
  year : Z; month : Z; day : Z;
  hour : Z; minute : Z; second : Z; microsecond : Z;
  tzinfo : option Z
}.

Definition is_leap (y : Z) : bool :=
  (y mod 4 =? 0) && (negb (y mod 100 =? 0) || (y mod 400 =? 0)).

Definition days_in_month (y m : Z) : Z :=
  if m =? 2 then (if is_leap y then 29 else 28)
  else if (m =? 4) || (m =? 6) || (m =? 9) || (m =? 11) then 30
  else 31.

Definition day_us : Z := 86400000000.

(** The checks of the [datetime] and [timezone] constructors. *)
Definition datetime_ok (d : datetime) : bool :=
  (1 <=? year d) && (year d <=? 9999) &&
  (1 <=? month d) && (month d <=? 12) &&
  (1 <=? day d) && (day d <=? days_in_month (year d) (month d)) &&
  (0 <=? hour d) && (hour d <=? 23) &&
  (0 <=? minute d) && (minute d <=? 59) &&
  (0 <=? second d) && (second d <=? 59) &&
  (0 <=? microsecond d) && (microsecond d <=? 999999) &&
  match tzinfo d with
  | Some off => (- day_us <? off) && (off <? day_us)
  | None => true
  end.

Definition digit (n : Z) : ascii := chr (Z.to_N (48 + n mod 10)).

Definition pad2 (n : Z) : bytes := [digit (n / 10); digit n].
Definition pad4 (n : Z) : bytes :=
  [digit (n / 1000); digit (n / 100); digit (n / 10); digit n].
Definition pad6 (n : Z) : bytes :=
  [digit (n / 100000); digit (n / 10000); digit (n / 1000);
   digit (n / 100); digit (n / 10); digit n].

Definition colon : ascii := chr 58.
Definition hyphen : ascii := chr 45.
Definition plus : ascii := chr 43.
Definition dot : ascii := chr 46.

(** [_format_offset]. *)
Definition format_offset (tz : option Z) : bytes :=
  match tz with
  | None => []
  | Some off =>
      let a := Z.abs off in
      let hh := a / 3600000000 in
      let mm := (a mod 3600000000) / 60000000 in
      let ss := (a mod 60000000) / 1000000 in
      let us := a mod 1000000 in
      (if off <? 0 then hyphen else plus)
        :: pad2 hh ++ colon :: pad2 mm
        ++ (if (ss =? 0) && (us =? 0) then []
            else colon :: pad2 ss
                   ++ (if us =? 0 then [] else dot :: pad6 us))
  end.

(** [datetime.isoformat()]. *)
Definition isoformat (d : datetime) : string :=
  string_of_list_ascii
    (pad4 (year d) ++ hyphen :: pad2 (month d) ++ hyphen :: pad2 (day d)
     ++ chr 84 :: pad2 (hour d) ++ colon :: pad2 (minute d)
     ++ colon :: pad2 (second d)
     ++ (if microsecond d =? 0 then [] else dot :: pad6 (microsecond d))
     ++ format_offset (tzinfo d)).

(** Exactly [k] decimal digits at the head of [s]. *)
Fixpoint parse_digits (k : nat) (acc : Z) (s : bytes) : option (Z * bytes) :=
  match k with
  | O => Some (acc, s)
  | S k' =>
      match s with
      | c :: r => if is_digit c
                  then parse_digits k' (acc * 10 + Z.of_N (ord c - 48)) r
                  else None
      | [] => None
      end
  end.

Definition expect (c : ascii) (s : bytes) : option bytes :=
  match s with
  | c' :: r => if Ascii.eqb c c' then Some r else None
  | [] => None
  end.

(** [_parse_isoformat_date] on the first ten characters: the rest of the
    text comes back with the fields. *)
Definition parse_isoformat_date (s : bytes) : option (Z * Z * Z * bytes) :=
  match parse_digits 4 0 s with
  | Some (y, s1) =>
      match expect hyphen s1 with
      | Some s2 =>
          match parse_digits 2 0 s2 with
          | Some (m, s3) =>
              match expect hyphen s3 with
              | Some s4 =>
                  match parse_digits 2 0 s4 with
                  | Some (d, s5) => Some (y, m, d, s5)
                  | None => None
                  end
              | None => None
              end
          | None => None
          end
      | None => None
      end
  | None => None
  end.

(** [_parse_hh_mm_ss_ff]: [HH[:MM[:SS[.fff[fff]]]]], the whole of [t]. *)
Definition parse_hh_mm_ss_ff (t : bytes) : option (Z * Z * Z * Z) :=
  let fraction (s : bytes) (k : Z * Z * Z) : option (Z * Z * Z * Z) :=
    let '(h, m, sec) := k in
    match s with
    | [] => Some (h, m, sec, 0)
    | c :: r =>
        if Ascii.eqb c dot then
          if (length r =? 6)%nat then
            match parse_digits 6 0 r with
            | Some (us, _) => Some (h, m, sec, us)
            | None => None
            end
          else if (length r =? 3)%nat then
            match parse_digits 3 0 r with
            | Some (ms, _) => Some (h, m, sec, ms * 1000)
            | None => None
            end
          else None
        else None
    end in
  match parse_digits 2 0 t with
  | None => None
  | Some (h, []) => Some (h, 0, 0, 0)
  | Some (h, c1 :: r1) =>
      if negb (Ascii.eqb c1 colon) then None else
      match parse_digits 2 0 r1 with
      | None => None
      | Some (m, []) => Some (h, m, 0, 0)
      | Some (m, c2 :: r2) =>
          if negb (Ascii.eqb c2 colon) then None else
          match parse_digits 2 0 r2 with
          | None => None
          | Some (sec, r3) => fraction r3 (h, m, sec)
          end
      end
  end.

(** [tstr.find(c)] as a split: the text before the first [c] and the text
    after it. *)
Fixpoint split_at (c : ascii) (s : bytes) : option (bytes * bytes) :=
  match s with
  | [] => None
  | x :: r =>
      if Ascii.eqb x c then Some ([], r)
      else match split_at c r with
           | Some (a, b) => Some (x :: a, b)
           | None => None
           end
  end.

(** [_parse_isoformat_time]: the time fields and the offset. *)
Definition parse_isoformat_time (t : bytes)
  : option (Z * Z * Z * Z * option Z) :=
  if (length t <? 2)%nat then None else
  let zone (neg : bool) (timestr tzstr : bytes) :=
    match parse_hh_mm_ss_ff timestr with
    | None => None
    | Some tm =>
        let n := length tzstr in
        if negb ((n =? 5) || (n =? 8) || (n =? 15))%nat then None else
        match parse_hh_mm_ss_ff tzstr with
        | None => None
        | Some (h, m, sec, us) =>
            let off := ((h * 60 + m) * 60 + sec) * 1000000 + us in
            Some (tm, Some (if neg then - off else off))
        end
    end in
  match split_at hyphen t with
  | Some (timestr, tzstr) => zone true timestr tzstr
  | None =>
      match split_at plus t with
      | Some (timestr, tzstr) => zone false timestr tzstr
      | None =>
          match parse_hh_mm_ss_ff t with
          | Some tm => Some (tm, None)
          | None => None
          end
      end
  end.

Fixpoint drop_continuation (l : bytes) : bytes :=
  match l with
  | c :: l' => if is_continuation c then drop_continuation l' else l
  | [] => []
  end.

(** [date_string[11:]] once the ten characters of the date are gone: the
    separator, one character whatever it is, is dropped. *)
Definition drop_separator (s : bytes) : bytes :=
  match s with
  | [] => []
  | _ :: r => drop_continuation r
  end.

(** [datetime.fromisoformat], for the formats that [isoformat] emits:
    [YYYY-MM-DD[*HH[:MM[:SS[.fff[fff]]]][+HH:MM[:SS[.ffffff]]]]].  The other
    ISO 8601 forms that later interpreters read as well (a final [Z], the
    basic format, fractions of other lengths) are refused here. *)
Definition fromisoformat (s : string) : res datetime :=
  match parse_isoformat_date (list_ascii_of_string s) with
  | None => Raise ValueError
  | Some (y, m, d, rest) =>
      let fields :=
        match drop_separator rest with
        | [] => Some (0, 0, 0, 0, None)
        | t => parse_isoformat_time t
        end in
      match fields with
      | None => Raise ValueError
      | Some (h, mi, sec, us, tz) =>
          let dt := {| year := y; month := m; day := d; hour := h;
                       minute := mi; second := sec; microsecond := us;
                       tzinfo := tz |} in
          if datetime_ok dt then Ok dt else Raise ValueError
      end
  end.

(** [datetime.fromisoformat(x)] on a JSON value. *)
Definition fromisoformat_value (x : json) : res datetime :=
  match x with
  | JStr s => fromisoformat s
  | _ => Raise TypeError
  end.

(** Days from 1970-01-01 to a date of the proleptic Gregorian calendar. *)
Definition days_from_civil (y m d : Z) : Z :=
  let y' := if m <=? 2 then y - 1 else y in
  let era := y' / 400 in
  let yoe := y' - era * 400 in
  let mp := (m + 9) mod 12 in
  let doy := (153 * mp + 2) / 5 + d - 1 in
  let doe := yoe * 365 + yoe / 4 - yoe / 100 + doy in
  era * 146097 + doe - 719468.

(** The instant of a [datetime] in microseconds since the epoch; a naive
    value is read as UTC.  This is what PostgreSQL compares (its session
    time zone being UTC), and what Python compares between two values that
    both have, or both lack, a [tzinfo]. *)
Definition instant (d : datetime) : Z :=
  (((days_from_civil (year d) (month d) (day d) * 24 + hour d) * 60
    + minute d) * 60 + second d) * 1000000 + microsecond d
  - match tzinfo d with Some off => off | None => 0 end.

(** *** [uuid] *)

(** [s.replace(pat, '')]: [skip] octets of a match are still to be dropped. *)
Fixpoint remove_all (pat : bytes) (skip : nat) (s : bytes) : bytes :=
  match s with
  | [] => []
  | c :: r =>
      match skip with
      | S k => remove_all pat k r
      | O =>
          match pat, strip_prefix pat s with
          | _ :: pat', Some _ => remove_all pat (length pat') r
          | _, _ => c :: remove_all pat 0 r
          end
      end
  end.

Definition is_brace (c : ascii) : bool := ((ord c =? 123) || (ord c =? 125))%N.

Fixpoint lstrip_braces (s : bytes) : bytes :=
  match s with
  | c :: r => if is_brace c then lstrip_braces r else s
  | [] => []
  end.

Definition strip_braces (s : bytes) : bytes :=
  rev (lstrip_braces (rev (lstrip_braces s))).

Fixpoint hex_number (acc : N) (s : bytes) : option N :=
  match s with
  | [] => Some acc
  | c :: r => match hex_value c with
              | Some d => hex_number (acc * 16 + d) r
              | None => None
              end
  end.

(** [uuid.UUID(hex)] on a string: the 128-bit integer of the identifier.
    The digits are read strictly; the sign, prefix and underscore forms that
    [int(_, 16)] also takes are left out. *)
Definition UUID (s : string) : res N :=
  let h := list_ascii_of_string s in
  let h := remove_all (list_ascii_of_string "urn:") 0 h in
  let h := remove_all (list_ascii_of_string "uuid:") 0 h in
  let h := remove_all [hyphen] 0 (strip_braces h) in
  if negb (length h =? 32)%nat then Raise ValueError
  else match hex_number 0 h with
       | Some n => Ok n
       | None => Raise ValueError
       end.

(** [uuid.UUID(x)] on a JSON value. *)
Definition UUID_value (x : json) : res N :=
  match x with
  | JStr s => UUID s
  | JNull => Raise TypeError
  | _ => Raise AttributeError
  end.

(** The [k] lower-case hexadecimal digits of [n], most significant first. *)
Fixpoint hex_digits (k : nat) (n : N) : bytes :=
  match k with
  | O => []
  | S k' => hex_digit ((n / 16 ^ N.of_nat k') mod 16) :: hex_digits k' n
  end.

(** [str(u)] for a UUID: the [8-4-4-4-12] form. *)
Definition uuid_str (u : N) : string :=
  let h := hex_digits 32 u in
  string_of_list_ascii
    (take 8 h ++ hyphen :: take 4 (drop 8 h) ++ hyphen :: take 4 (drop 12 h)
     ++ hyphen :: take 4 (drop 16 h) ++ hyphen :: drop 20 h).

End Py.

(* ===================================================================== *)
(** ** app/utils/cursor.py *)
(* ===================================================================== *)

Module Cursor.
Import Py.

(** [encode_cursor(transaction_id, created_at)]. *)
Definition encode_cursor (transaction_id : string) (created_at : datetime)
  : res string :=
  let cursor_data :=
    [("id", transaction_id); ("created_at", isoformat created_at)] in
  let json_str := json_dumps_sorted cursor_data in
  let! raw := str_encode json_str in
  bytes_decode (urlsafe_b64encode raw).

(** The dictionary that [decode_cursor] returns: the value found under
    ["id"], whatever its type, and the parsed ["created_at"]. *)
Definition cursor_data : Type := json * datetime.

(** The [try] block of [decode_cursor], run with [headroom] nested calls
    left under the recursion limit. *)
Definition decode_cursor_try (headroom : nat) (cursor : string)
  : res cursor_data :=
  let! raw := str_encode cursor in
  let! decoded_bytes := urlsafe_b64decode raw in
  let! text := bytes_decode decoded_bytes in
  let! data := json_loads headroom text in
  let! id := getitem data "id" in
  let! created := getitem data "created_at" in
  let! created_at := fromisoformat_value created in
  Ok (id, created_at).

(** [except (ValueError, KeyError, json.JSONDecodeError, TypeError)]. *)
Definition caught (e : exn) : bool :=
  issubclass e ValueError || issubclass e KeyError
  || issubclass e JSONDecodeError || issubclass e TypeError.

(** [decode_cursor(cursor)]. *)
Definition decode_cursor (headroom : nat) (cursor : string)
  : res (option cursor_data) :=
  match decode_cursor_try headroom cursor with
  | Ok d => Ok (Some d)
  | Raise e => if caught e then Ok None else Raise e
  end.

(** [validate_cursor(cursor)]. *)
Definition validate_cursor (headroom : nat) (cursor : string) : res bool :=
  let! d := decode_cursor headroom cursor in
  Ok (match d with Some _ => true | None => false end).

End Cursor.

(* ===================================================================== *)
(** ** app/schemas.py and app/models.py *)
(* ===================================================================== *)

Module Schemas.
Import Py.

Inductive TransactionType :=
  | CARD | P2P | CRYPTO | TOP_UP | WITHDRAWAL | BILL_PAYMENT | EARNINGS.

Inductive Product := Card | P2P_ | Crypto | Earnings.

Inductive TransactionStatus := COMPLETED | PENDING | FAILED | CANCELLED.

Definition type_value (t : TransactionType) : string :=
  match t with
  | CARD => "card" | P2P => "p2p" | CRYPTO => "crypto" | TOP_UP => "top_up"
  | WITHDRAWAL => "withdrawal" | BILL_PAYMENT => "bill_payment"
  | EARNINGS => "earnings"
  end.

Definition product_value (p : Product) : string :=
  match p with
  | Card => "Card" | P2P_ => "P2P" | Crypto => "Crypto" | Earnings => "Earnings"
  end.

Definition status_value (s : TransactionStatus) : string :=
  match s with
  | COMPLETED => "completed" | PENDING => "pending" | FAILED => "failed"
  | CANCELLED => "cancelled"
  end.

(** A row of the table [transactions] ([class Transaction(Base)]).  [id] is
    the 128-bit integer of the UUID, [amount] the [Numeric(18, 2)] value in
    hundredths.  [created_at] is the value that the mapped object carries.
    PostgreSQL stores its instant.  A SQLite file stores a text instead,
    [created_at_text], and compares that: ['YYYY-MM-DD HH:MM:SS.ffffff']
    where the mapper wrote the value, ['YYYY-MM-DD HH:MM:SS'] where the
    column's [server_default] did; PostgreSQL does not read this field. *)
Record Transaction := {
  id : N;
  user_id : string;
  transaction_type : string;
  product : string;
  status : string;
  currency : string;
  amount : Z;
  created_at : datetime;
  updated_at : option datetime;
  custom_metadata : option json;
  search_content : option string;
  created_at_text : string
}.

(** [TransactionFilter].  Amount bounds are in hundredths like the column;
    the values of [metadata_filters] are the strings that the route takes
    from the query parameters. *)
Record TransactionFilter := {
  f_user_id : option string;
  f_transaction_type : option TransactionType;
  f_product : option Product;
  f_status : option TransactionStatus;
  f_currency : option string;
  start_date : option datetime;
  end_date : option datetime;
  min_amount : option Z;
  max_amount : option Z;
  search_query : option string;
  metadata_filters : option (list (string * string))
}.

Definition no_filter : TransactionFilter :=
  {| f_user_id := None; f_transaction_type := None; f_product := None;
     f_status := None; f_currency := None; start_date := None;
     end_date := None; min_amount := None; max_amount := None;
     search_query := None; metadata_filters := None |}.

(** [PaginationParams] and [CursorPaginationParams]. *)
Record PaginationParams := { page : Z; page_size : Z }.
Record CursorPaginationParams := { cursor : option string; limit : Z }.

(** [TransactionResponse]. *)
Record TransactionResponse := {
  r_id : N;
  r_user_id : string;
  r_transaction_type : string;
  r_product : string;
  r_status : string;
  r_currency : string;
  r_amount : Z;
  r_metadata : option json;
  r_created_at : datetime;
  r_updated_at : option datetime
}.

(** [map_custom_metadata], the [mode='before'] validator: the fields that it
    copies from a row.  A column that holds the JSON [null] reads as [None],
    like one that holds no value. *)
Definition map_custom_metadata (t : Transaction) : TransactionResponse :=
  {| r_id := id t; r_user_id := user_id t;
     r_transaction_type := transaction_type t; r_product := product t;
     r_status := status t; r_currency := currency t; r_amount := amount t;
     r_metadata := match custom_metadata t with
                   | Some JNull => None
                   | m => m
                   end;
     r_created_at := created_at t;
     r_updated_at := updated_at t |}.

(** The string is the value of a member of the enumeration. *)
Definition is_value {A} (value : A -> string) (members : list A) (s : string)
  : bool :=
  existsb (fun m => String.eqb s (value m)) members.

(** What the field [metadata: Optional[Dict[str, Any]]] accepts: nothing, or
    a JSON object. *)
Definition is_dict (m : option json) : bool :=
  match m with
  | None | Some JNull | Some (JObj _) => true
  | Some _ => false
  end.

(** [TransactionResponse.model_validate] on a row: the three enumerated
    fields and the metadata are checked; the columns are strings, which the
    table allows to hold any text. *)
Definition model_validate (t : Transaction) : res TransactionResponse :=
  if is_value type_value
       [CARD; P2P; CRYPTO; TOP_UP; WITHDRAWAL; BILL_PAYMENT; EARNINGS]
       (transaction_type t)
     && is_value product_value [Card; P2P_; Crypto; Earnings] (product t)
     && is_value status_value [COMPLETED; PENDING; FAILED; CANCELLED]
          (status t)
     && is_dict (custom_metadata t)
  then Ok (map_custom_metadata t)
  else Raise ValidationError.

Record PaginatedResponse := {
  items : list TransactionResponse;
  total : Z;
  p_page : Z;
  p_page_size : Z;
  total_pages : Z
}.

Record CursorPaginatedResponse := {
  c_items : list TransactionResponse;
  next_cursor : option string;
  has_more : bool;
  c_limit : Z
}.

(** Truth value of an optional string: [None] and [''] are false. *)
Definition nonempty (o : option string) : option string :=
  match o with
  | Some EmptyString => None
  | _ => o
  end.

End Schemas.

(* ===================================================================== *)
(** ** app/repositories/transaction_repository.py *)
(* ===================================================================== *)

Module Repository.
Import Py Schemas.

(** *** The relational engine *)

(** SQL truth values: [None] is NULL. *)
Definition sql_bool := option bool.

Definition sql_and (a b : sql_bool) : sql_bool :=
  match a, b with
  | Some false, _ | _, Some false => Some false
  | Some true, Some true => Some true
  | _, _ => None
  end.

Definition sql_or (a b : sql_bool) : sql_bool :=
  match a, b with
  | Some true, _ | _, Some true => Some true
  | Some false, Some false => Some false
  | _, _ => None
  end.

(** What [->>] yields: NULL, a text, or (on SQLite, for a JSON number or
    boolean) a number. *)
Inductive sql_value :=
  | SqlNull
  | SqlText (s : string)
  | SqlNumber.

(** [x IS NOT NULL]. *)
Definition isnot_null (x : sql_value) : sql_bool :=
  Some (match x with SqlNull => false | _ => true end).

(** [x = y] for a text [y]: NULL against NULL, and false against a number,
    which SQLite orders before every text. *)
Definition text_eq (x : sql_value) (y : string) : sql_bool :=
  match x with
  | SqlNull => None
  | SqlText s => Some (String.eqb s y)
  | SqlNumber => Some false
  end.

(** A [WHERE] clause keeps the rows on which it is true. *)
Definition holds (b : sql_bool) : bool :=
  match b with Some true => true | _ => false end.

(** The text of a JSON value, for [->>]. *)
Definition decimal (n : Z) : string :=
  DecimalString.NilZero.string_of_int (Z.to_int n).

Fixpoint json_text (v : json) : string :=
  match v with
  | JNull => "null"
  | JBool true => "true"
  | JBool false => "false"
  | JInt n => decimal n
  | JFloat l => l
  | JStr s => string_of_list_ascii (dumps_str s)
  | JArr l =>
      "[" +:+ fold_right (fun x acc => json_text x +:+
                            (if String.eqb acc "]" then acc else ", " +:+ acc))
                "]" l
  | JObj d =>
      "{" +:+ fold_right (fun kv acc =>
                            string_of_list_ascii (dumps_str (fst kv)) +:+ ": "
                            +:+ json_text (snd kv) +:+
                            (if String.eqb acc "}" then acc else ", " +:+ acc))
                "}" d
  end.

(** The same text without the white space, as SQLite's JSON functions
    return a container. *)
Fixpoint json_minified (v : json) : string :=
  match v with
  | JArr l =>
      "[" +:+ fold_right (fun x acc => json_minified x +:+
                            (if String.eqb acc "]" then acc else "," +:+ acc))
                "]" l
  | JObj d =>
      "{" +:+ fold_right (fun kv acc =>
                            string_of_list_ascii (dumps_str (fst kv)) +:+ ":"
                            +:+ json_minified (snd kv) +:+
                            (if String.eqb acc "}" then acc else "," +:+ acc))
                "}" d
  | v => json_text v
  end.

(** A label that every version of SQLite's [->>] reads as the name of a
    field, where PostgreSQL reads any text so: ASCII letters, digits and
    [_], not starting with a digit.  The query parameters of the route
    ([direction], [merchant_name], [card_last_four], [peer_name]) are such
    labels. *)
Definition label_char (c : ascii) : bool :=
  let n := nat_of_ascii c in
  ((65 <=? n) && (n <=? 90) || (97 <=? n) && (n <=? 122)
   || (48 <=? n) && (n <=? 57) || (n =? 95))%nat.

Definition plain_label (key : string) : bool :=
  match list_ascii_of_string key with
  | [] => false
  | c :: _ =>
      negb ((48 <=? nat_of_ascii c) && (nat_of_ascii c <=? 57))%nat
      && forallb label_char (list_ascii_of_string key)
  end.

(** [column ->> key]: NULL when the column is NULL or not an object, when
    the key is missing, and when the value stored under it is the JSON
    null.  Otherwise PostgreSQL gives the text of the value (a string
    without its quotes); SQLite, for a plain label, gives a string as text,
    a container as its minified text, and a number or boolean as a
    number. *)
Definition json_extract_text (is_sqlite : bool) (column : option json)
    (key : string) : sql_value :=
  match column with
  | Some (JObj d) =>
      match dict_get d key with
      | Some JNull => SqlNull
      | Some (JStr s) => SqlText s
      | Some v =>
          if is_sqlite then
            match v with
            | JArr _ | JObj _ => SqlText (json_minified v)
            | _ => SqlNumber
            end
          else SqlText (json_text v)
      | None => SqlNull
      end
  | _ => SqlNull
  end.

(** A query under construction: the conjuncts of its [WHERE] clause, its
    [ORDER BY] (a row comes before another, or ties with it), its [OFFSET]
    and its [LIMIT]. *)
Record query := {
  q_where : list (Transaction -> sql_bool);
  q_order : option (Transaction -> Transaction -> bool);
  q_offset : nat;
  q_limit : option nat
}.

Definition select_all : query :=
  {| q_where := []; q_order := None; q_offset := 0; q_limit := None |}.

Definition filter_ (q : query) (p : Transaction -> sql_bool) : query :=
  {| q_where := q_where q ++ [p]; q_order := q_order q;
     q_offset := q_offset q; q_limit := q_limit q |}.

Definition order_by (q : query) (le : Transaction -> Transaction -> bool)
  : query :=
  {| q_where := q_where q; q_order := Some le;
     q_offset := q_offset q; q_limit := q_limit q |}.

Definition offset_ (q : query) (n : Z) : query :=
  {| q_where := q_where q; q_order := q_order q;
     q_offset := Z.to_nat n; q_limit := q_limit q |}.

Definition limit_ (q : query) (n : Z) : query :=
  {| q_where := q_where q; q_order := q_order q;
     q_offset := q_offset q; q_limit := Some (Z.to_nat n) |}.

Definition matches (q : query) (t : Transaction) : bool :=
  forallb (fun p => holds (p t)) (q_where q).

Definition selected (db : list Transaction) (q : query) : list Transaction :=
  List.filter (matches q) db.

(** [query.count()]. *)
Definition count (db : list Transaction) (q : query) : Z :=
  Z.of_nat (length (selected db q)).

(** [query.all()]. *)
Definition all (db : list Transaction) (q : query) : list Transaction :=
  let rows := selected db q in
  let rows := match q_order q with
              | Some le => merge_sort (fun a b => Is_true (le a b)) rows
              | None => rows
              end in
  let rows := drop (q_offset q) rows in
  match q_limit q with
  | Some n => take n rows
  | None => rows
  end.

(** [query.first()]. *)
Definition first (db : list Transaction) (q : query) : option Transaction :=
  head (all db (limit_ q 1)).

(** [l[:n]]. *)
Definition slice_to {A} (n : Z) (l : list A) : list A :=
  if 0 <=? n then take (Z.to_nat n) l
  else take (length l - Z.to_nat (- n)) l.

(** *** [TransactionRepository] *)

Section WithEngine.

(** The engine: its dialect, its [ILIKE] operator (text, then pattern);
    [str.lower]; and the nested calls that the interpreter's recursion limit
    still allows where a cursor is decoded. *)
Context (is_sqlite : bool)
        (ilike : string -> string -> bool)
        (lower : string -> string)
        (headroom : nat).

(** The order of the [id] column: UUID order on PostgreSQL, the order of the
    36-character texts on SQLite. *)
Definition id_ltb (a b : N) : bool :=
  if is_sqlite then str_ltb (uuid_str a) (uuid_str b) else (a <? b)%N.

(** The text that the SQLite dialect binds for a [datetime]: the fields of
    its wall clock, the offset dropped. *)
Definition sqlite_datetime (d : datetime) : string :=
  string_of_list_ascii
    (pad4 (year d) ++ hyphen :: pad2 (month d) ++ hyphen :: pad2 (day d)
     ++ chr 32 :: pad2 (hour d) ++ colon :: pad2 (minute d)
     ++ colon :: pad2 (second d) ++ dot :: pad6 (microsecond d)).

(** [created_at < d] and [created_at = d] for a bound [datetime]:
    PostgreSQL compares the instants, SQLite the stored text with the bound
    one. *)
Definition created_at_lt (t : Transaction) (d : datetime) : bool :=
  if is_sqlite then str_ltb (created_at_text t) (sqlite_datetime d)
  else instant (created_at t) <? instant d.

Definition created_at_gt (t : Transaction) (d : datetime) : bool :=
  if is_sqlite then str_ltb (sqlite_datetime d) (created_at_text t)
  else instant d <? instant (created_at t).

Definition created_at_eq (t : Transaction) (d : datetime) : bool :=
  if is_sqlite then String.eqb (created_at_text t) (sqlite_datetime d)
  else instant (created_at t) =? instant d.

(** [ORDER BY created_at DESC, id DESC]: the row [a] is not after [b]. *)
Definition desc_created_at_id (a b : Transaction) : bool :=
  if is_sqlite then
    str_ltb (created_at_text b) (created_at_text a)
    || (String.eqb (created_at_text a) (created_at_text b)
        && negb (id_ltb (id a) (id b)))
  else
    (instant (created_at b) <? instant (created_at a))
    || ((instant (created_at a) =? instant (created_at b))
        && negb (id_ltb (id a) (id b))).

(** [_apply_filters]. *)
Definition _apply_filters (q : query) (filters : TransactionFilter) : query :=
  let q := match f_transaction_type filters with
           | Some ty => filter_ q (fun t =>
                          Some (String.eqb (transaction_type t) (type_value ty)))
           | None => q
           end in
  let q := match f_product filters with
           | Some pr => filter_ q (fun t =>
                          Some (String.eqb (product t) (product_value pr)))
           | None => q
           end in
  let q := match f_status filters with
           | Some st => filter_ q (fun t =>
                          Some (String.eqb (status t) (status_value st)))
           | None => q
           end in
  let q := match nonempty (f_currency filters) with
           | Some c => filter_ q (fun t => Some (String.eqb (currency t) c))
           | None => q
           end in
  let q := match start_date filters with
           | Some d => filter_ q (fun t => Some (negb (created_at_lt t d)))
           | None => q
           end in
  let q := match end_date filters with
           | Some d => filter_ q (fun t => Some (negb (created_at_gt t d)))
           | None => q
           end in
  let q := match min_amount filters with
           | Some a => filter_ q (fun t => Some (a <=? amount t))
           | None => q
           end in
  let q := match max_amount filters with
           | Some a => filter_ q (fun t => Some (amount t <=? a))
           | None => q
           end in
  let q := match nonempty (search_query filters) with
           | Some sq =>
               let search_term := "%" +:+ lower sq +:+ "%" in
               filter_ q (fun t =>
                 match search_content t with
                 | Some c => Some (ilike c search_term)
                 | None => None
                 end)
           | None => q
           end in
  match metadata_filters filters with
  | Some kvs =>
      fold_left (fun q kv =>
        filter_ q (fun t =>
          let json_expr :=
            json_extract_text is_sqlite (custom_metadata t) (fst kv) in
          sql_and (isnot_null json_expr) (text_eq json_expr (snd kv))))
        kvs q
  | None => q
  end.

Definition by_user (user : string) : query :=
  filter_ select_all (fun t => Some (String.eqb (user_id t) user)).

(** [get_by_id]: a string that is not a UUID stays a string, which no stored
    identifier equals on SQLite and which the PostgreSQL driver refuses. *)
Definition get_by_id (db : list Transaction) (transaction_id : string)
  : res (option Transaction) :=
  match UUID transaction_id with
  | Ok u => Ok (first db (filter_ select_all (fun t => Some (id t =? u)%N)))
  | Raise _ => if is_sqlite then Ok None else Raise DatabaseError
  end.

(** An integer bound to [OFFSET] or [LIMIT].  PostgreSQL refuses a
    negative one and one beyond [bigint]; the SQLite driver refuses one
    beyond 64 bits. *)
Definition bind_int (n : Z) : res Z :=
  if is_sqlite
  then if (n <? - 2 ^ 63) || (2 ^ 63 - 1 <? n) then Raise OverflowError
       else Ok n
  else if (n <? 0) || (2 ^ 63 - 1 <? n) then Raise DatabaseError
       else Ok n.

(** [query.offset(offset).limit(limit).all()] with bound integers: SQLite
    reads a negative [OFFSET] as none and a negative [LIMIT] as no limit. *)
Definition offset_limit_all (db : list Transaction) (q : query)
    (offset : option Z) (limit : Z) : res (list Transaction) :=
  let! q := match offset with
            | Some n => let! n := bind_int n in Ok (offset_ q n)
            | None => Ok q
            end in
  let! n := bind_int limit in
  Ok (all db (if n <? 0 then q else limit_ q n)).

(** [get_by_user_id]. *)
Definition get_by_user_id (db : list Transaction) (user : string)
    (filters : option TransactionFilter) (pagination : option PaginationParams)
  : res (list Transaction * Z) :=
  let q := by_user user in
  let q := match filters with
           | Some f => _apply_filters q f
           | None => q
           end in
  let total := count db q in
  let! rows :=
    match pagination with
    | Some p =>
        let offset := (page p - 1) * page_size p in
        offset_limit_all db (order_by q desc_created_at_id) (Some offset)
          (page_size p)
    | None => Ok (all db (order_by q desc_created_at_id))
    end in
  Ok (rows, total).

(** The keyset predicate: the row is strictly after the cursor position. *)
Definition after_cursor (cursor_created_at : datetime) (cursor_id : N)
    (t : Transaction) : sql_bool :=
  sql_or (Some (created_at_lt t cursor_created_at))
         (sql_and (Some (created_at_eq t cursor_created_at))
                  (Some (id_ltb (id t) cursor_id))).

(** [get_by_user_id_cursor]. *)
Definition get_by_user_id_cursor (db : list Transaction) (user : string)
    (filters : option TransactionFilter)
    (cursor_pagination : option CursorPaginationParams)
  : res (list Transaction * bool) :=
  let q := by_user user in
  let q := match filters with
           | Some f => _apply_filters q f
           | None => q
           end in
  let limit := match cursor_pagination with
               | Some cp => limit cp
               | None => 20
               end in
  let! q :=
    match cursor_pagination with
    | Some cp =>
        match nonempty (cursor cp) with
        | Some c =>
            let! cursor_data := Cursor.decode_cursor headroom c in
            match cursor_data with
            | Some (cid, cursor_created_at) =>
                let! cursor_id := UUID_value cid in
                Ok (filter_ q (after_cursor cursor_created_at cursor_id))
            | None => Ok q
            end
        | None => Ok q
        end
    | None => Ok q
    end in
  let q := order_by q desc_created_at_id in
  let! transactions := offset_limit_all db q None (limit + 1) in
  let has_more := Z.of_nat (length transactions) >? limit in
  Ok (slice_to limit transactions, has_more).

End WithEngine.

End Repository.

(* ===================================================================== *)
(** ** app/services/cache_service.py and app/services/transaction_service.py *)
(* ===================================================================== *)

Module Service.
Import Py Schemas Repository.

(** What the keys of the cache hold: the models dumped by the services.  The
    JSON round trip of a value through Redis is taken to give the value
    back. *)
Inductive cached :=
  | CachedPage (p : PaginatedResponse)
  | CachedCursorPage (p : CursorPaginatedResponse)
  | CachedTransaction (t : TransactionResponse).

(** [CacheService] over a Redis that answers: [enabled] and the stored
    entries. *)
Record CacheService := {
  enabled : bool;
  entries : gmap string cached
}.

Definition cache_get (c : CacheService) (key : string) : option cached :=
  if enabled c then entries c !! key else None.

Definition cache_set (c : CacheService) (key : string) (v : cached)
  : CacheService :=
  if enabled c
  then {| enabled := true; entries := <[key := v]> (entries c) |}
  else c.

(** [":".join(parts)]. *)
Definition join_colon (parts : list string) : string := String.concat ":" parts.

(** The parts that both key builders take from the filters. *)
Definition filter_parts (filters : option TransactionFilter) : list string :=
  match filters with
  | Some f =>
      match f_transaction_type f with
      | Some ty => ["type:" +:+ type_value ty] | None => [] end
      ++ match f_product f with
         | Some pr => ["product:" +:+ product_value pr] | None => [] end
      ++ match f_status f with
         | Some st => ["status:" +:+ status_value st] | None => [] end
      ++ match nonempty (f_currency f) with
         | Some c => ["currency:" +:+ c] | None => [] end
      ++ match nonempty (search_query f) with
         | Some q => ["search:" +:+ q] | None => [] end
  | None => []
  end.

(** [_build_cache_key]. *)
Definition _build_cache_key (user : string)
    (filters : option TransactionFilter) (pagination : option PaginationParams)
  : string :=
  join_colon
    (["transactions:user:" +:+ user]
     ++ filter_parts filters
     ++ match pagination with
        | Some p => ["page:" +:+ decimal (page p) +:+ ":size:"
                       +:+ decimal (page_size p)]
        | None => []
        end).

(** [_build_cache_key_cursor]. *)
Definition _build_cache_key_cursor (user : string)
    (filters : option TransactionFilter)
    (cursor_pagination : option CursorPaginationParams) : string :=
  join_colon
    (["transactions:user:" +:+ user +:+ ":cursor"]
     ++ filter_parts filters
     ++ match cursor_pagination with
        | Some cp =>
            ["limit:" +:+ decimal (limit cp)]
            ++ match nonempty (cursor cp) with
               | Some c => ["cursor:" +:+ str_take 20 c]
               | None => []
               end
        | None => []
        end).

(** [_extract_search_filters]. *)
Definition _extract_search_filters (f : TransactionFilter)
  : list (string * string) :=
  match f_transaction_type f with
  | Some ty => [("transaction_type", type_value ty)] | None => [] end
  ++ match f_product f with
     | Some pr => [("product", product_value pr)] | None => [] end
  ++ match f_status f with
     | Some st => [("status", status_value st)] | None => [] end
  ++ match nonempty (f_currency f) with
     | Some c => [("currency", c)] | None => [] end.

Section WithCollaborators.

(** The engine (see [Repository]) and the search service: whether it is
    enabled and what [search] answers (identifiers and total) for a user, a
    query, the extracted filters, the two dates, a page and a page size; and
    the allowance of the recursion limit (see [Repository]), taken the same
    wherever the request decodes its cursor. *)
Context (is_sqlite : bool)
        (ilike : string -> string -> bool)
        (lower : string -> string)
        (search_enabled : bool)
        (search : string -> string -> list (string * string)
                  -> option string -> option string -> Z -> Z
                  -> list string * Z)
        (headroom : nat).

(** [for tx_id in transaction_ids: tx = get_by_id(tx_id); if tx: append]. *)
Fixpoint hydrate (db : list Transaction) (ids : list string)
  : res (list Transaction) :=
  match ids with
  | [] => Ok []
  | i :: rest =>
      let! tx := get_by_id is_sqlite db i in
      let! txs := hydrate db rest in
      Ok (match tx with Some t => t :: txs | None => txs end)
  end.

(** The filter has a search query ([filters and filters.search_query]). *)
Definition searching (filters : option TransactionFilter)
  : option (TransactionFilter * string) :=
  match filters with
  | Some f => match nonempty (search_query f) with
              | Some q => Some (f, q)
              | None => None
              end
  | None => None
  end.

(** The part of [get_transactions] that runs on a cache miss. *)
Definition compute_page (db : list Transaction) (user : string)
    (filters : option TransactionFilter) (pagination : option PaginationParams)
  : res PaginatedResponse :=
  let! (transactions, total) :=
    match searching filters with
    | Some (f, q) =>
        if negb search_enabled
        then get_by_user_id is_sqlite ilike lower db user filters pagination
        else
          let '(transaction_ids, total) :=
            search user q (_extract_search_filters f)
              (option_map isoformat (start_date f))
              (option_map isoformat (end_date f))
              (match pagination with Some p => page p | None => 1 end)
              (match pagination with Some p => page_size p | None => 20 end) in
          let! transactions := hydrate db transaction_ids in
          Ok (transactions, total)
    | None =>
        get_by_user_id is_sqlite ilike lower db user filters pagination
    end in
  let! items := comprehension model_validate transactions in
  let page := match pagination with Some p => page p | None => 1 end in
  let page_size := match pagination with Some p => page_size p | None => 20 end in
  let total_pages := (total + page_size - 1) / page_size in
  Ok {| items := items; total := total; p_page := page;
        p_page_size := page_size; total_pages := total_pages |}.

(** [get_transactions]: the page and the cache afterwards. *)
Definition get_transactions (db : list Transaction) (cache : CacheService)
    (user : string) (filters : option TransactionFilter)
    (pagination : option PaginationParams)
  : res (PaginatedResponse * CacheService) :=
  let cache_key := _build_cache_key user filters pagination in
  match cache_get cache cache_key with
  | Some (CachedPage p) => Ok (p, cache)
  | Some _ => Raise ValidationError
  | None =>
      let! result := compute_page db user filters pagination in
      Ok (result, cache_set cache cache_key (CachedPage result))
  end.

(** [get_transaction]. *)
Definition get_transaction (db : list Transaction) (cache : CacheService)
    (transaction_id : string)
  : res (option TransactionResponse * CacheService) :=
  let cache_key := "transaction:" +:+ transaction_id in
  match cache_get cache cache_key with
  | Some (CachedTransaction t) => Ok (Some t, cache)
  | Some _ => Raise ValidationError
  | None =>
      let! transaction := get_by_id is_sqlite db transaction_id in
      match transaction with
      | None => Ok (None, cache)
      | Some t =>
          let! response := model_validate t in
          Ok (Some response,
              cache_set cache cache_key (CachedTransaction response))
      end
  end.

(** A [datetime] without [tzinfo]; Python orders two values only when both
    or neither have one. *)
Definition naive (d : datetime) : bool :=
  match tzinfo d with
  | None => true
  | Some _ => false
  end.

(** [sort(key=lambda x: (x.created_at, x.id), reverse=True)], on the values
    that the mapped objects carry. *)
Definition sort_desc (l : list Transaction) : res (list Transaction) :=
  if existsb (fun t => naive (created_at t)) l
     && existsb (fun t => negb (naive (created_at t))) l
  then Raise TypeError
  else Ok (merge_sort (fun a b => Is_true (desc_created_at_id false a b)) l).

(** The in-memory cursor filter of the search path; a cursor whose ["id"] is
    not a string cannot be compared with [str(tx.id)]. *)
Fixpoint filter_after (cid : json) (cursor_created_at : datetime)
    (l : list Transaction) : res (list Transaction) :=
  match l with
  | [] => Ok []
  | tx :: rest =>
      let! keep :=
        if xorb (naive (created_at tx)) (naive cursor_created_at)
        then Raise TypeError
        else if instant (created_at tx) <? instant cursor_created_at then Ok true
        else if instant (created_at tx) =? instant cursor_created_at then
          match cid with
          | JStr c => Ok (str_ltb (uuid_str (id tx)) c)
          | _ => Raise TypeError
          end
        else Ok false in
      let! rest' := filter_after cid cursor_created_at rest in
      Ok (if keep then tx :: rest' else rest')
  end.

(** The part of [get_transactions_cursor] that runs on a cache miss. *)
Definition compute_cursor_page (db : list Transaction) (user : string)
    (filters : option TransactionFilter)
    (cursor_pagination : option CursorPaginationParams)
  : res CursorPaginatedResponse :=
  let! (transactions, has_more) :=
    match searching filters with
    | Some (f, q) =>
        if negb search_enabled
        then get_by_user_id_cursor is_sqlite ilike lower headroom db user
               filters cursor_pagination
        else
          let limit := match cursor_pagination with
                       | Some cp => limit cp | None => 20 end in
          let '(transaction_ids, _) :=
            search user q (_extract_search_filters f)
              (option_map isoformat (start_date f))
              (option_map isoformat (end_date f))
              1 (limit * 2) in
          let! all_transactions := hydrate db transaction_ids in
          let! all_transactions := sort_desc all_transactions in
          let! all_transactions :=
            match cursor_pagination with
            | Some cp =>
                match nonempty (cursor cp) with
                | Some c =>
                    let! cursor_data := Cursor.decode_cursor headroom c in
                    match cursor_data with
                    | Some (cid, cursor_created_at) =>
                        filter_after cid cursor_created_at all_transactions
                    | None => Ok all_transactions
                    end
                | None => Ok all_transactions
                end
            | None => Ok all_transactions
            end in
          Ok (slice_to limit all_transactions,
              Z.of_nat (length all_transactions) >? limit)
    | None =>
        get_by_user_id_cursor is_sqlite ilike lower headroom db user filters
          cursor_pagination
    end in
  let! items := comprehension model_validate transactions in
  let! next_cursor :=
    match last transactions, has_more with
    | Some last_transaction, true =>
        let! c := Cursor.encode_cursor (uuid_str (id last_transaction))
                    (created_at last_transaction) in
        Ok (Some c)
    | _, _ => Ok None
    end in
  let limit := match cursor_pagination with
               | Some cp => limit cp | None => 20 end in
  Ok {| c_items := items; next_cursor := next_cursor;
        has_more := has_more; c_limit := limit |}.

(** [get_transactions_cursor]: the page and the cache afterwards. *)
Definition get_transactions_cursor (db : list Transaction)
    (cache : CacheService) (user : string)
    (filters : option TransactionFilter)
    (cursor_pagination : option CursorPaginationParams)
  : res (CursorPaginatedResponse * CacheService) :=
  let cache_key := _build_cache_key_cursor user filters cursor_pagination in
  match cache_get cache cache_key with
  | Some (CachedCursorPage p) => Ok (p, cache)
  | Some _ => Raise ValidationError
  | None =>
      let! result := compute_cursor_page db user filters cursor_pagination in
      Ok (result, cache_set cache cache_key (CachedCursorPage result))
  end.

End WithCollaborators.

End Service.

(* ===================================================================== *)
(** ** app/auth.py and app/api/routes/transactions.py *)
(* ===================================================================== *)

Module Routes.
Import Py Schemas Repository Service.

(** The claims of a verified token. *)
Record payload := { sub : option string; claim_user_id : option string }.

(** The payload that [create_token] signs for a [TokenRequest]. *)
Definition create_token (user : string) : payload :=
  {| sub := Some user; claim_user_id := Some user |}.

(** [get_current_user_id_optional].  [credentials] is [None] without an
    [Authorization] header; a token that [decode_token] rejects carries no
    payload.  [a or b] is [b] unless [a] is a non-empty string. *)
Definition get_current_user_id_optional
    (credentials : option (option payload)) : option string :=
  match credentials with
  | None => None
  | Some None => None
  | Some (Some p) =>
      match nonempty (sub p) with
      | Some u => Some u
      | None => claim_user_id p
      end
  end.

(** What an endpoint answers: a body, or [HTTPException(status_code)]. *)
Inductive response (A : Type) :=
  | Body (a : A)
  | HTTPException (status_code : Z).
Arguments Body {A} a.
Arguments HTTPException {A} status_code.

Section WithEngine.
Context (is_sqlite : bool).

(** [get_transaction], the endpoint [GET /transactions/{transaction_id}]. *)
Definition get_transaction_endpoint (db : list Transaction)
    (cache : CacheService) (transaction_id : string)
    (current_user_id : option string)
  : res (response TransactionResponse * CacheService) :=
  match UUID transaction_id with
  | Raise e =>
      if issubclass e ValueError then Ok (HTTPException 400, cache)
      else Raise e
  | Ok uuid_obj =>
      let transaction_id := uuid_str uuid_obj in
      let! (transaction, cache) :=
        Service.get_transaction is_sqlite db cache transaction_id in
      match transaction with
      | None => Ok (HTTPException 404, cache)
      | Some t =>
          match nonempty current_user_id with
          | Some u =>
              if negb (String.eqb (r_user_id t) u)
              then Ok (HTTPException 403, cache)
              else Ok (Body t, cache)
          | None => Ok (Body t, cache)
          end
      end
  end.

End WithEngine.

End Routes.

(* ===================================================================== *)
(** ** app/services/search_service.py and app/services/message_consumer.py *)
(* ===================================================================== *)

Module Consumer.
Import Py.

(** A record polled from Kafka, its value already deserialized. *)
Record message := { value : json; partition : Z; offset : Z }.

(** Truth value of a JSON value: a float is false when it is written with
    zero digits only. *)
Definition zero_lexeme (l : string) : bool :=
  (fix go (s : bytes) : bool :=
     match s with
     | [] => true
     | c :: r =>
         if (ord c =? 101)%N || (ord c =? 69)%N then true
         else if in_range 49 57 c || in_range 65 90 c || in_range 97 122 c
         then false
         else go r
     end) (list_ascii_of_string l).

Definition truthy (x : json) : bool :=
  match x with
  | JNull => false
  | JBool b => b
  | JInt n => negb (n =? 0)
  | JFloat l => negb (zero_lexeme l)
  | JStr s => negb (String.eqb s "")
  | JArr l => match l with [] => false | _ => true end
  | JObj d => match d with [] => false | _ => true end
  end.

(** Only lists and dictionaries among JSON values are unhashable. *)
Definition hashable (x : json) : bool :=
  match x with
  | JArr _ | JObj _ => false
  | _ => true
  end.

(** What the dependencies do while one message is handled: the versions that
    [es_client.get] reports (or its failure), what [es_client.index] would do
    if the breaker let the call through, the two clock readings of the
    breaker, whether the audit database operations raise, and whether
    [es_client.delete] raises. *)
Record outcomes := {
  stored_versions : res (Z * Z);
  index_behaviour : CircuitBreaker.behaviour;
  t_check : Z;
  t_fail : Z;
  audit_raises : bool;
  delete_raises : bool
}.

(** What the consumer does to the outside world, in order. *)
Inductive effect :=
  | Enrich (transaction : json)
  | IndexTransaction (document : dict) (version : json) (ok : bool)
  | DeleteTransaction (transaction_id : string) (ok : bool)
  | AuditWrite (document : dict) (event_type : json) (ok : bool)
  | MarkProcessed (message_id : string)
  | Commit (offsets : list (Z * Z))
  | SendToDlq (dlq_topic : string) (original_message : json) (error : string).

(** The settings and constructor arguments that the batch reads. *)
Record config := {
  enable_audit_db : bool;
  search_enabled : bool;
  cache_enabled : bool;
  circuit_breaker_enabled : bool;
  kafka_enable_auto_commit : bool;
  kafka_transactions_topic : string
}.

(** The consumer between two messages: the in-memory set and the cache keys
    of processed messages, the Elasticsearch breaker, the two lists of the
    current batch and the effects so far. *)
Record state := {
  processed_messages : gset string;
  cache_keys : gset string;
  breaker : CircuitBreaker.breaker;
  successful : list message;
  failed : list message;
  effects : list effect
}.

Section WithRuntime.

(** [hashlib.sha256(...).hexdigest()], [repr] of floats, lists and
    dictionaries, [float], the search text that the strategies synthesise
    from a transaction (it formats floats), and [datetime.utcnow().isoformat()]. *)
Context (sha256 : string -> string)
        (py_repr : json -> string)
        (py_float : json -> res json)
        (build_search_content : dict -> string)
        (utcnow : string)
        (cfg : config).

(** [str(x)]. *)
Definition py_str (x : json) : string :=
  match x with
  | JStr s => s
  | JNull => "None"
  | JBool true => "True"
  | JBool false => "False"
  | JInt n => Repository.decimal n
  | _ => py_repr x
  end.

Definition lookup (d : dict) (k : string) (default : json) : json :=
  match dict_get d k with
  | Some v => v
  | None => default
  end.

(** [x == s] for a string [s]. *)
Definition is_str (x : json) (s : string) : bool :=
  match x with
  | JStr s' => String.eqb s' s
  | _ => false
  end.

(** [_generate_message_id]. *)
Definition _generate_message_id (msg : json) : res string :=
  let! transaction := get msg "transaction" (JObj []) in
  let! transaction_id := get transaction "id" (JStr "") in
  let! event_type := get msg "event_type" (JStr "") in
  let! timestamp := get msg "timestamp" (JStr "") in
  let content := py_str transaction_id +:+ ":" +:+ py_str event_type
                   +:+ ":" +:+ py_str timestamp in
  let! _ := str_encode content in
  Ok (sha256 content).

Definition processed_key (message_id : string) : string :=
  "message:processed:" +:+ message_id.

(** [_is_duplicate]. *)
Definition _is_duplicate (st : state) (message_id : string) : bool :=
  bool_decide (message_id ∈ processed_messages st)
  || (cache_enabled cfg
      && bool_decide (processed_key message_id ∈ cache_keys st)).

(** [_mark_as_processed]. *)
Definition _mark_as_processed (st : state) (message_id : string) : state :=
  {| processed_messages := {[message_id]} ∪ processed_messages st;
     cache_keys := if cache_enabled cfg
                   then {[processed_key message_id]} ∪ cache_keys st
                   else cache_keys st;
     breaker := breaker st;
     successful := successful st;
     failed := failed st;
     effects := effects st ++ [MarkProcessed message_id] |}.

(** [_enrich_transaction]: whatever goes wrong inside, the transaction comes
    back as it stands.  Every strategy has the same [enrich_metadata], a
    copy of the metadata. *)
Definition _enrich_transaction (transaction : dict) : dict :=
  if negb (hashable (lookup transaction "transaction_type" (JStr "")))
  then transaction
  else
    let metadata := lookup transaction "metadata" (JObj []) in
    let copied :=
      if truthy metadata then
        match metadata with
        | JObj _ | JArr _ => Some (dict_set transaction "metadata" metadata)
        | _ => None
        end
      else Some transaction in
    match copied with
    | None => transaction
    | Some t1 =>
        let t2 :=
          if negb (truthy (lookup t1 "search_content" JNull))
          then dict_set t1 "search_content" (JStr (build_search_content t1))
          else t1 in
        dict_set (dict_set t2 "_enriched" (JBool true))
          "_enriched_at" (JStr utcnow)
    end.

(** [_add_version]. *)
Definition _add_version (o : outcomes) (transaction : dict) (version : json)
  : dict :=
  let version :=
    match version with
    | JNull =>
        if search_enabled cfg then
          match stored_versions o with
          | Ok (current_version, doc_version) =>
              JInt (Z.max current_version doc_version + 1)
          | Raise _ => JInt 1
          end
        else JInt 1
    | v => v
    end in
  dict_set (dict_set transaction "_version" version) "_updated_at" (JStr utcnow).

Definition copy_key (k : string) (src dst : dict) : dict :=
  match dict_get src k with
  | Some v => dict_set dst k v
  | None => dst
  end.

(** [_normalize_transaction]. *)
Definition _normalize_transaction (transaction : dict) : res dict :=
  let! amount := py_float (lookup transaction "amount" (JInt 0)) in
  let normalized : dict :=
    [("id", JStr (py_str (lookup transaction "id" (JStr ""))));
     ("user_id", lookup transaction "user_id" (JStr ""));
     ("transaction_type", lookup transaction "transaction_type" (JStr ""));
     ("product", lookup transaction "product" (JStr ""));
     ("status", lookup transaction "status" (JStr ""));
     ("currency", lookup transaction "currency" (JStr ""));
     ("amount", amount);
     ("metadata", lookup transaction "metadata" (JObj []))] in
  let normalized :=
    dict_set normalized "created_at"
      (match dict_get transaction "created_at" with
       | Some (JStr c) => JStr c
       | _ => JStr utcnow
       end) in
  let normalized :=
    dict_set normalized "search_content"
      (lookup transaction "search_content" (JStr "")) in
  Ok (copy_key "_enriched_at" transaction
        (copy_key "_enriched" transaction
           (copy_key "_updated_at" transaction
              (copy_key "_version" transaction normalized)))).

(** [SearchService.index_transaction]: its answer and the breaker afterwards. *)
Definition index_transaction (b : CircuitBreaker.breaker) (o : outcomes)
  : bool * CircuitBreaker.breaker :=
  if negb (search_enabled cfg) then (false, b)
  else
    let r := CircuitBreaker.call (circuit_breaker_enabled cfg) b
               (t_check o) (index_behaviour o) (t_fail o) in
    (match CircuitBreaker.outcome r with
     | CircuitBreaker.Result => true
     | _ => false
     end, CircuitBreaker.after r).

(** [SearchService.delete_transaction]. *)
Definition delete_transaction (o : outcomes) : bool :=
  search_enabled cfg && negb (delete_raises o).

Definition log (st : state) (e : list effect) : state :=
  {| processed_messages := processed_messages st;
     cache_keys := cache_keys st;
     breaker := breaker st;
     successful := successful st;
     failed := failed st;
     effects := effects st ++ e |}.

Definition set_breaker (st : state) (b : CircuitBreaker.breaker) : state :=
  {| processed_messages := processed_messages st;
     cache_keys := cache_keys st;
     breaker := b;
     successful := successful st;
     failed := failed st;
     effects := effects st |}.

(** [successful.append(message)] and [failed.append(message)]. *)
Definition ack (st : state) (m : message) : state :=
  {| processed_messages := processed_messages st;
     cache_keys := cache_keys st;
     breaker := breaker st;
     successful := successful st ++ [m];
     failed := failed st;
     effects := effects st |}.

Definition fail (st : state) (m : message) : state :=
  {| processed_messages := processed_messages st;
     cache_keys := cache_keys st;
     breaker := breaker st;
     successful := successful st;
     failed := failed st ++ [m];
     effects := effects st |}.

(** [_write_to_audit_db]: nothing is attempted when the audit database is
    switched off, and a failure is logged and swallowed. *)
Definition _write_to_audit_db (st : state) (o : outcomes) (document : dict)
    (event_type : json) : state :=
  if negb (enable_audit_db cfg) then st
  else log st [AuditWrite document event_type (negb (audit_raises o))].

(** [_enrich_transaction] and [_add_version] write into the dictionary that
    the message holds: from then on the message carries the transaction as
    they left it. *)
Definition with_transaction (m : message) (transaction : dict) : message :=
  {| value := match value m with
              | JObj d => JObj (dict_set d "transaction" (JObj transaction))
              | v => v
              end;
     partition := partition m; offset := offset m |}.

(** The [try] block of the loop of [_process_batch] for one message: the
    state afterwards and the message as it then stands, with the exception
    that left the block if one did. *)
Definition handle (st : state) (m : message) (o : outcomes)
  : state * message * option exn :=
  let msg_value := value m in
  match _generate_message_id msg_value with
  | Raise e => (st, m, Some e)
  | Ok message_id =>
  match get msg_value "event_type" JNull, get msg_value "transaction" JNull with
  | Raise e, _ | _, Raise e => (st, m, Some e)
  | Ok event_type, Ok transaction =>
  if negb (truthy transaction) then (ack st m, m, None)
  else if _is_duplicate st message_id then (ack st m, m, None)
  else
    match transaction with
    | JObj tx =>
        let enriched_transaction := _enrich_transaction tx in
        let st := log st [Enrich (JObj enriched_transaction)] in
        let version := lookup
                         (match msg_value with JObj d => d | _ => [] end)
                         "version" JNull in
        let versioned_transaction :=
          _add_version o enriched_transaction version in
        let m := with_transaction m versioned_transaction in
        match _normalize_transaction versioned_transaction with
        | Raise e => (st, m, Some e)
        | Ok es_transaction =>
            if is_str event_type "transaction.created"
               || is_str event_type "transaction.updated"
            then
              let version := lookup es_transaction "_version" JNull in
              let es_transaction := dict_pop es_transaction "_version" in
              let '(success, b) := index_transaction (breaker st) o in
              let st := log (set_breaker st b)
                          [IndexTransaction es_transaction version success] in
              let st := _write_to_audit_db st o es_transaction event_type in
              if success
              then (ack (_mark_as_processed st message_id) m, m, None)
              else (ack (_mark_as_processed st message_id) m, m, None)
            else if is_str event_type "transaction.deleted" then
              let transaction_id := lookup es_transaction "id" JNull in
              if truthy transaction_id then
                let st := log st [DeleteTransaction (py_str transaction_id)
                                    (delete_transaction o)] in
                let st := _write_to_audit_db st o es_transaction event_type in
                (ack (_mark_as_processed st message_id) m, m, None)
              else (fail st m, m, None)
            else (fail st m, m, None)
        end
    | _ => (st, m, Some AttributeError)
    end
  end
  end.

(** One turn of the loop: [except Exception] sends the message to [failed]. *)
Definition process_message (st : state) (mo : message * outcomes) : state :=
  let '(m, o) := mo in
  match handle st m o with
  | (st', _, None) => st'
  | (st', m', Some _) => fail st' m'
  end.

(** [{msg.partition: {msg.offset + 1: None} for msg in successful}]: one
    entry per partition, that of its last message. *)
Fixpoint commit_offsets (acc : list (Z * Z)) (l : list message)
  : list (Z * Z) :=
  match l with
  | [] => acc
  | m :: rest =>
      let set :=
        (fix set (d : list (Z * Z)) : list (Z * Z) :=
           match d with
           | [] => [(partition m, offset m + 1)]
           | (p, o) :: d' =>
               if p =? partition m then (p, offset m + 1) :: d'
               else (p, o) :: set d'
           end) in
      commit_offsets (set acc) rest
  end.

(** The commit of the successful messages. *)
Definition commit_successful (st : state) : state :=
  match successful st with
  | [] => st
  | _ =>
      if negb (kafka_enable_auto_commit cfg)
      then log st [Commit (commit_offsets [] (successful st))]
      else st
  end.

(** The loop over [failed]: nothing is sent while the Elasticsearch breaker
    is open.  No exception variable is bound at that point, so the error
    text is always the default one. *)
Definition send_failed_to_dlq (st : state) : state :=
  let dlq_topic := kafka_transactions_topic cfg +:+ ".dlq" in
  fold_left (fun st m =>
    match CircuitBreaker.state (breaker st) with
    | CircuitBreaker.OPEN => st
    | _ => log st [SendToDlq dlq_topic (value m) "Unknown error"]
    end) (failed st) st.

(** [_process_batch]: the lists [successful] and [failed] start empty. *)
Definition _process_batch (st : state) (messages : list (message * outcomes))
  : state :=
  match messages with
  | [] => st
  | _ =>
      let st0 := {| processed_messages := processed_messages st;
                    cache_keys := cache_keys st;
                    breaker := breaker st;
                    successful := []; failed := [];
                    effects := effects st |} in
      send_failed_to_dlq
        (commit_successful (fold_left process_message messages st0))
  end.

End WithRuntime.

End Consumer.

(* ===================================================================== *)
(** * Properties *)
(* ===================================================================== *)

Module CircuitBreakerSpec.
Import CircuitBreaker.

Ltac unfold_breaker :=
  unfold call, admit_call, complete_call, _on_failure, _on_success,
    _should_attempt_reset, set_state, set_failure_count, set_success_count,
    set_last_failure_time in *; simpl in *.

(** The configuration of a breaker is never touched by [call]. *)
Lemma call_keeps_config en b t1 f t2 :
  failure_threshold (after (call en b t1 f t2)) = failure_threshold b /\
  timeout (after (call en b t1 f t2)) = timeout b /\
  half_open_success_threshold (after (call en b t1 f t2))
    = half_open_success_threshold b.
Proof.
  unfold call, admit_call, complete_call, _on_failure, _on_success,
    _should_attempt_reset.
  destruct en; simpl; [|done].
  destruct b as [th tmo fc lft st sc hst]; simpl.
  destruct st, f, lft; simpl; repeat case_bool_decide; simpl; auto.
Qed.

(** One expected failure on a closed breaker: the counter grows by one and
    the breaker opens exactly when the counter reaches the threshold. *)
Lemma closed_failure b t1 t2 :
  state b = CLOSED ->
  let b' := after (call true b t1 RaisesExpected t2) in
  failure_count b' = failure_count b + 1 /\
  last_failure_time b' = Some t2 /\
  state b' = (if bool_decide (failure_threshold b <= failure_count b + 1)
              then OPEN else CLOSED).
Proof.
  intros Hs. unfold_breaker. rewrite Hs. simpl. rewrite Hs.
  case_bool_decide; simpl; auto.
Qed.

(** One expected failure offered to an open breaker leaves it open, whether
    the call is rejected or admitted as a probe. *)
Lemma open_failure b t1 t2 :
  state b = OPEN -> state (after (call true b t1 RaisesExpected t2)) = OPEN.
Proof.
  intros Hs. unfold_breaker. rewrite Hs.
  destruct (last_failure_time b); simpl; auto.
  case_bool_decide; simpl; auto.
Qed.

Definition all_expected_failures (calls : list (Z * behaviour * Z)) : Prop :=
  Forall (fun c => c.1.2 = RaisesExpected) calls.

Lemma run_failures_open calls : forall b,
  all_expected_failures calls ->
  state b = OPEN -> state (run true b calls) = OPEN.
Proof.
  induction calls as [|[[t1 f] t2] rest IH]; intros b Hall Hs; [done|].
  inversion Hall as [|? ? Hf Hrest]; subst. simpl in Hf. subst f.
  simpl. apply IH; [done|]. by apply open_failure.
Qed.

Lemma run_failures_invariant calls : forall b,
  all_expected_failures calls ->
  state b = CLOSED ->
  state (run true b calls) = OPEN \/
  (state (run true b calls) = CLOSED /\
   failure_count (run true b calls) = failure_count b + Z.of_nat (length calls) /\
   (calls <> [] -> failure_count (run true b calls) < failure_threshold b)).
Proof.
  induction calls as [|[[t1 f] t2] rest IH]; intros b Hall Hs.
  - right. simpl. split; [done|]. split; [lia|done].
  - inversion Hall as [|? ? Hf Hrest]; subst. simpl in Hf. subst f.
    change (run true b ((t1, RaisesExpected, t2) :: rest))
      with (run true (after (call true b t1 RaisesExpected t2)) rest).
    destruct (closed_failure b t1 t2 Hs) as (Hfc & _ & Hst).
    destruct (call_keeps_config true b t1 RaisesExpected t2) as (Hth & _ & _).
    set (b' := after (call true b t1 RaisesExpected t2)) in *.
    case_bool_decide as Hge.
    + left. by apply run_failures_open.
    + destruct (IH b' Hrest Hst) as [Hopen | (Hc & Hcount & Hlt)]; [by left|].
      right. split; [done|]. split.
      * rewrite Hcount, Hfc. simpl length. lia.
      * intros _. rewrite <- Hth. destruct rest as [|c rest'].
        -- simpl. rewrite Hfc. lia.
        -- apply Hlt. done.
Qed.

(** C4.  With gating enabled: (a) from CLOSED, a non-empty run of at least
    [failure_threshold] consecutive expected failures ends in OPEN; (b) while
    OPEN and less than [timeout] seconds after the last failure, a call raises
    [CircuitBreakerOpenError], leaves the breaker as it is and does not invoke
    the wrapped function; (c) once [timeout] seconds have elapsed, the call is
    admitted with the breaker in HALF_OPEN and the success counter at zero;
    (d) two successful calls from HALF_OPEN end in CLOSED with the failure
    counter at zero; (e) an expected failure in HALF_OPEN ends in OPEN with
    the time of the last failure set to the clock reading of that failure. *)
Theorem breaker_state_machine :
  (forall b calls,
     state b = CLOSED -> 0 <= failure_count b ->
     all_expected_failures calls -> calls <> [] ->
     failure_threshold b <= Z.of_nat (length calls) ->
     state (run true b calls) = OPEN) /\
  (forall b t0 t f t',
     state b = OPEN -> last_failure_time b = Some t0 ->
     t - t0 < timeout b * 1000000 ->
     call true b t f t' =
       {| after := b; invoked := false; outcome := CircuitBreakerOpenError |}) /\
  (forall b t0 t f t',
     state b = OPEN -> last_failure_time b = Some t0 ->
     timeout b * 1000000 <= t - t0 ->
     admit_call b t = Some (set_success_count 0 (set_state HALF_OPEN b)) /\
     invoked (call true b t f t') = true) /\
  (forall b t1 t1' t2 t2',
     state b = HALF_OPEN -> 0 <= success_count b ->
     half_open_success_threshold b = 2 ->
     let b' := run true b [(t1, Returns, t1'); (t2, Returns, t2')] in
     state b' = CLOSED /\ failure_count b' = 0) /\
  (forall b t t',
     state b = HALF_OPEN ->
     let b' := after (call true b t RaisesExpected t') in
     state b' = OPEN /\ last_failure_time b' = Some t').
Proof.
  repeat split.
  - intros b calls Hs Hfc Hall Hne Hlen.
    destruct (run_failures_invariant calls b Hall Hs)
      as [Hopen | (_ & Hcount & Hlt)]; [done|].
    specialize (Hlt Hne). lia.
  - intros b t0 t f t' Hs Hl Hlt.
    unfold call, admit_call, _should_attempt_reset. simpl.
    rewrite Hs, Hl. rewrite bool_decide_eq_false_2 by lia. done.
  - unfold admit_call, _should_attempt_reset.
    rewrite H, H0. by rewrite bool_decide_eq_true_2 by lia.
  - unfold call, admit_call, _should_attempt_reset. simpl.
    rewrite H, H0. rewrite bool_decide_eq_true_2 by lia.
    by destruct f.
  - destruct b as [th tmo fc lft st sc hst]; simpl in *; subst.
    unfold call, admit_call, complete_call, _on_success; simpl.
    case_bool_decide; simpl; [done|].
    rewrite bool_decide_eq_true_2 by lia. done.
  - destruct b as [th tmo fc lft st sc hst]; simpl in *; subst.
    unfold call, admit_call, complete_call, _on_success; simpl.
    case_bool_decide; simpl; [done|].
    rewrite bool_decide_eq_true_2 by lia. done.
  - destruct b as [th tmo fc lft st sc hst]; simpl in *; subst. done.
  - destruct b as [th tmo fc lft st sc hst]; simpl in *; subst. done.
Qed.

Definition five_failures : list (Z * behaviour * Z) :=
  [(0, RaisesExpected, 1); (2, RaisesExpected, 3); (4, RaisesExpected, 5);
   (6, RaisesExpected, 7); (8, RaisesExpected, 9)].

(** The default breaker (threshold 5, timeout 60 s) after five failures, the
    last one at clock reading 9. *)
Definition tripped : breaker := run true (init 5 60) five_failures.

(** The tripped breaker once a call has been admitted as a probe. *)
Definition probing : breaker := set_success_count 0 (set_state HALF_OPEN tripped).

Lemma breaker_state_machine_witness :
  state tripped = OPEN /\
  call true tripped 1000 Returns 1001 =
    {| after := tripped; invoked := false; outcome := CircuitBreakerOpenError |} /\
  (admit_call tripped 60000009 = Some probing /\
   invoked (call true tripped 60000009 Returns 60000010) = true) /\
  (let b' := run true probing
               [(60000009, Returns, 60000010); (60000011, Returns, 60000012)] in
   state b' = CLOSED /\ failure_count b' = 0) /\
  (let b' := after (call true probing 60000009 RaisesExpected 60000010) in
   state b' = OPEN /\ last_failure_time b' = Some 60000010).
Proof.
  destruct breaker_state_machine as (Ha & Hb & Hc & Hd & He).
  split.
  { apply (Ha (init 5 60) five_failures); simpl; try lia; try done.
    repeat constructor. }
  split.
  { apply (Hb tripped 9 1000 Returns 1001); [reflexivity|reflexivity|simpl; lia]. }
  split.
  { apply (Hc tripped 9 60000009 Returns 60000010);
      [reflexivity|reflexivity|simpl; lia]. }
  split.
  { apply (Hd probing 60000009 60000010 60000011 60000012);
      [reflexivity|simpl; lia|reflexivity]. }
  { apply (He probing 60000009 60000010). reflexivity. }
Defined.

(** Scenario S4 of the specification, run on the model. *)
Example breaker_trip_and_recover :
  let b1 := tripped in
  let r := call true b1 30000000 Returns 30000001 in
  let b2 := after (call true b1 60000009 Returns 60000010) in
  let b3 := after (call true b2 60000011 Returns 60000012) in
  state b1 = OPEN /\ outcome r = CircuitBreakerOpenError /\
  state b2 = HALF_OPEN /\ state b3 = CLOSED /\ failure_count b3 = 0.
Proof. vm_compute. repeat split. Qed.

End CircuitBreakerSpec.

Module ConsumerSpec.
Import Py Consumer.

Section WithRuntime.
Context (sha256 : string -> string)
        (py_repr : json -> string)
        (py_float : json -> res json)
        (build_search_content : dict -> string)
        (utcnow : string)
        (cfg : config).

Abbreviation process_message :=
  (process_message sha256 py_repr py_float build_search_content utcnow cfg).
Abbreviation handle :=
  (handle sha256 py_repr py_float build_search_content utcnow cfg).
Abbreviation message_id_of := (_generate_message_id sha256 py_repr).


(** The transaction of a message once enrichment and versioning have written
    into it. *)
Definition versioned (d tx : dict) (o : outcomes) : dict :=
  _add_version utcnow cfg o
    (_enrich_transaction build_search_content utcnow tx)
    (lookup d "version" JNull).

(** The text that [_generate_message_id] digests, for a message whose
    transaction is a dictionary. *)
Definition content_of (d tx : dict) : string :=
  py_str py_repr (lookup tx "id" (JStr "")) +:+ ":"
  +:+ py_str py_repr (lookup d "event_type" (JStr "")) +:+ ":"
  +:+ py_str py_repr (lookup d "timestamp" (JStr "")).

(** The identifier is the digest of that text when the text can be encoded,
    and [encode] raises otherwise (on a lone surrogate). *)
Lemma message_id_of_dict d tx :
  dict_get d "transaction" = Some (JObj tx) ->
  message_id_of (JObj d) =
    if utf8_valid (list_ascii_of_string (content_of d tx))
    then Ok (sha256 (content_of d tx)) else Raise UnicodeEncodeError.
Proof.
  intros Htx. unfold _generate_message_id, content_of, lookup, str_encode.
  simpl. rewrite Htx. simpl.
  by destruct (utf8_valid _).
Qed.




Abbreviation send_failed_to_dlq := (send_failed_to_dlq cfg).

Definition dlq_record (m : message) : effect :=
  SendToDlq (kafka_transactions_topic cfg +:+ ".dlq") (value m) "Unknown error".

Lemma log_log st l1 l2 : log (log st l1) l2 = log st (l1 ++ l2).
Proof. unfold log. simpl. by rewrite app_assoc. Qed.

Lemma log_nil st : log st [] = st.
Proof. destruct st. unfold log. simpl. by rewrite app_nil_r. Qed.

(** The loop over [failed]: every failed message is sent to the dead-letter
    topic, unless the Elasticsearch breaker is open, in which case none is. *)
Lemma send_failed_to_dlq_effects st :
  send_failed_to_dlq st =
    match CircuitBreaker.state (breaker st) with
    | CircuitBreaker.OPEN => st
    | _ => log st (map dlq_record (failed st))
    end.
Proof.
  unfold Consumer.send_failed_to_dlq.
  assert (Hgen : forall l st0,
    fold_left (fun st1 m =>
      match CircuitBreaker.state (breaker st1) with
      | CircuitBreaker.OPEN => st1
      | _ => log st1 [SendToDlq (kafka_transactions_topic cfg +:+ ".dlq")
                        (value m) "Unknown error"]
      end) l st0 =
    match CircuitBreaker.state (breaker st0) with
    | CircuitBreaker.OPEN => st0
    | _ => log st0 (map dlq_record l)
    end).
  { induction l as [|m l IH]; intros st0; simpl.
    - destruct (CircuitBreaker.state (breaker st0)); by rewrite ?log_nil.
    - rewrite IH. destruct (CircuitBreaker.state (breaker st0)) eqn:Hs;
        simpl; rewrite ?Hs; try rewrite log_log; reflexivity. }
  apply Hgen.
Qed.


(** What the code does with a [transaction.created] or [transaction.updated]
    message that reaches the fan-out: whatever the index and the audit
    database answer, it is marked processed and acknowledged. *)
Lemma created_or_updated_always_acked st m o d tx i es e :
  value m = JObj d ->
  dict_get d "transaction" = Some (JObj tx) -> tx <> [] ->
  dict_get d "event_type" = Some (JStr e) ->
  e = "transaction.created" \/ e = "transaction.updated" ->
  message_id_of (JObj d) = Ok i ->
  _is_duplicate cfg st i = false ->
  _normalize_transaction py_repr py_float utcnow (versioned d tx o) = Ok es ->
  let st' := process_message st (m, o) in
  successful st' = successful st ++ [with_transaction m (versioned d tx o)] /\
  failed st' = failed st /\
  i ∈ processed_messages st'.
Proof.
  intros Hv Htx Hne He Hcu Hid Hdup Hnorm.
  unfold Consumer.process_message, Consumer.handle.
  rewrite Hv, Hid. simpl. rewrite Htx, He.
  destruct tx as [|kv tx']; [done|]. simpl.
  rewrite Hdup. fold (lookup d "version" JNull).
  unfold versioned in Hnorm. rewrite Hnorm.
  destruct Hcu as [-> | ->]; simpl;
  destruct (index_transaction cfg (breaker st) o) as [success b];
    destruct success; simpl;
    unfold _write_to_audit_db; destruct (enable_audit_db cfg); simpl;
    (split; [reflexivity|split; [reflexivity|set_solver]]).
Qed.

End WithRuntime.

(** *** The consumer run on concrete batches *)

Definition demo_cfg : config :=
  {| enable_audit_db := true; search_enabled := true; cache_enabled := true;
     circuit_breaker_enabled := true; kafka_enable_auto_commit := false;
     kafka_transactions_topic := "transactions" |}.

Definition demo_transaction : dict :=
  [("id", JStr "123e4567-e89b-12d3-a456-426614174000");
   ("user_id", JStr "u1"); ("transaction_type", JStr "card");
   ("product", JStr "Card"); ("status", JStr "completed");
   ("currency", JStr "USD"); ("amount", JInt 150)].

Definition demo_message (event_type : string) (off : Z) : message :=
  {| value := JObj [("event_type", JStr event_type);
                    ("transaction", JObj demo_transaction);
                    ("timestamp", JStr "2024-01-15T10:30:00")];
     partition := 0; offset := off |}.

(** A consumer at rest around a given Elasticsearch breaker. *)
Definition idle (b : CircuitBreaker.breaker) : state :=
  {| processed_messages := ∅; cache_keys := ∅; breaker := b;
     successful := []; failed := []; effects := [] |}.

(** The batch function with its runtime fixed: the digest is the identity,
    floats and texts are left as they are. *)
Definition run_batch (st : state) (batch : list (message * outcomes)) : state :=
  _process_batch (fun s => s) (fun _ => "") (fun x => Ok x) (fun _ => "")
    "2024-01-15T10:30:01" demo_cfg st batch.

Definition is_dlq (e : effect) : bool :=
  match e with SendToDlq _ _ _ => true | _ => false end.


Definition is_failed_audit (e : effect) : bool :=
  match e with AuditWrite _ _ false => true | _ => false end.

Definition is_failed_index (e : effect) : bool :=
  match e with IndexTransaction _ _ false => true | _ => false end.


(** The index is refused by the open breaker and the audit write raises. *)
Definition breaker_open_audit_down : outcomes :=
  {| stored_versions := Raise ValueError;
     index_behaviour := CircuitBreaker.RaisesExpected;
     t_check := 1000; t_fail := 1001;
     audit_raises := true; delete_raises := false |}.

(** The breaker is closed, the index call itself raises, the audit write
    succeeds. *)
Definition index_error_audit_up : outcomes :=
  {| stored_versions := Raise ValueError;
     index_behaviour := CircuitBreaker.RaisesExpected;
     t_check := 1000; t_fail := 1001;
     audit_raises := false; delete_raises := false |}.

(** C1 (the code departs from the claim).  A [transaction.created] message
    whose index call is refused by the open breaker while the audit write
    fails is marked processed and committed, and nothing goes to the
    dead-letter topic; so is one whose index call fails on a closed breaker. *)
Theorem index_failure_acked_whatever_the_audit :
  (let st := run_batch (idle CircuitBreakerSpec.tripped)
               [(demo_message "transaction.created" 7, breaker_open_audit_down)] in
   CircuitBreaker.outcome
     (CircuitBreaker.call true CircuitBreakerSpec.tripped 1000
        CircuitBreaker.RaisesExpected 1001)
     = CircuitBreaker.CircuitBreakerOpenError /\
   existsb is_failed_index (effects st) = true /\
   existsb is_failed_audit (effects st) = true /\
   map offset (successful st) = [7] /\ failed st = [] /\
   size (processed_messages st) = 1%nat /\
   last (effects st) = Some (Commit [(0, 8)]) /\
   existsb is_dlq (effects st) = false) /\
  (let st := run_batch (idle (CircuitBreaker.init 5 60))
               [(demo_message "transaction.updated" 8, index_error_audit_up)] in
   CircuitBreaker.state (breaker st) = CircuitBreaker.CLOSED /\
   existsb is_failed_index (effects st) = true /\
   map offset (successful st) = [8] /\ failed st = [] /\
   size (processed_messages st) = 1%nat /\
   last (effects st) = Some (Commit [(0, 9)]) /\
   existsb is_dlq (effects st) = false).
Proof. vm_compute. repeat split. Qed.

Definition quiet : outcomes :=
  {| stored_versions := Ok (1, 1);
     index_behaviour := CircuitBreaker.Returns;
     t_check := 1000; t_fail := 1001;
     audit_raises := false; delete_raises := false |}.





End ConsumerSpec.

Module RoutesSpec.
Import Py Schemas Repository Service Routes.

Lemma UUID_raises_ValueError s e : UUID s = Raise e -> e = ValueError.
Proof.
  unfold UUID. repeat case_match; congruence.
Qed.

Lemma nonempty_Some u : u <> EmptyString -> nonempty (Some u) = Some u.
Proof. destruct u; done. Qed.

(** C7 (the code departs from the claim).  On [GET /transactions/{id}]: a
    path parameter that [UUID] rejects yields 400; a valid one for which the
    service finds nothing yields 404; when the service finds a record whose
    [user_id] differs from the non-empty user id of the caller, the answer
    is 403 and not the record.  But a caller whose token was issued for the
    empty user id, authenticated as far as [get_current_user_id_optional]
    goes, is given every record that the service finds, whoever owns it:
    the guard [if current_user_id and ...] reads the empty identity as no
    identity. *)
Theorem get_transaction_endpoint_serves_the_empty_user (is_sqlite : bool)
    (db : list Transaction) (cache : CacheService) (transaction_id : string) :
  (forall current e,
     UUID transaction_id = Raise e ->
     get_transaction_endpoint is_sqlite db cache transaction_id current
       = Ok (HTTPException 400, cache)) /\
  (forall current u cache',
     UUID transaction_id = Ok u ->
     Service.get_transaction is_sqlite db cache (uuid_str u) = Ok (None, cache') ->
     get_transaction_endpoint is_sqlite db cache transaction_id current
       = Ok (HTTPException 404, cache')) /\
  (forall caller u t cache',
     UUID transaction_id = Ok u ->
     Service.get_transaction is_sqlite db cache (uuid_str u) = Ok (Some t, cache') ->
     caller <> EmptyString ->
     r_user_id t <> caller ->
     get_transaction_endpoint is_sqlite db cache transaction_id (Some caller)
       = Ok (HTTPException 403, cache')) /\
  (forall u t cache',
     UUID transaction_id = Ok u ->
     Service.get_transaction is_sqlite db cache (uuid_str u) = Ok (Some t, cache') ->
     let caller :=
       get_current_user_id_optional (Some (Some (create_token ""))) in
     caller = Some "" /\
     get_transaction_endpoint is_sqlite db cache transaction_id caller
       = Ok (Body t, cache')).
Proof.
  split; [|split; [|split]].
  - intros current e He. unfold get_transaction_endpoint. rewrite He.
    by rewrite (UUID_raises_ValueError _ _ He).
  - intros current u cache' Hu Hs. unfold get_transaction_endpoint.
    rewrite Hu. simpl. rewrite Hs. reflexivity.
  - intros caller u t cache' Hu Hs Hne Hdiff. unfold get_transaction_endpoint.
    rewrite Hu. simpl. rewrite Hs. simpl.
    destruct caller as [|c caller']; [done|].
    destruct (String.eqb_spec (r_user_id t) (String c caller'));
      [done|reflexivity].
  - intros u t cache' Hu Hs. split; [reflexivity|].
    unfold get_transaction_endpoint. rewrite Hu. simpl. rewrite Hs.
    reflexivity.
Qed.

Definition noon : datetime :=
  {| year := 2024; month := 1; day := 15; hour := 12; minute := 0;
     second := 0; microsecond := 0; tzinfo := Some 0 |}.

(** A card payment of user [u2]. *)
Definition row_of_u2 : Transaction :=
  {| id := 24249434048109030647017182301789831168%N;
     user_id := "u2"; transaction_type := "card"; product := "Card";
     status := "completed"; currency := "USD"; amount := 15000;
     created_at := noon; updated_at := None;
     custom_metadata := Some (JObj [("card_last_four", JStr "5678")]);
     search_content := Some "Card payment 150.0 USD completed";
     created_at_text := "2024-01-15 12:00:00.000000" |}.

Definition no_cache : CacheService := {| enabled := true; entries := ∅ |}.

Definition id_of_row : string := "123e4567-e89b-12d3-a456-426614174000".

(** The record of [u2] is refused to [u1] and handed to the caller whose
    token names the empty user. *)
Lemma get_transaction_endpoint_serves_the_empty_user_witness :
  get_transaction_endpoint false [row_of_u2] no_cache "invalid-id" (Some "u1")
    = Ok (HTTPException 400, no_cache) /\
  get_transaction_endpoint false [] no_cache id_of_row (Some "u1")
    = Ok (HTTPException 404, no_cache) /\
  fst <$> (match get_transaction_endpoint false [row_of_u2] no_cache id_of_row
                   (Some "u1") with Ok r => Some r | Raise _ => None end)
    = Some (HTTPException 403) /\
  r_user_id (map_custom_metadata row_of_u2) = "u2" /\
  fst <$> (match get_transaction_endpoint false [row_of_u2] no_cache id_of_row
                   (get_current_user_id_optional
                      (Some (Some (create_token ""))))
           with Ok r => Some r | Raise _ => None end)
    = Some (Body (map_custom_metadata row_of_u2)).
Proof.
  split; [|split; [|split; [|split]]].
  - apply (proj1 (get_transaction_endpoint_serves_the_empty_user false
                    [row_of_u2] no_cache "invalid-id") (Some "u1") ValueError).
    reflexivity.
  - apply (proj1 (proj2 (get_transaction_endpoint_serves_the_empty_user false
                           [] no_cache id_of_row)) (Some "u1")
             24249434048109030647017182301789831168%N no_cache);
      reflexivity.
  - destruct (get_transaction_endpoint_serves_the_empty_user false
                [row_of_u2] no_cache id_of_row) as (_ & _ & H403 & _).
    erewrite (H403 "u1" 24249434048109030647017182301789831168%N
                (map_custom_metadata row_of_u2));
      [reflexivity | reflexivity | vm_compute; reflexivity | discriminate
      | discriminate].
  - reflexivity.
  - destruct (get_transaction_endpoint_serves_the_empty_user false
                [row_of_u2] no_cache id_of_row) as (_ & _ & _ & Hany).
    destruct (Hany 24249434048109030647017182301789831168%N
                (map_custom_metadata row_of_u2)
                (cache_set no_cache ("transaction:" +:+ id_of_row)
                   (CachedTransaction (map_custom_metadata row_of_u2))))
      as [_ ->]; [reflexivity | vm_compute; reflexivity | reflexivity].
Defined.

End RoutesSpec.

Module RepositorySpec.
Import Py Schemas Repository.

Lemma matches_filter_ q p t :
  matches (filter_ q p) t = matches q t && holds (p t).
Proof.
  unfold matches, filter_. simpl. rewrite forallb_app. simpl.
  by rewrite andb_true_r.
Qed.

Lemma holds_sql_and a b : holds (sql_and a b) = holds a && holds b.
Proof. by destruct a as [[]|], b as [[]|]. Qed.

(** The same filter without its metadata pairs. *)
Definition without_metadata (f : TransactionFilter) : TransactionFilter :=
  {| f_user_id := f_user_id f; f_transaction_type := f_transaction_type f;
     f_product := f_product f; f_status := f_status f;
     f_currency := f_currency f; start_date := start_date f;
     end_date := end_date f; min_amount := min_amount f;
     max_amount := max_amount f; search_query := search_query f;
     metadata_filters := None |}.

(** *** What the specification asks of a filtered listing *)

(** The textual value of what a record stores under a metadata key: a
    string is its own text, a number, a boolean or a container is its JSON
    text, and the JSON null is no value. *)
Definition stored_text (v : json) : option string :=
  match v with
  | JNull => None
  | JStr s => Some s
  | v => Some (json_text v)
  end.

(** The key exists in the metadata mapping of the row and the text of the
    value stored under it is [value]. *)
Definition has_metadata (t : Transaction) (key value : string) : Prop :=
  exists d v, custom_metadata t = Some (JObj d) /\ dict_get d key = Some v
              /\ stored_text v = Some value.

Definition metadata_is (t : Transaction) (key value : string) : bool :=
  match custom_metadata t with
  | Some (JObj d) =>
      match dict_get d key with
      | Some v => match stored_text v with
                  | Some s => String.eqb s value
                  | None => false
                  end
      | None => false
      end
  | _ => false
  end.

Lemma metadata_is_spec t key value :
  metadata_is t key value = true <-> has_metadata t key value.
Proof.
  unfold metadata_is, has_metadata. split.
  - destruct (custom_metadata t) as [[| | | | | |d]|]; try discriminate.
    destruct (dict_get d key) as [v|] eqn:Hv; [|discriminate].
    destruct (stored_text v) as [s|] eqn:Hs; [|discriminate].
    intros ->%String.eqb_eq. exists d, v. auto.
  - intros (d & v & Hd & Hv & Hs). rewrite Hd, Hv, Hs.
    apply String.eqb_refl.
Qed.

(** A filter that is not set lets every row pass. *)
Definition when_set {A} (o : option A) (p : A -> bool) : bool :=
  match o with
  | Some a => p a
  | None => true
  end.

Lemma when_set_ext {A} (o : option A) (p p' : A -> bool) :
  (forall a, p a = p' a) -> when_set o p = when_set o p'.
Proof. intros H. destruct o; simpl; auto. Qed.

Lemma forallb_pointwise {A} (p p' : A -> bool) (l : list A) :
  (forall a, p a = p' a) -> forallb p l = forallb p' l.
Proof.
  intros H. induction l as [|x l IH]; simpl; [done|]. by rewrite H, IH.
Qed.

Section WithEngine.
Context (ilike : string -> string -> bool) (lower : string -> string).

(** The filter predicates: exact match on type, product, status and
    currency; the closed range of instants on [created_at]; the inclusive
    bounds on the amount; the case-insensitive pattern on [search_content];
    and, for every metadata pair, the key present with the given text. *)
Definition passes (f : TransactionFilter) (t : Transaction) : bool :=
  when_set (f_transaction_type f)
    (fun ty => String.eqb (transaction_type t) (type_value ty))
  && when_set (f_product f)
       (fun pr => String.eqb (product t) (product_value pr))
  && when_set (f_status f)
       (fun st => String.eqb (status t) (status_value st))
  && when_set (nonempty (f_currency f))
       (fun c => String.eqb (currency t) c)
  && when_set (start_date f)
       (fun d => instant d <=? instant (created_at t))
  && when_set (end_date f)
       (fun d => instant (created_at t) <=? instant d)
  && when_set (min_amount f) (fun a => a <=? amount t)
  && when_set (max_amount f) (fun a => amount t <=? a)
  && when_set (nonempty (search_query f))
       (fun sq => match search_content t with
                  | Some c => ilike c ("%" +:+ lower sq +:+ "%")
                  | None => false
                  end)
  && when_set (metadata_filters f)
       (forallb (fun kv => metadata_is t (fst kv) (snd kv))).

(** The rows of a user under the filters. *)
Definition wanted (user : string) (filters : option TransactionFilter)
    (t : Transaction) : bool :=
  String.eqb (user_id t) user
  && match filters with Some f => passes f t | None => true end.

Lemma wanted_spec user filters t :
  wanted user filters t = true <->
  user_id t = user
  /\ match filters with Some f => passes f t = true | None => True end.
Proof.
  unfold wanted. rewrite andb_true_iff, String.eqb_eq.
  destruct filters; intuition.
Qed.

(** *** What [_apply_filters] asks of a row on each engine *)

Section Dialect.
Context (is_sqlite : bool).

(** The [WHERE] conjunct that [_apply_filters] adds for one pair of
    [metadata_filters]. *)
Definition metadata_clause (kv : string * string) (t : Transaction) : sql_bool :=
  let json_expr := json_extract_text is_sqlite (custom_metadata t) (fst kv) in
  sql_and (isnot_null json_expr) (text_eq json_expr (snd kv)).

Lemma matches_metadata_fold kvs : forall q t,
  matches (fold_left (fun q kv => filter_ q (metadata_clause kv)) kvs q) t
  = matches q t && forallb (fun kv => holds (metadata_clause kv t)) kvs.
Proof.
  induction kvs as [|kv kvs IH]; intros q t; simpl.
  - by rewrite andb_true_r.
  - rewrite IH, matches_filter_. by rewrite andb_assoc.
Qed.

Definition applied (f : TransactionFilter) (t : Transaction) : bool :=
  when_set (f_transaction_type f)
    (fun ty => String.eqb (transaction_type t) (type_value ty))
  && when_set (f_product f)
       (fun pr => String.eqb (product t) (product_value pr))
  && when_set (f_status f)
       (fun st => String.eqb (status t) (status_value st))
  && when_set (nonempty (f_currency f))
       (fun c => String.eqb (currency t) c)
  && when_set (start_date f) (fun d => negb (created_at_lt is_sqlite t d))
  && when_set (end_date f) (fun d => negb (created_at_gt is_sqlite t d))
  && when_set (min_amount f) (fun a => a <=? amount t)
  && when_set (max_amount f) (fun a => amount t <=? a)
  && when_set (nonempty (search_query f))
       (fun sq => match search_content t with
                  | Some c => ilike c ("%" +:+ lower sq +:+ "%")
                  | None => false
                  end)
  && when_set (metadata_filters f)
       (forallb (fun kv => holds (metadata_clause kv t))).

Lemma matches_when_set {A} (o : option A) (p : A -> Transaction -> sql_bool)
    q t :
  matches (match o with Some a => filter_ q (p a) | None => q end) t
  = matches q t && when_set o (fun a => holds (p a t)).
Proof.
  destruct o; simpl; [apply matches_filter_|].
  by rewrite andb_true_r.
Qed.

Lemma matches_apply_filters q f t :
  matches (_apply_filters is_sqlite ilike lower q f) t
  = matches q t && applied f t.
Proof.
  unfold _apply_filters, applied. cbv zeta.
  assert (Hmeta : forall q0,
    matches (match metadata_filters f with
             | Some kvs =>
                 fold_left (fun q kv =>
                   filter_ q (fun t =>
                     let json_expr :=
                       json_extract_text is_sqlite (custom_metadata t)
                         (fst kv) in
                     sql_and (isnot_null json_expr)
                       (text_eq json_expr (snd kv)))) kvs q0
             | None => q0
             end) t
    = matches q0 t
      && when_set (metadata_filters f)
           (forallb (fun kv => holds (metadata_clause kv t)))).
  { intros q0. destruct (metadata_filters f) as [kvs|]; simpl.
    - apply (matches_metadata_fold kvs q0 t).
    - by rewrite andb_true_r. }
  rewrite Hmeta, !matches_when_set. rewrite !andb_assoc.
  assert (Hsome : forall b : bool, holds (Some b) = b) by (by intros []).
  repeat match goal with
         | |- _ && _ = _ && _ => apply (f_equal2 andb)
         end; try reflexivity;
    (apply when_set_ext; intros a; rewrite ?Hsome; try reflexivity;
     by destruct (search_content t) as [c|]; [rewrite Hsome|]).
Qed.

Lemma _apply_filters_metadata q f kvs :
  metadata_filters f = Some kvs ->
  _apply_filters is_sqlite ilike lower q f
  = fold_left (fun q kv => filter_ q (metadata_clause kv)) kvs
      (_apply_filters is_sqlite ilike lower q (without_metadata f)).
Proof.
  intros Hm. unfold _apply_filters. rewrite Hm. reflexivity.
Qed.

(** The conjuncts never widen a query. *)
Lemma matches_apply_filters_base q f t :
  matches (_apply_filters is_sqlite ilike lower q f) t = true ->
  matches q t = true.
Proof. rewrite matches_apply_filters. by intros [? _]%andb_true_iff. Qed.

(** The query of a user under the given filters. *)
Definition base_query (user : string) (filters : option TransactionFilter)
  : query :=
  match filters with
  | Some f => _apply_filters is_sqlite ilike lower (by_user user) f
  | None => by_user user
  end.

Lemma matches_by_user user t :
  matches (by_user user) t = String.eqb (user_id t) user.
Proof.
  unfold by_user. rewrite matches_filter_. simpl.
  by destruct (String.eqb _ _).
Qed.

Lemma matches_base_user user filters t :
  matches (base_query user filters) t = true -> user_id t = user.
Proof.
  unfold base_query. intros H. apply String.eqb_eq.
  rewrite <- matches_by_user.
  destruct filters; [by eapply matches_apply_filters_base|done].
Qed.

(** A row without the key, or with the JSON null under it, fails the
    conjunct of the pair on both engines. *)
Lemma metadata_clause_absent kv t :
  (forall d, custom_metadata t = Some (JObj d) ->
             dict_get d (fst kv) = None \/ dict_get d (fst kv) = Some JNull) ->
  holds (metadata_clause kv t) = false.
Proof.
  intros Hmissing. unfold metadata_clause, json_extract_text.
  destruct (custom_metadata t) as [[| | | | | |d]|]; try reflexivity.
  by destruct (Hmissing d eq_refl) as [-> | ->].
Qed.

End Dialect.

(** On PostgreSQL the conjunct of a pair holds exactly when the row has the
    key with that text. *)
Lemma metadata_clause_postgres kv t :
  holds (metadata_clause false kv t) = metadata_is t (fst kv) (snd kv).
Proof.
  unfold metadata_clause, metadata_is, json_extract_text.
  destruct (custom_metadata t) as [[| | | | | |d]|]; try reflexivity.
  destruct (dict_get d (fst kv)) as [v|]; [|reflexivity].
  destruct v; cbn [holds sql_and isnot_null text_eq stored_text];
    try reflexivity;
    match goal with
    | |- context [String.eqb ?a ?b] => by destruct (String.eqb a b)
    end.
Qed.

Lemma applied_postgres f t : applied false f t = passes f t.
Proof.
  unfold applied, passes, created_at_lt, created_at_gt.
  repeat match goal with
         | |- _ && _ = _ && _ => apply (f_equal2 andb)
         end; try reflexivity; apply when_set_ext; intros a.
  - by rewrite Z.leb_antisym.
  - by rewrite Z.leb_antisym.
  - apply forallb_pointwise. intros kv. apply metadata_clause_postgres.
Qed.

Lemma matches_base user filters t :
  matches (base_query false user filters) t = wanted user filters t.
Proof.
  unfold base_query, wanted.
  destruct filters as [f|];
    [rewrite matches_apply_filters, applied_postgres|];
    rewrite matches_by_user; by rewrite ?andb_true_r.
Qed.

(** A JSON number or boolean. *)
Definition is_number (v : json) : bool :=
  match v with
  | JInt _ | JFloat _ | JBool _ => true
  | _ => false
  end.

(** On SQLite the conjunct of a pair fails on a row that stores a number or
    a boolean under the key, whatever the text asked for. *)
Lemma metadata_clause_sqlite_number kv t d v :
  custom_metadata t = Some (JObj d) -> dict_get d (fst kv) = Some v ->
  is_number v = true ->
  holds (metadata_clause true kv t) = false.
Proof.
  intros Hd Hv Hn. unfold metadata_clause, json_extract_text.
  rewrite Hd, Hv. by destruct v.
Qed.

(** C6 (the code departs from the claim on SQLite).  On PostgreSQL a row
    passes the filters of a relational query that carries metadata pairs
    exactly when it passes the other filters and, for every pair, the key
    exists in the metadata mapping of the row and the text of the value
    stored under it equals the given value.  On both engines a row whose
    metadata lacks one of the keys, or stores the JSON null under it, never
    passes.  But on SQLite a row that stores a JSON number or boolean under
    one of the keys never passes either, not even when the text asked for
    is the text of that value: [->>] yields a number there, which equals no
    text. *)
Theorem metadata_filter_requires_key_and_value q f kvs t :
  metadata_filters f = Some kvs ->
  (matches (_apply_filters false ilike lower q f) t = true <->
     matches (_apply_filters false ilike lower q (without_metadata f)) t = true
     /\ forall key value, In (key, value) kvs -> has_metadata t key value) /\
  (forall is_sqlite key value,
     In (key, value) kvs ->
     (is_sqlite = true -> plain_label key = true) ->
     (forall d, custom_metadata t = Some (JObj d) ->
                dict_get d key = None \/ dict_get d key = Some JNull) ->
     matches (_apply_filters is_sqlite ilike lower q f) t = false) /\
  (forall key value d v,
     In (key, value) kvs ->
     plain_label key = true ->
     custom_metadata t = Some (JObj d) -> dict_get d key = Some v ->
     is_number v = true ->
     has_metadata t key (json_text v)
     /\ matches (_apply_filters true ilike lower q f) t = false).
Proof.
  intros Hm.
  assert (Hfalse : forall is_sqlite key value,
    In (key, value) kvs ->
    holds (metadata_clause is_sqlite (key, value) t) = false ->
    matches (_apply_filters is_sqlite ilike lower q f) t = false).
  { intros is_sqlite key value Hin Hc.
    rewrite (_apply_filters_metadata is_sqlite q f kvs Hm),
      matches_metadata_fold.
    apply andb_false_iff. right.
    apply not_true_iff_false. rewrite forallb_forall. intros Hall.
    specialize (Hall _ Hin). congruence. }
  split; [|split].
  - rewrite (_apply_filters_metadata false q f kvs Hm), matches_metadata_fold.
    rewrite andb_true_iff, forallb_forall. split.
    + intros [H1 H2]. split; [done|]. intros key value Hin.
      apply metadata_is_spec.
      rewrite <- (metadata_clause_postgres (key, value)). by apply H2.
    + intros [H1 H2]. split; [done|]. intros [key value] Hin.
      rewrite metadata_clause_postgres. apply metadata_is_spec. by apply H2.
  - intros is_sqlite key value Hin _ Hmissing.
    apply (Hfalse is_sqlite key value Hin).
    by apply metadata_clause_absent.
  - intros key value d v Hin _ Hd Hv Hn. split.
    + exists d, v. split; [done|]. split; [done|]. by destruct v.
    + apply (Hfalse true key value Hin).
      by apply (metadata_clause_sqlite_number (key, value) t d v).
Qed.

End WithEngine.

Definition card_filter : TransactionFilter :=
  {| f_user_id := Some "u2"; f_transaction_type := None; f_product := None;
     f_status := None; f_currency := None; start_date := None;
     end_date := None; min_amount := None; max_amount := None;
     search_query := None;
     metadata_filters := Some [("card_last_four", "5678")] |}.

(** A row whose metadata stores the JSON null under the key. *)
Definition row_with_null : Transaction :=
  {| id := 1%N; user_id := "u2"; transaction_type := "card"; product := "Card";
     status := "completed"; currency := "USD"; amount := 100;
     created_at := RoutesSpec.noon; updated_at := None;
     custom_metadata := Some (JObj [("card_last_four", JNull)]);
     search_content := None;
     created_at_text := "2024-01-15 12:00:00.000000" |}.

(** A row whose metadata stores the last four digits as a number. *)
Definition row_with_number : Transaction :=
  {| id := 2%N; user_id := "u2"; transaction_type := "card"; product := "Card";
     status := "completed"; currency := "USD"; amount := 100;
     created_at := RoutesSpec.noon; updated_at := None;
     custom_metadata := Some (JObj [("card_last_four", JInt 5678)]);
     search_content := None;
     created_at_text := "2024-01-15 12:00:00.000000" |}.

(** The filter [card_last_four=5678] finds the row that stores the number
    5678 on PostgreSQL and misses it on SQLite. *)
Lemma metadata_filter_requires_key_and_value_witness :
  (matches (_apply_filters false (fun _ _ => true) (fun s => s) (by_user "u2")
              card_filter) RoutesSpec.row_of_u2 = true <->
   matches (_apply_filters false (fun _ _ => true) (fun s => s) (by_user "u2")
              (without_metadata card_filter)) RoutesSpec.row_of_u2 = true
   /\ forall key value, In (key, value) [("card_last_four", "5678")] ->
        has_metadata RoutesSpec.row_of_u2 key value) /\
  matches (_apply_filters true (fun _ _ => true) (fun s => s) (by_user "u2")
             card_filter) row_with_null = false /\
  (has_metadata row_with_number "card_last_four" "5678"
   /\ matches (_apply_filters true (fun _ _ => true) (fun s => s)
                 (by_user "u2") card_filter) row_with_number = false) /\
  matches (_apply_filters false (fun _ _ => true) (fun s => s) (by_user "u2")
             card_filter) row_with_number = true.
Proof.
  split; [|split; [|split]].
  - apply (metadata_filter_requires_key_and_value (fun _ _ => true)
             (fun s => s) (by_user "u2") card_filter
             [("card_last_four", "5678")] RoutesSpec.row_of_u2).
    reflexivity.
  - apply (proj1 (proj2 (metadata_filter_requires_key_and_value
             (fun _ _ => true) (fun s => s) (by_user "u2") card_filter
             [("card_last_four", "5678")] row_with_null eq_refl))
             true "card_last_four" "5678").
    + left. reflexivity.
    + reflexivity.
    + intros d Hd. injection Hd as <-. right. reflexivity.
  - apply (proj2 (proj2 (metadata_filter_requires_key_and_value
             (fun _ _ => true) (fun s => s) (by_user "u2") card_filter
             [("card_last_four", "5678")] row_with_number eq_refl))
             "card_last_four" "5678" [("card_last_four", JInt 5678)]
             (JInt 5678)).
    + left. reflexivity.
    + reflexivity.
    + reflexivity.
    + reflexivity.
    + reflexivity.
  - reflexivity.
Defined.

End RepositorySpec.

Module ServiceSpec.
Import Py Schemas Repository Service.

(** The two filters agree on everything that [filter_parts] reads. *)
Definition same_key_fields (f g : TransactionFilter) : Prop :=
  f_transaction_type f = f_transaction_type g /\ f_product f = f_product g
  /\ f_status f = f_status g /\ f_currency f = f_currency g
  /\ search_query f = search_query g.

(** [_build_cache_key] reads neither the dates, nor the amounts, nor the
    metadata pairs of the filter. *)
Lemma _build_cache_key_ignores user f g pagination :
  same_key_fields f g ->
  _build_cache_key user (Some f) pagination
  = _build_cache_key user (Some g) pagination.
Proof.
  intros (H1 & H2 & H3 & H4 & H5).
  unfold _build_cache_key, filter_parts. by rewrite H1, H2, H3, H4, H5.
Qed.

Definition small_row : Transaction :=
  {| id := 2%N; user_id := "u2"; transaction_type := "card"; product := "Card";
     status := "completed"; currency := "USD"; amount := 5000;
     created_at := RoutesSpec.noon; updated_at := None;
     custom_metadata := Some (JObj [("card_last_four", JStr "1234")]);
     search_content := Some "Card payment 50.0 USD completed";
     created_at_text := "2024-01-15 12:00:00.000000" |}.

Definition two_rows : list Transaction := [RoutesSpec.row_of_u2; small_row].

(** Payments of at least 100.00. *)
Definition large_only : TransactionFilter :=
  {| f_user_id := Some "u2"; f_transaction_type := None; f_product := None;
     f_status := None; f_currency := None; start_date := None;
     end_date := None; min_amount := Some 10000; max_amount := None;
     search_query := None; metadata_filters := None |}.

Definition any_payment : TransactionFilter :=
  {| f_user_id := Some "u2"; f_transaction_type := None; f_product := None;
     f_status := None; f_currency := None; start_date := None;
     end_date := None; min_amount := None; max_amount := None;
     search_query := None; metadata_filters := None |}.

Definition first_page : PaginationParams := {| page := 1; page_size := 20 |}.

(** The service over PostgreSQL with the search service switched off. *)
Definition serve (db : list Transaction) (cache : CacheService)
    (f : TransactionFilter) : res (PaginatedResponse * CacheService) :=
  get_transactions false (fun _ _ => true) (fun s => s) false
    (fun _ _ _ _ _ _ _ => ([], 0)) db cache "u2" (Some f) (Some first_page).

Definition recompute (db : list Transaction) (f : TransactionFilter)
  : res PaginatedResponse :=
  compute_page false (fun _ _ => true) (fun s => s) false
    (fun _ _ _ _ _ _ _ => ([], 0)) db "u2" (Some f) (Some first_page).

Definition total_of (r : res (PaginatedResponse * CacheService)) : option Z :=
  match r with Ok (p, _) => Some (total p) | Raise _ => None end.

(** C2 (the code departs from the claim).  Two queries that differ in
    [min_amount] only, or in a metadata pair only, have the same cache key;
    over an unchanged store, the second one is answered from the cache with
    the page of the first, one item, where recomputing gives two. *)
Theorem cache_key_misses_amount_and_metadata :
  _build_cache_key "u2" (Some large_only) (Some first_page)
    = _build_cache_key "u2" (Some any_payment) (Some first_page) /\
  _build_cache_key "u2" (Some RepositorySpec.card_filter) (Some first_page)
    = _build_cache_key "u2" (Some any_payment) (Some first_page) /\
  (let cache1 := match serve two_rows RoutesSpec.no_cache large_only with
                 | Ok (_, c) => c
                 | Raise _ => RoutesSpec.no_cache
                 end in
   total_of (serve two_rows RoutesSpec.no_cache large_only) = Some 1 /\
   total_of (serve two_rows cache1 any_payment) = Some 1 /\
   fmap_res total (recompute two_rows any_payment) = Ok 2).
Proof. vm_compute. repeat split. Qed.

Lemma str_take_empty n s : str_take (S n) s = EmptyString -> s = EmptyString.
Proof. destruct s as [|c r]; [done|]. simpl. by destruct (is_continuation c). Qed.

Lemma nonempty_take20 c1 c2 :
  str_take 20 c1 = str_take 20 c2 ->
  match nonempty (Some c1), nonempty (Some c2) with
  | Some a, Some b => a = c1 /\ b = c2
  | None, None => True
  | _, _ => False
  end.
Proof.
  intros H. destruct c1 as [|x1 r1], c2 as [|x2 r2]; simpl; try done.
  - symmetry in H. by apply str_take_empty in H.
  - by apply str_take_empty in H.
Qed.

Section WithCollaborators.
Context (is_sqlite : bool)
        (ilike : string -> string -> bool)
        (lower : string -> string)
        (search_enabled : bool)
        (search : string -> string -> list (string * string)
                  -> option string -> option string -> Z -> Z
                  -> list string * Z)
        (headroom : nat).

Abbreviation get_transactions_cursor :=
  (get_transactions_cursor is_sqlite ilike lower search_enabled search
     headroom).

(** C10.  Two cursor requests that differ only in cursors with the same first
    twenty characters have the same cache key; hence, with the cache enabled,
    once the first request has been answered, the second one is answered
    with the very same page, whatever the store holds by then. *)
Theorem cursor_cache_key_reads_twenty_characters
    (user : string) (filters : option TransactionFilter) (lim : Z)
    (c1 c2 : string) :
  str_take 20 c1 = str_take 20 c2 ->
  _build_cache_key_cursor user filters (Some {| cursor := Some c1; limit := lim |})
  = _build_cache_key_cursor user filters (Some {| cursor := Some c2; limit := lim |})
  /\ forall db db' cache p cache1,
       enabled cache = true ->
       get_transactions_cursor db cache user filters
         (Some {| cursor := Some c1; limit := lim |}) = Ok (p, cache1) ->
       get_transactions_cursor db' cache1 user filters
         (Some {| cursor := Some c2; limit := lim |}) = Ok (p, cache1).
Proof.
  intros Htake.
  assert (Hkey : _build_cache_key_cursor user filters
                   (Some {| cursor := Some c1; limit := lim |})
                 = _build_cache_key_cursor user filters
                     (Some {| cursor := Some c2; limit := lim |})).
  { unfold _build_cache_key_cursor. cbn [cursor limit].
    pose proof (nonempty_take20 c1 c2 Htake) as Hne.
    destruct (nonempty (Some c1)) as [a|], (nonempty (Some c2)) as [b|];
      try done.
    destruct Hne as [-> ->]. by rewrite Htake. }
  split; [exact Hkey|].
  intros db db' cache p cache1 Hen Hfirst.
  unfold Service.get_transactions_cursor in *. rewrite <- Hkey.
  set (k := _build_cache_key_cursor user filters
              (Some {| cursor := Some c1; limit := lim |})) in *.
  destruct (cache_get cache k) as [[p0|p0|t0]|] eqn:Hget; try discriminate.
  - injection Hfirst as <- <-. by rewrite Hget.
  - destruct (compute_cursor_page is_sqlite ilike lower search_enabled search
                headroom db user filters (Some {| cursor := Some c1; limit := lim |}))
      as [result|e]; [|discriminate].
    simpl in Hfirst. injection Hfirst as <- <-.
    unfold cache_get, cache_set. rewrite Hen. simpl.
    by rewrite lookup_insert_eq.
Qed.

End WithCollaborators.

(** Two cursors as [encode_cursor] makes them, for two different rows. *)
Definition cursor_a : string :=
  "eyJjcmVhdGVkX2F0IjogIjIwMjQtMDEtMTVUMTI6MDA6MDArMDA6MDAiLCAiaWQiOiAiMTIzZTQ1NjctZTg5Yi0xMmQzLWE0NTYtNDI2NjE0MTc0MDAwIn0=".

Definition cursor_b : string :=
  "eyJjcmVhdGVkX2F0IjogIjIwMjMtMDYtMDFUMDg6MTU6MDArMDA6MDAiLCAiaWQiOiAiMDAwMDAwMDAtMDAwMC0wMDAwLTAwMDAtMDAwMDAwMDAwMDAyIn0=".

Lemma cursor_cache_key_reads_twenty_characters_witness :
  str_take 20 cursor_a = str_take 20 cursor_b /\
  _build_cache_key_cursor "u2" None (Some {| cursor := Some cursor_a; limit := 1 |})
  = _build_cache_key_cursor "u2" None (Some {| cursor := Some cursor_b; limit := 1 |})
  /\ match Service.get_transactions_cursor false (fun _ _ => true) (fun s => s)
             false (fun _ _ _ _ _ _ _ => ([], 0)) 900 two_rows
             RoutesSpec.no_cache
             "u2" None (Some {| cursor := Some cursor_a; limit := 1 |}) with
     | Ok (p, cache1) =>
         Service.get_transactions_cursor false (fun _ _ => true) (fun s => s)
           false (fun _ _ _ _ _ _ _ => ([], 0)) 900 [] cache1
           "u2" None (Some {| cursor := Some cursor_b; limit := 1 |})
         = Ok (p, cache1)
     | Raise _ => False
     end.
Proof.
  assert (Htake : str_take 20 cursor_a = str_take 20 cursor_b) by (vm_compute; reflexivity).
  destruct (cursor_cache_key_reads_twenty_characters false (fun _ _ => true)
              (fun s => s) false (fun _ _ _ _ _ _ _ => ([], 0)) 900%nat
              "u2" None 1 cursor_a cursor_b Htake) as [Hkey Hserve].
  split; [exact Htake|]. split; [exact Hkey|].
  destruct (Service.get_transactions_cursor false (fun _ _ => true)
              (fun s => s) false (fun _ _ _ _ _ _ _ => ([], 0)) 900 two_rows
              RoutesSpec.no_cache "u2" None
              (Some {| cursor := Some cursor_a; limit := 1 |}))
    as [[p cache1]|e] eqn:Hfirst.
  - apply (Hserve two_rows [] RoutesSpec.no_cache p cache1 eq_refl Hfirst).
  - vm_compute in Hfirst. discriminate.
Defined.

End ServiceSpec.

Module KeysetSpec.
Import Py Schemas Repository.

Lemma ord_chr n : (n < 256)%N -> ord (chr n) = n.
Proof. apply N_ascii_embedding. Qed.

Lemma ord_hex_digit d :
  (d < 16)%N -> ord (hex_digit d) = (if d <? 10 then 48 + d else 87 + d)%N.
Proof.
  intros Hd. unfold hex_digit.
  destruct (N.ltb_spec d 10); rewrite ord_chr by lia; lia.
Qed.

Lemma hex_digit_ltb d e :
  (d < 16)%N -> (e < 16)%N ->
  (ord (hex_digit d) <? ord (hex_digit e))%N = (d <? e)%N.
Proof.
  intros Hd He. rewrite !ord_hex_digit by done.
  destruct (N.ltb_spec d 10), (N.ltb_spec e 10), (N.ltb_spec d e);
    apply N.ltb_lt || apply N.ltb_ge; lia.
Qed.

Lemma hex_digits_ltb k : forall a b,
  bytes_ltb (hex_digits k a) (hex_digits k b)
  = (a mod 16 ^ N.of_nat k <? b mod 16 ^ N.of_nat k)%N.
Proof.
  induction k as [|k IH]; intros a b.
  - simpl. rewrite !N.mod_1_r. reflexivity.
  - cbn [hex_digits bytes_ltb]. rewrite IH.
    set (M := (16 ^ N.of_nat k)%N).
    assert (HM : (0 < M)%N) by (apply N.neq_0_lt_0, N.pow_nonzero; lia).
    assert (HS : (16 ^ N.of_nat (S k) = M * 16)%N).
    { rewrite Nat2N.inj_succ, N.pow_succ_r'. unfold M. lia. }
    rewrite HS, !N.Div0.mod_mul_r.
    pose proof (N.mod_upper_bound a M ltac:(lia)) as Ha.
    pose proof (N.mod_upper_bound b M ltac:(lia)) as Hb.
    pose proof (N.mod_upper_bound (a / M) 16 ltac:(lia)) as Hda.
    pose proof (N.mod_upper_bound (b / M) 16 ltac:(lia)) as Hdb.
    set (da := ((a / M) mod 16)%N) in *. set (db := ((b / M) mod 16)%N) in *.
    set (ra := (a mod M)%N) in *. set (rb := (b mod M)%N) in *.
    rewrite !hex_digit_ltb by done.
    destruct (N.ltb_spec da db) as [H1|H1].
    + symmetry. apply N.ltb_lt. nia.
    + destruct (N.ltb_spec db da) as [H2|H2].
      * symmetry. apply N.ltb_ge. nia.
      * assert (da = db) as -> by lia.
        destruct (N.ltb_spec ra rb); symmetry;
          [apply N.ltb_lt | apply N.ltb_ge]; nia.
Qed.

Definition uuid_format (h : bytes) : bytes :=
  take 8 h ++ hyphen :: take 4 (drop 8 h) ++ hyphen :: take 4 (drop 12 h)
     ++ hyphen :: take 4 (drop 16 h) ++ hyphen :: drop 20 h.

Lemma bytes_ltb_cons x a b : bytes_ltb (x :: a) (x :: b) = bytes_ltb a b.
Proof. simpl. by rewrite N.ltb_irrefl. Qed.

Lemma bytes_ltb_app l1 : forall l2 r1 r2,
  length l1 = length l2 ->
  bytes_ltb (l1 ++ r1) (l2 ++ r2)
  = if bytes_ltb l1 l2 then true
    else if bytes_ltb l2 l1 then false else bytes_ltb r1 r2.
Proof.
  induction l1 as [|x l1 IH]; intros [|y l2] r1 r2 Hlen; try discriminate.
  - reflexivity.
  - simpl in *. destruct (N.ltb_spec (ord x) (ord y)); [done|].
    destruct (N.ltb_spec (ord y) (ord x)); [done|].
    apply IH. lia.
Qed.

Lemma uuid_chunks (h : bytes) :
  h = take 8 h ++ take 4 (drop 8 h) ++ take 4 (drop 12 h)
        ++ take 4 (drop 16 h) ++ drop 20 h.
Proof.
  rewrite <- (take_drop 8 h) at 1. f_equal.
  rewrite <- (take_drop 4 (drop 8 h)) at 1. f_equal.
  rewrite drop_drop. simpl Nat.add.
  rewrite <- (take_drop 4 (drop 12 h)) at 1. f_equal.
  rewrite drop_drop. simpl Nat.add.
  rewrite <- (take_drop 4 (drop 16 h)) at 1. f_equal.
  by rewrite drop_drop.
Qed.

Lemma uuid_format_ltb h1 h2 :
  length h1 = 32%nat -> length h2 = 32%nat ->
  bytes_ltb (uuid_format h1) (uuid_format h2) = bytes_ltb h1 h2.
Proof.
  intros H1 H2.
  transitivity (bytes_ltb
    (take 8 h1 ++ take 4 (drop 8 h1) ++ take 4 (drop 12 h1)
       ++ take 4 (drop 16 h1) ++ drop 20 h1)
    (take 8 h2 ++ take 4 (drop 8 h2) ++ take 4 (drop 12 h2)
       ++ take 4 (drop 16 h2) ++ drop 20 h2));
    [|by rewrite <- !uuid_chunks].
  unfold uuid_format.
  repeat (rewrite !(bytes_ltb_app (take _ _) (take _ _))
            by (rewrite !length_take, ?length_drop; lia);
          rewrite ?bytes_ltb_cons).
  reflexivity.
Qed.

Lemma length_hex_digits k n : length (hex_digits k n) = k.
Proof. induction k; simpl; auto. Qed.

Lemma uuid_str_ltb a b :
  str_ltb (uuid_str a) (uuid_str b)
  = (a mod 2 ^ 128 <? b mod 2 ^ 128)%N.
Proof.
  unfold str_ltb, uuid_str. rewrite !list_ascii_of_string_of_list_ascii.
  fold (uuid_format (hex_digits 32 a)). fold (uuid_format (hex_digits 32 b)).
  rewrite uuid_format_ltb by apply length_hex_digits.
  rewrite hex_digits_ltb. reflexivity.
Qed.

Lemma hex_number_bound s : forall acc n,
  hex_number acc s = Some n ->
  (n < (acc + 1) * 16 ^ N.of_nat (length s))%N.
Proof.
  induction s as [|c s IH]; intros acc n H; simpl in H.
  - injection H as <-. simpl. lia.
  - destruct (hex_value c) as [d|] eqn:Hd; [|discriminate].
    apply IH in H.
    assert (d < 16)%N.
    { unfold hex_value in Hd. repeat case_match; try discriminate;
        injection Hd as <-;
        repeat match goal with
               | H : _ && _ = true |- _ => apply andb_true_iff in H as [? ?]
               | H : (_ <=? _)%N = true |- _ => apply N.leb_le in H
               end; lia. }
    cbn [length]. rewrite Nat2N.inj_succ, N.pow_succ_r'.
    assert (0 < 16 ^ N.of_nat (length s))%N
      by (apply N.neq_0_lt_0, N.pow_nonzero; lia).
    nia.
Qed.

Lemma UUID_bound s n : UUID s = Ok n -> (n < 2 ^ 128)%N.
Proof.
  unfold UUID. intros H.
  destruct (negb _) eqn:Hlen; [discriminate|].
  destruct (hex_number 0 _) as [m|] eqn:Hm; [|discriminate].
  injection H as <-. apply hex_number_bound in Hm.
  apply negb_false_iff, Nat.eqb_eq in Hlen. rewrite Hlen in Hm.
  exact Hm.
Qed.

Section Prefix.
Context {A : Type} (lt : relation A) `{!Irreflexive lt, !Transitive lt}.

(** The first [L] elements of a list sorted by a strict order. *)
Lemma sorted_prefix (S : list A) (L : nat) :
  StronglySorted lt S -> (1 <= L)%nat ->
  StronglySorted lt (take L S) /\
  (forall t, t ∈ S ->
     t ∈ take L S
     \/ (length (take L S) = L /\ forall r, r ∈ take L S -> lt r t)) /\
  ((L < length S)%nat <->
     exists r t, last (take L S) = Some r /\ t ∈ S /\ lt r t).
Proof.
  intros Hsorted HL.
  pose proof Hsorted as Hsplit. rewrite <- (take_drop L S) in Hsplit.
  apply StronglySorted_app in Hsplit as (Hcross & Htake & Hdrop).
  split; [exact Htake|]. split.
  - intros t Ht. rewrite <- (take_drop L S) in Ht.
    apply elem_of_app in Ht as [Ht | Ht]; [by left|]. right.
    split; [|intros r Hr; by apply Hcross].
    rewrite length_take. apply Nat.min_l.
    destruct (decide (L <= length S)%nat) as [|Hn]; [done|].
    rewrite drop_ge in Ht by lia. by apply elem_of_nil in Ht.
  - split.
    + intros Hlen.
      destruct (last (take L S)) as [r|] eqn:Hlast.
      * destruct (lookup_lt_is_Some_2 S L Hlen) as [t Ht].
        exists r, t. split; [done|]. split.
        -- by eapply list_elem_of_lookup_2.
        -- apply Hcross; [by apply last_Some_elem_of|].
           apply list_elem_of_lookup. exists 0%nat.
           rewrite lookup_drop. by rewrite Nat.add_0_r.
      * apply last_None in Hlast.
        apply (f_equal length) in Hlast. rewrite length_take in Hlast.
        simpl in Hlast. lia.
    + intros (r & t & Hlast & Ht & Hrt).
      destruct (decide (L < length S)%nat) as [|Hn]; [done|]. exfalso.
      rewrite take_ge in Hlast by lia.
      apply last_Some in Hlast as [l' ->].
      apply StronglySorted_app in Hsorted as (Hc & _ & _).
      apply elem_of_app in Ht as [Ht | Ht].
      * apply (irreflexivity lt r). etrans; [exact Hrt|].
        apply Hc; [done|]. by apply list_elem_of_singleton.
      * apply list_elem_of_singleton in Ht as ->.
        by apply (irreflexivity lt r).
Qed.

End Prefix.

(** An integer that both engines accept for [LIMIT] or [OFFSET]. *)
Lemma bind_int_Ok is_sqlite n :
  0 <= n <= 2 ^ 63 - 1 -> bind_int is_sqlite n = Ok n.
Proof.
  intros Hn. unfold bind_int.
  change (2 ^ 63) with 9223372036854775808 in *.
  destruct is_sqlite;
    rewrite orb_false_intro; try reflexivity; apply Z.ltb_ge; lia.
Qed.

Lemma offset_limit_all_limit is_sqlite db q n :
  0 <= n <= 2 ^ 63 - 1 ->
  offset_limit_all is_sqlite db q None n = Ok (all db (limit_ q n)).
Proof.
  intros Hn. unfold offset_limit_all. rewrite bind_int_Ok by done. simpl.
  by rewrite (proj2 (Z.ltb_ge n 0)) by lia.
Qed.

Lemma offset_limit_all_page is_sqlite db q off n :
  0 <= off <= 2 ^ 63 - 1 -> 0 <= n <= 2 ^ 63 - 1 ->
  offset_limit_all is_sqlite db q (Some off) n
  = Ok (all db (limit_ (offset_ q off) n)).
Proof.
  intros Hoff Hn. unfold offset_limit_all. rewrite !bind_int_Ok by done.
  simpl. by rewrite (proj2 (Z.ltb_ge n 0)) by lia.
Qed.

Lemma q_offset_fold is_sqlite kvs : forall q,
  q_offset (fold_left (fun q kv =>
     filter_ q (fun t =>
       let json_expr :=
         json_extract_text is_sqlite (custom_metadata t) (fst kv) in
       sql_and (isnot_null json_expr) (text_eq json_expr (snd kv)))) kvs q)
  = q_offset q.
Proof. induction kvs as [|kv kvs IH]; intros q; simpl; [done|]. by rewrite IH. Qed.

Lemma q_limit_fold is_sqlite kvs : forall q,
  q_limit (fold_left (fun q kv =>
     filter_ q (fun t =>
       let json_expr :=
         json_extract_text is_sqlite (custom_metadata t) (fst kv) in
       sql_and (isnot_null json_expr) (text_eq json_expr (snd kv)))) kvs q)
  = q_limit q.
Proof. induction kvs as [|kv kvs IH]; intros q; simpl; [done|]. by rewrite IH. Qed.

Lemma q_offset_apply_filters is_sqlite ilike lower q f :
  q_offset (_apply_filters is_sqlite ilike lower q f) = q_offset q.
Proof.
  unfold _apply_filters.
  destruct (metadata_filters f); [rewrite q_offset_fold|];
    repeat case_match; reflexivity.
Qed.

Lemma q_limit_apply_filters is_sqlite ilike lower q f :
  q_limit (_apply_filters is_sqlite ilike lower q f) = q_limit q.
Proof.
  unfold _apply_filters.
  destruct (metadata_filters f); [rewrite q_limit_fold|];
    repeat case_match; reflexivity.
Qed.

Lemma q_offset_base ilike lower is_sqlite user filters :
  q_offset (RepositorySpec.base_query ilike lower is_sqlite user filters)
  = 0%nat.
Proof.
  unfold RepositorySpec.base_query.
  destruct filters; [rewrite q_offset_apply_filters|]; done.
Qed.

Lemma q_limit_base ilike lower is_sqlite user filters :
  q_limit (RepositorySpec.base_query ilike lower is_sqlite user filters)
  = None.
Proof.
  unfold RepositorySpec.base_query.
  destruct filters; [rewrite q_limit_apply_filters|]; done.
Qed.

Lemma all_keyset db q le n :
  q_offset q = 0%nat ->
  all db (limit_ (order_by q le) n)
  = take (Z.to_nat n)
      (merge_sort (fun a b => Is_true (le a b)) (selected db q)).
Proof. intros Hoff. unfold all. simpl. rewrite Hoff. reflexivity. Qed.

Lemma selected_elem db q t :
  t ∈ selected db q <-> t ∈ db /\ matches q t = true.
Proof. unfold selected. rewrite !list_elem_of_In. apply filter_In. Qed.

Lemma selected_NoDup db q :
  NoDup (map id db) -> NoDup (map id (selected db q)).
Proof.
  unfold selected. induction db as [|x db IH]; simpl; intros Hnd; [done|].
  apply NoDup_cons in Hnd as [Hx Hnd].
  destruct (matches q x); simpl; [|by apply IH].
  apply NoDup_cons. split; [|by apply IH].
  intros Hin. apply Hx. apply list_elem_of_fmap in Hin as (y & Hy & Hin).
  apply list_elem_of_In, filter_In in Hin as [Hin _].
  rewrite Hy. apply list_elem_of_fmap_2. by apply list_elem_of_In.
Qed.

(** The order of the [id] column where the identifiers are 128-bit ones:
    the order of the numbers, on both engines. *)
Definition small_id (t : Transaction) : Prop := (id t < 2 ^ 128)%N.

Lemma id_ltb_small is_sqlite a b :
  (a < 2 ^ 128)%N -> (b < 2 ^ 128)%N -> id_ltb is_sqlite a b = (a <? b)%N.
Proof.
  intros Ha Hb. unfold id_ltb. destruct is_sqlite; [|done].
  by rewrite uuid_str_ltb, !N.mod_small.
Qed.

(** *** The canonical order *)

(** The position of a row in the canonical order. *)
Definition pos (t : Transaction) : Z * N := (instant (created_at t), id t).

(** In the order [(created_at DESC, id DESC)], [q] comes strictly after [p]. *)
Definition strictly_after (p q : Z * N) : Prop :=
  q.1 < p.1 \/ (q.1 = p.1 /\ (q.2 < p.2)%N).

Definition row_after (a b : Transaction) : Prop := strictly_after (pos a) (pos b).

#[local] Instance row_after_irrefl : Irreflexive row_after.
Proof. intros a H. unfold row_after, strictly_after in H. lia. Qed.

#[local] Instance row_after_trans : Transitive row_after.
Proof. intros a b c. unfold row_after, strictly_after. lia. Qed.

(** In the order [(created_at DESC, id DESC)], [a] does not come after
    [b]. *)
Definition descending (a b : Transaction) : Prop :=
  instant (created_at b) < instant (created_at a)
  \/ (instant (created_at a) = instant (created_at b)
      /\ (id b <= id a)%N).

(** The order of the PostgreSQL query. *)
Definition not_after (a b : Transaction) : Prop :=
  Is_true (desc_created_at_id false a b).

Lemma not_after_spec a b : not_after a b <-> descending a b.
Proof.
  unfold not_after, descending, desc_created_at_id, id_ltb.
  rewrite Is_true_true, orb_true_iff, andb_true_iff, negb_true_iff.
  rewrite Z.ltb_lt, Z.eqb_eq, N.ltb_ge. reflexivity.
Qed.

#[local] Instance not_after_trans : Transitive not_after.
Proof. intros a b c. rewrite !not_after_spec. unfold descending. lia. Qed.

#[local] Instance not_after_total : Total not_after.
Proof. intros a b. rewrite !not_after_spec. unfold descending. lia. Qed.

Lemma sorted_descending (l : list Transaction) :
  StronglySorted not_after l -> StronglySorted descending l.
Proof.
  induction 1 as [|x l Hs IH Hx]; constructor; [done|].
  eapply Forall_impl; [exact Hx|]. intros y. apply not_after_spec.
Qed.

Lemma sorted_strictly (l : list Transaction) :
  StronglySorted not_after l -> NoDup (map id l) ->
  StronglySorted row_after l.
Proof.
  induction 1 as [|x l Hs IH Hx]; intros Hnd; [constructor|].
  simpl in Hnd. apply NoDup_cons in Hnd as [Hnotin Hnd].
  constructor; [by apply IH|].
  rewrite Forall_forall in Hx |- *. intros y Hy.
  specialize (Hx y Hy). apply not_after_spec in Hx. unfold descending in Hx.
  assert (id x <> id y).
  { intros Heq. apply Hnotin. rewrite Heq. by apply list_elem_of_fmap_2. }
  unfold row_after, strictly_after, pos. simpl. lia.
Qed.

Lemma UUID_value_bound x n : UUID_value x = Ok n -> (n < 2 ^ 128)%N.
Proof. destruct x; try discriminate. apply UUID_bound. Qed.

(** On PostgreSQL the keyset predicate is the canonical order. *)
Lemma after_cursor_spec created cu t :
  holds (after_cursor false created cu t) = true
  <-> strictly_after (instant created, cu) (pos t).
Proof.
  unfold after_cursor, created_at_lt, created_at_eq, id_ltb, strictly_after,
    pos. simpl.
  destruct (Z.ltb_spec (instant (created_at t)) (instant created)),
           (Z.eqb_spec (instant (created_at t)) (instant created)),
           (N.ltb_spec (id t) cu); simpl; split; (done || lia).
Qed.

(** *** The text order of SQLite *)

(** The text of [CURRENT_TIMESTAMP], which the [server_default] of
    [created_at] stores on SQLite: the seconds, no fraction. *)
Definition sqlite_seconds (d : datetime) : string :=
  string_of_list_ascii
    (pad4 (year d) ++ hyphen :: pad2 (month d) ++ hyphen :: pad2 (day d)
     ++ chr 32 :: pad2 (hour d) ++ colon :: pad2 (minute d)
     ++ colon :: pad2 (second d)).

(** The stored text of a row that took the server default is a proper
    prefix of the text bound for the very [datetime] the row reads as, and
    so is less than it. *)
Lemma sqlite_seconds_lt d :
  str_ltb (sqlite_seconds d) (sqlite_datetime d) = true.
Proof.
  unfold str_ltb, sqlite_seconds, sqlite_datetime, pad4, pad2.
  rewrite !list_ascii_of_string_of_list_ascii. cbn [app].
  by rewrite !bytes_ltb_cons.
Qed.

(** On SQLite a row that took the server default lies after its own
    position for the keyset predicate. *)
Lemma after_cursor_sqlite_default r :
  created_at_text r = sqlite_seconds (created_at r) ->
  holds (after_cursor true (created_at r) (id r) r) = true.
Proof.
  intros Htext. unfold after_cursor, created_at_lt.
  by rewrite Htext, sqlite_seconds_lt.
Qed.

(** Two rows of [u2] written on SQLite through the server default, and the
    cursor that [encode_cursor] makes for the newer one. *)
Definition default_row : Transaction :=
  {| id := 4%N; user_id := "u2"; transaction_type := "card"; product := "Card";
     status := "completed"; currency := "USD"; amount := 900;
     created_at := {| year := 2024; month := 1; day := 15; hour := 12;
                      minute := 0; second := 0; microsecond := 0;
                      tzinfo := None |};
     updated_at := None; custom_metadata := None; search_content := None;
     created_at_text := "2024-01-15 12:00:00" |}.

Definition earlier_default_row : Transaction :=
  {| id := 5%N; user_id := "u2"; transaction_type := "card"; product := "Card";
     status := "completed"; currency := "USD"; amount := 300;
     created_at := {| year := 2024; month := 1; day := 14; hour := 9;
                      minute := 30; second := 0; microsecond := 0;
                      tzinfo := None |};
     updated_at := None; custom_metadata := None; search_content := None;
     created_at_text := "2024-01-14 09:30:00" |}.

Definition cursor_of_default_row : string :=
  "eyJjcmVhdGVkX2F0IjogIjIwMjQtMDEtMTVUMTI6MDA6MDAiLCAiaWQiOiAiMDAwMDAwMDAtMDAwMC0wMDAwLTAwMDAtMDAwMDAwMDAwMDA0In0=".

(** A cursor that [decode_cursor] accepts and whose ["id"] is no UUID: the
    encoding of [{"created_at": "2024-01-15T12:00:00+00:00", "id": "abc"}]. *)
Definition cursor_without_uuid : string :=
  "eyJjcmVhdGVkX2F0IjogIjIwMjQtMDEtMTVUMTI6MDA6MDArMDA6MDAiLCAiaWQiOiAiYWJjIn0=".

Section Keyset.
Context (ilike : string -> string -> bool)
        (lower : string -> string)
        (headroom : nat).

(** How the cursor of a request is read: as no position when it is absent,
    empty or not decodable, as the position it encodes otherwise. *)
Inductive reads_as : option string -> option (Z * N) -> Prop :=
  | absent_cursor c :
      nonempty c = None -> reads_as c None
  | invalid_cursor c s :
      nonempty c = Some s -> Cursor.decode_cursor headroom s = Ok None ->
      reads_as c None
  | valid_cursor c s cid created cu :
      nonempty c = Some s ->
      Cursor.decode_cursor headroom s = Ok (Some (cid, created)) ->
      UUID_value cid = Ok cu ->
      reads_as c (Some (instant created, cu)).

(** The records that a page may hold: the records of the table that belong
    to the user, pass the filters and lie strictly after the cursor
    position, if there is one. *)
Definition eligible (db : list Transaction) (user : string)
    (filters : option TransactionFilter) (c : option (Z * N))
    (t : Transaction) : Prop :=
  t ∈ db /\ user_id t = user
  /\ match filters with
     | Some f => RepositorySpec.passes ilike lower f t = true
     | None => True
     end
  /\ match c with
     | Some p => strictly_after p (pos t)
     | None => True
     end.

Lemma selected_base db user filters t :
  t ∈ selected db (RepositorySpec.base_query ilike lower false user filters)
  <-> eligible db user filters None t.
Proof.
  rewrite selected_elem, RepositorySpec.matches_base,
    RepositorySpec.wanted_spec. unfold eligible. tauto.
Qed.

(** The page that the PostgreSQL keyset query returns for a query [q] whose
    selected rows are the eligible ones. *)
Lemma keyset_page_of_query db q lim (E : Transaction -> Prop) :
  NoDup (map id db) -> 1 <= lim ->
  q_offset q = 0%nat ->
  (forall t, t ∈ selected db q <-> E t) ->
  let transactions :=
    all db (limit_ (order_by q (desc_created_at_id false)) (lim + 1)) in
  let records := slice_to lim transactions in
  let has_more := Z.of_nat (length transactions) >? lim in
  StronglySorted row_after records /\
  (forall t, t ∈ records -> E t) /\
  (forall t, E t ->
     t ∈ records
     \/ (Z.of_nat (length records) = lim
         /\ forall r, r ∈ records -> row_after r t)) /\
  (has_more = true <->
     exists r t, last records = Some r /\ E t /\ row_after r t).
Proof.
  intros Hnd Hlim Hoff HE. cbv zeta.
  rewrite (all_keyset db q _ (lim + 1) Hoff).
  fold not_after.
  set (S := merge_sort not_after (selected db q)).
  assert (Hperm : S ≡ₚ selected db q) by apply merge_sort_Permutation.
  assert (Hsorted : StronglySorted row_after S).
  { apply sorted_strictly.
    - apply StronglySorted_merge_sort; apply _.
    - rewrite Hperm. by apply selected_NoDup. }
  assert (Hslice : slice_to lim (take (Z.to_nat (lim + 1)) S)
                   = take (Z.to_nat lim) S).
  { unfold slice_to. rewrite (proj2 (Z.leb_le 0 lim)) by lia.
    rewrite take_take. f_equal. lia. }
  rewrite Hslice.
  destruct (sorted_prefix row_after S (Z.to_nat lim) Hsorted ltac:(lia))
    as (H1 & H2 & H3).
  split; [exact H1|]. split; [|split].
  - intros t Ht. apply HE. rewrite <- Hperm.
    apply elem_of_take in Ht as (i & Hi & _). by eapply list_elem_of_lookup_2.
  - intros t Ht. apply HE in Ht. rewrite <- Hperm in Ht.
    destruct (H2 t Ht) as [Hin | [Hlen Hall]]; [by left|right].
    split; [lia|done].
  - rewrite length_take, Z.gtb_gt. split.
    + intros Hlen.
      assert (Hlt : (Z.to_nat lim < length S)%nat) by lia.
      apply H3 in Hlt as (r & t & Hl & Ht & Hrt).
      exists r, t. split; [done|]. split; [|done].
      apply HE. by rewrite <- Hperm.
    + intros (r & t & Hl & Ht & Hrt).
      assert (Hlt : (Z.to_nat lim < length S)%nat); [|lia].
      apply H3. exists r, t. split; [done|]. split; [|done].
      rewrite Hperm. by apply HE.
Qed.

(** [get_by_user_id_cursor] once its cursor has been read. *)
Lemma get_by_user_id_cursor_runs is_sqlite db user filters cursor_pagination
    (q : query) :
  let lim := match cursor_pagination with
             | Some cp => limit cp | None => 20 end in
  1 <= lim < 2 ^ 63 - 1 ->
  match cursor_pagination with
  | Some cp =>
      match nonempty (cursor cp) with
      | Some c =>
          let! cursor_data := Cursor.decode_cursor headroom c in
          match cursor_data with
          | Some (cid, cursor_created_at) =>
              let! cursor_id := UUID_value cid in
              Ok (filter_
                    (RepositorySpec.base_query ilike lower is_sqlite user
                       filters)
                    (after_cursor is_sqlite cursor_created_at cursor_id))
          | None =>
              Ok (RepositorySpec.base_query ilike lower is_sqlite user filters)
          end
      | None =>
          Ok (RepositorySpec.base_query ilike lower is_sqlite user filters)
      end
  | None => Ok (RepositorySpec.base_query ilike lower is_sqlite user filters)
  end = Ok q ->
  get_by_user_id_cursor is_sqlite ilike lower headroom db user filters
    cursor_pagination
  = let transactions :=
      all db (limit_ (order_by q (desc_created_at_id is_sqlite)) (lim + 1)) in
    Ok (slice_to lim transactions,
        Z.of_nat (length transactions) >? lim).
Proof.
  intros lim Hlim Hq. unfold get_by_user_id_cursor.
  fold (RepositorySpec.base_query ilike lower is_sqlite user filters).
  fold lim. rewrite Hq. cbn [bind].
  rewrite offset_limit_all_limit by lia. reflexivity.
Qed.

(** C3 (the code departs from the claim).  On PostgreSQL, for a table with
    distinct identifiers and a limit of at least one, and for a cursor that
    is absent, refused by [decode_cursor] or decoded to a position with a
    UUID, the keyset query returns: its records are in strictly descending
    canonical order; each of them is a record of the table that belongs to
    the user, passes the filters and lies strictly after the cursor
    position; every such record that is not returned comes strictly after
    all the returned ones, which are then exactly [limit]; and [has_more]
    holds exactly when some such record comes strictly after the last
    returned one.  But a cursor that [decode_cursor] accepts while the
    value under its ["id"] is no UUID makes the query raise, on either
    engine: [UUID(cursor_data["id"])] stands outside every [try].  And on
    SQLite, where [created_at] is compared as text, a row that took the
    server default lies after its own position: the page asked for with the
    cursor of the newer of two such rows holds that very row again, with
    [has_more] set. *)
Theorem keyset_page (db : list Transaction) (user : string)
    (filters : option TransactionFilter)
    (cursor_pagination : option CursorPaginationParams) :
  let lim := match cursor_pagination with
             | Some cp => limit cp | None => 20 end in
  let cur := match cursor_pagination with
             | Some cp => cursor cp | None => None end in
  (forall c,
     NoDup (map id db) -> 1 <= lim < 2 ^ 63 - 1 ->
     reads_as cur c ->
     exists records has_more,
       get_by_user_id_cursor false ilike lower headroom db user filters
         cursor_pagination = Ok (records, has_more) /\
       StronglySorted row_after records /\
       (forall t, t ∈ records -> eligible db user filters c t) /\
       (forall t, eligible db user filters c t ->
          t ∈ records
          \/ (Z.of_nat (length records) = lim
              /\ forall r, r ∈ records -> row_after r t)) /\
       (has_more = true <->
          exists r t, last records = Some r /\ eligible db user filters c t
                      /\ row_after r t)) /\
  (forall is_sqlite s cid created e,
     nonempty cur = Some s ->
     Cursor.decode_cursor headroom s = Ok (Some (cid, created)) ->
     UUID_value cid = Raise e ->
     get_by_user_id_cursor is_sqlite ilike lower headroom db user filters
       cursor_pagination = Raise e) /\
  (forall r,
     created_at_text r = sqlite_seconds (created_at r) ->
     holds (after_cursor true (created_at r) (id r) r) = true
     /\ ~ row_after r r) /\
  (Cursor.encode_cursor (uuid_str (id default_row)) (created_at default_row)
     = Ok cursor_of_default_row
   /\ get_by_user_id_cursor true (fun _ _ => true) (fun s => s) 900
        [earlier_default_row; default_row] "u2" None
        (Some {| cursor := Some cursor_of_default_row; limit := 1 |})
      = Ok ([default_row], true)).
Proof.
  intros lim cur. split; [|split; [|split]].
  - intros c Hnd Hlim Hread.
    set (q0 := RepositorySpec.base_query ilike lower false user filters).
    assert (Hgen : forall q,
      q_offset q = 0%nat ->
      (forall t, t ∈ selected db q <-> eligible db user filters c t) ->
      get_by_user_id_cursor false ilike lower headroom db user filters
        cursor_pagination
      = (let transactions :=
           all db (limit_ (order_by q (desc_created_at_id false)) (lim + 1)) in
         Ok (slice_to lim transactions,
             Z.of_nat (length transactions) >? lim)) ->
      exists records has_more,
        get_by_user_id_cursor false ilike lower headroom db user filters
          cursor_pagination = Ok (records, has_more) /\
        StronglySorted row_after records /\
        (forall t, t ∈ records -> eligible db user filters c t) /\
        (forall t, eligible db user filters c t ->
           t ∈ records
           \/ (Z.of_nat (length records) = lim
               /\ forall r, r ∈ records -> row_after r t)) /\
        (has_more = true <->
           exists r t, last records = Some r /\ eligible db user filters c t
                       /\ row_after r t)).
    { intros q Hoff HE Hrun. rewrite Hrun. cbv zeta.
      eexists _, _. split; [reflexivity|].
      apply (keyset_page_of_query db q lim _ Hnd (proj1 Hlim) Hoff HE). }
    inversion Hread as [c0 Hc | c0 s Hc Hdec | c0 s cid created cu Hc Hdec Hu];
      subst.
    + apply (Hgen q0 (q_offset_base _ _ _ _ _) (selected_base db user filters)).
      apply get_by_user_id_cursor_runs; [done|].
      subst cur. destruct cursor_pagination as [cp|]; [|reflexivity].
      by rewrite Hc.
    + apply (Hgen q0 (q_offset_base _ _ _ _ _) (selected_base db user filters)).
      apply get_by_user_id_cursor_runs; [done|].
      subst cur. destruct cursor_pagination as [cp|]; [|discriminate].
      by rewrite Hc, Hdec.
    + apply (Hgen (filter_ q0 (after_cursor false created cu))).
      * simpl. apply q_offset_base.
      * intros t. rewrite selected_elem, RepositorySpec.matches_filter_.
        rewrite andb_true_iff, after_cursor_spec.
        pose proof (selected_base db user filters t) as Hbase.
        rewrite selected_elem in Hbase. fold q0 in Hbase.
        unfold eligible in *. tauto.
      * apply get_by_user_id_cursor_runs; [done|].
        subst cur. destruct cursor_pagination as [cp|]; [|discriminate].
        rewrite Hc, Hdec. cbn [bind]. by rewrite Hu.
  - intros is_sqlite s cid created e Hc Hdec Hu.
    unfold get_by_user_id_cursor. subst cur.
    destruct cursor_pagination as [cp|]; [|discriminate].
    rewrite Hc, Hdec. cbn [bind]. by rewrite Hu.
  - intros r Htext. split; [by apply after_cursor_sqlite_default|].
    apply (irreflexivity row_after).
  - split; vm_compute; reflexivity.
Qed.

End Keyset.

(** Three rows of user [u2], and the cursor of the first one. *)
Definition old_row : Transaction :=
  {| id := 3%N; user_id := "u2"; transaction_type := "p2p"; product := "P2P";
     status := "pending"; currency := "USD"; amount := 700;
     created_at := {| year := 2023; month := 6; day := 1; hour := 8;
                      minute := 15; second := 0; microsecond := 0;
                      tzinfo := Some 0 |};
     updated_at := None; custom_metadata := None; search_content := None;
     created_at_text := "2023-06-01 08:15:00.000000" |}.

Definition three_rows : list Transaction :=
  [old_row; RoutesSpec.row_of_u2; ServiceSpec.small_row].

Definition second_page : CursorPaginationParams :=
  {| cursor := Some ServiceSpec.cursor_a; limit := 1 |}.

(** On PostgreSQL the page after the first of three rows; the cursor
    without a UUID raises [ValueError]; and the row that SQLite stored
    through the server default follows its own cursor. *)
Lemma keyset_page_witness :
  (exists records has_more,
    get_by_user_id_cursor false (fun _ _ => true) (fun s => s) 900 three_rows
      "u2" None (Some second_page) = Ok (records, has_more) /\
    StronglySorted row_after records /\
    (forall t, t ∈ records ->
       eligible (fun _ _ => true) (fun s => s) three_rows "u2" None
         (Some (pos RoutesSpec.row_of_u2)) t) /\
    (forall t, eligible (fun _ _ => true) (fun s => s) three_rows "u2" None
                 (Some (pos RoutesSpec.row_of_u2)) t ->
       t ∈ records
       \/ (Z.of_nat (length records) = 1
           /\ forall r, r ∈ records -> row_after r t)) /\
    (has_more = true <->
       exists r t, last records = Some r
                   /\ eligible (fun _ _ => true) (fun s => s) three_rows "u2"
                        None (Some (pos RoutesSpec.row_of_u2)) t
                   /\ row_after r t)) /\
  get_by_user_id_cursor true (fun _ _ => true) (fun s => s) 900 three_rows
    "u2" None (Some {| cursor := Some cursor_without_uuid; limit := 1 |})
  = Raise ValueError /\
  holds (after_cursor true (created_at default_row) (id default_row)
           default_row) = true.
Proof.
  split; [|split].
  - apply (proj1 (keyset_page (fun _ _ => true) (fun s => s) 900 three_rows
                    "u2" None (Some second_page))
             (Some (pos RoutesSpec.row_of_u2))).
    + apply (bool_decide_unpack _). vm_compute. exact I.
    + simpl. lia.
    + apply (valid_cursor 900 (Some ServiceSpec.cursor_a) ServiceSpec.cursor_a
               (JStr RoutesSpec.id_of_row) RoutesSpec.noon
               (id RoutesSpec.row_of_u2)).
      * reflexivity.
      * vm_compute. reflexivity.
      * vm_compute. reflexivity.
  - apply (proj1 (proj2 (keyset_page (fun _ _ => true) (fun s => s) 900
                           three_rows "u2" None
                           (Some {| cursor := Some cursor_without_uuid;
                                    limit := 1 |})))
             true cursor_without_uuid (JStr "abc") RoutesSpec.noon ValueError).
    + reflexivity.
    + vm_compute. reflexivity.
    + vm_compute. reflexivity.
  - apply (proj1 (proj2 (proj2 (keyset_page (fun _ _ => true) (fun s => s)
                                  900 three_rows "u2" None None)))
             default_row).
    reflexivity.
Defined.

(** Scenario S6 on the model: the page after the first row holds the second
    one, and one more record follows. *)
Example keyset_second_page :
  get_by_user_id_cursor false (fun _ _ => true) (fun s => s) 900 three_rows
    "u2" None (Some second_page) = Ok ([ServiceSpec.small_row], true).
Proof. vm_compute. reflexivity. Qed.

End KeysetSpec.

(* ===================================================================== *)
(** ** Cursors: what is decoded from what is encoded, and from anything
       else *)
(* ===================================================================== *)

Module CursorSpec.
Import Py Cursor Schemas Repository.

Lemma chr_ord c : chr (ord c) = c.
Proof. apply ascii_N_embedding. Qed.

Lemma ord_bound c : (ord c < 256)%N.
Proof. apply N_ascii_bounded. Qed.

Lemma list_string l : list_ascii_of_string (string_of_list_ascii l) = l.
Proof. apply list_ascii_of_string_of_list_ascii. Qed.

Lemma string_list s : string_of_list_ascii (list_ascii_of_string s) = s.
Proof. apply string_of_list_ascii_of_string. Qed.

(** Arithmetic with division and remainder by constants. *)
Ltac N_arith := zify; Z.to_euclidean_division_equations; lia.
Ltac Z_arith := Z.to_euclidean_division_equations; lia.

(** *** Base64 *)

Definition urlsafe (c : ascii) : ascii :=
  _urlsafe_decode_translation (_urlsafe_encode_translation c).

(** The characters of the alphabet are read back as the values they stand
    for, and none of them is the pad. *)
Lemma a2b_b2a v :
  (v < 64)%N ->
  a2b (urlsafe (b2a v)) = Some v
  /\ Ascii.eqb (urlsafe (b2a v)) PAD = false
  /\ (ord (_urlsafe_encode_translation (b2a v)) < 128)%N.
Proof.
  intros Hv.
  assert (Hall : forallb (fun n =>
            let v := N.of_nat n in
            bool_decide (a2b (urlsafe (b2a v)) = Some v)
            && negb (Ascii.eqb (urlsafe (b2a v)) PAD)
            && (ord (_urlsafe_encode_translation (b2a v)) <? 128)%N)
            (seq 0 64) = true) by (vm_compute; reflexivity).
  rewrite forallb_forall in Hall.
  specialize (Hall (N.to_nat v)).
  rewrite N2Nat.id in Hall. cbv zeta in Hall.
  assert (Hin : In (N.to_nat v) (seq 0 64)) by (apply in_seq; lia).
  apply Hall in Hin.
  apply andb_true_iff in Hin as [Hin H3].
  apply andb_true_iff in Hin as [H1 H2].
  apply bool_decide_eq_true in H1. apply negb_true_iff in H2.
  apply N.ltb_lt in H3. done.
Qed.

Lemma urlsafe_PAD : urlsafe PAD = PAD.
Proof. reflexivity. Qed.

Lemma a2b_base64_symbol v rest q lc p :
  (v < 64)%N ->
  a2b_base64 (urlsafe (b2a v) :: rest) q lc p
  = match q with
    | 0%nat => a2b_base64 rest 1 v 0
    | 1%nat => emit (chr (lc * 4 + v / 16)) (a2b_base64 rest 2 (v mod 16) 0)
    | 2%nat => emit (chr (lc * 16 + v / 4)) (a2b_base64 rest 3 (v mod 4) 0)
    | _ => emit (chr (lc * 64 + v)) (a2b_base64 rest 0 0 0)
    end%N.
Proof.
  intros Hv. destruct (a2b_b2a v Hv) as (H1 & H2 & _).
  cbn [a2b_base64]. rewrite H2, H1. reflexivity.
Qed.

(** Decoding undoes encoding, for every sequence of octets. *)
Lemma urlsafe_b64decode_encode l :
  urlsafe_b64decode (urlsafe_b64encode l) = Ok l.
Proof.
  unfold urlsafe_b64decode, urlsafe_b64encode, b64decode.
  rewrite map_map. fold urlsafe.
  induction l as [l IH] using (induction_ltof1 _ (@length ascii)).
  unfold ltof in IH.
  destruct l as [|a [|b [|c rest]]].
  - reflexivity.
  - pose proof (ord_bound a) as Ha.
    cbn [b64encode map].
    repeat (rewrite a2b_base64_symbol by N_arith; cbv beta iota).
    rewrite ?urlsafe_PAD. cbn.
    replace (ord a / 4 * 4 + ord a mod 4 * 16 / 16)%N with (ord a) by N_arith.
    by rewrite chr_ord.
  - pose proof (ord_bound a) as Ha. pose proof (ord_bound b) as Hb.
    cbn [b64encode map].
    repeat (rewrite a2b_base64_symbol by N_arith; cbv beta iota).
    rewrite ?urlsafe_PAD. cbn.
    replace (ord a / 4 * 4 + (ord a mod 4 * 16 + ord b / 16) / 16)%N
      with (ord a) by N_arith.
    replace ((ord a mod 4 * 16 + ord b / 16) mod 16 * 16
             + ord b mod 16 * 4 / 4)%N with (ord b) by N_arith.
    by rewrite !chr_ord.
  - pose proof (ord_bound a) as Ha. pose proof (ord_bound b) as Hb.
    pose proof (ord_bound c) as Hc.
    cbn [b64encode map].
    repeat (rewrite a2b_base64_symbol by N_arith; cbv beta iota).
    rewrite (IH rest) by (simpl; lia). cbn.
    replace (ord a / 4 * 4 + (ord a mod 4 * 16 + ord b / 16) / 16)%N
      with (ord a) by N_arith.
    replace ((ord a mod 4 * 16 + ord b / 16) mod 16 * 16
             + (ord b mod 16 * 4 + ord c / 64) / 4)%N with (ord b) by N_arith.
    replace ((ord b mod 16 * 4 + ord c / 64) mod 4 * 64 + ord c mod 64)%N
      with (ord c) by N_arith.
    by rewrite !chr_ord.
Qed.

(** *** Texts of printable ASCII characters *)

(** A printable ASCII character other than the quote and the backslash. *)
Definition plain (c : ascii) : bool :=
  ((32 <=? ord c) && (ord c <=? 126) && negb (ord c =? 34)
   && negb (ord c =? 92))%N.

Definition is_ascii (c : ascii) : bool := (ord c <? 128)%N.

Lemma plain_spec c :
  plain c = true ->
  (32 <= ord c <= 126)%N /\ ord c <> 34%N /\ ord c <> 92%N.
Proof.
  unfold plain. rewrite !andb_true_iff, !negb_true_iff.
  rewrite !N.leb_le, !N.eqb_neq. tauto.
Qed.

Lemma plain_is_ascii c : plain c = true -> is_ascii c = true.
Proof. intros H%plain_spec. apply N.ltb_lt. lia. Qed.

Lemma utf8_valid_ascii l : forallb is_ascii l = true -> utf8_valid l = true.
Proof.
  induction l as [|c l IH]; [done|]. cbn [forallb utf8_valid].
  intros [Hc Hl]%andb_true_iff. unfold is_ascii in Hc. rewrite Hc. auto.
Qed.

Lemma forallb_plain_ascii l :
  forallb plain l = true -> forallb is_ascii l = true.
Proof.
  rewrite !forallb_forall. intros H c Hc. apply plain_is_ascii. auto.
Qed.

Lemma b64encode_ascii l :
  forallb is_ascii (urlsafe_b64encode l) = true.
Proof.
  unfold urlsafe_b64encode.
  assert (Hsym : forall v, (v < 64)%N ->
            is_ascii (_urlsafe_encode_translation (b2a v)) = true).
  { intros v Hv. apply N.ltb_lt. by apply a2b_b2a. }
  induction l as [l IH] using (induction_ltof1 _ (@length ascii)).
  unfold ltof in IH.
  destruct l as [|a [|b [|c rest]]]; [reflexivity|..];
    pose proof (ord_bound a) as Ha;
    try pose proof (ord_bound b) as Hb;
    try pose proof (ord_bound c) as Hc;
    cbn [b64encode map forallb];
    rewrite ?Hsym by N_arith; rewrite ?IH by (simpl; lia); reflexivity.
Qed.

Lemma escape_ascii_plain l : forallb plain l = true -> escape_ascii l = l.
Proof.
  induction l as [|c l IH]; [done|]. cbn [forallb escape_ascii].
  intros [Hc%plain_spec Hl]%andb_true_iff. rewrite (IH Hl).
  repeat match goal with
  | |- context [(ord c =? ?k)%N] =>
      destruct (N.eqb_spec (ord c) k); [exfalso; lia|]
  end.
  replace ((32 <=? ord c) && (ord c <=? 126))%N with true; [done|].
  symmetry. apply andb_true_iff. rewrite !N.leb_le. lia.
Qed.

Lemma scanstring_plain l rest :
  forallb plain l = true ->
  scanstring (l ++ chr 34 :: rest) Normal None = Ok (l, rest).
Proof.
  induction l as [|c l IH]; [done|]. cbn [forallb].
  intros [Hc%plain_spec Hl]%andb_true_iff. cbn [app scanstring].
  destruct (N.eqb_spec (ord c) 34); [exfalso; lia|].
  destruct (N.eqb_spec (ord c) 92); [exfalso; lia|].
  destruct (N.ltb_spec (ord c) 32); [exfalso; lia|].
  rewrite (IH Hl). reflexivity.
Qed.

(** *** The JSON text of a cursor *)

Definition quote : ascii := chr 34.

(** One member of an object, from just after the opening quote of its key
    up to the closing quote of its value. *)
Definition member (k v : bytes) (rest : bytes) : bytes :=
  k ++ quote :: chr 58 :: chr 32 :: quote :: v ++ quote :: rest.

(** The text of a cursor with identifier [i] and timestamp [c]. *)
Definition cursor_text (i c : bytes) : bytes :=
  chr 123 :: quote
    :: member (list_ascii_of_string "created_at") c
         (chr 44 :: chr 32 :: quote
            :: member (list_ascii_of_string "id") i [chr 125]).

(** What [json.dumps] makes of the two entries. *)
Lemma json_dumps_cursor (i c : string) :
  forallb plain (list_ascii_of_string i) = true ->
  forallb plain (list_ascii_of_string c) = true ->
  list_ascii_of_string (json_dumps_sorted [("id", i); ("created_at", c)])
  = cursor_text (list_ascii_of_string i) (list_ascii_of_string c).
Proof.
  intros Hi Hc. unfold json_dumps_sorted. rewrite list_string.
  change (sorted_items [("id", i); ("created_at", c)])
    with [("created_at", c); ("id", i)].
  cbn [dumps_items]. unfold dumps_str.
  rewrite (escape_ascii_plain _ Hi), (escape_ascii_plain _ Hc).
  unfold cursor_text, member, quote. f_equal.
  repeat (rewrite <- app_assoc || rewrite <- app_comm_cons).
  reflexivity.
Qed.

(** A string of plain characters is scanned as itself. *)
Lemma scan_once_plain fuel depth l rest :
  forallb plain l = true ->
  scan_once (S fuel) depth (quote :: l ++ quote :: rest)
  = Ok (JStr (string_of_list_ascii l), rest).
Proof.
  intros Hl. cbn [scan_once].
  change (ord quote =? 34)%N with true. cbv iota.
  unfold quote. rewrite (scanstring_plain l rest Hl). reflexivity.
Qed.

Lemma object_members_value fuel depth d k v rest :
  forallb plain k = true -> forallb plain v = true ->
  object_members (S (S fuel)) depth d (member k v rest)
  = let d' := dict_set d (string_of_list_ascii k)
                (JStr (string_of_list_ascii v)) in
    match skip_ws rest with
    | c1 :: r1 =>
        if (ord c1 =? 125)%N then Ok (JObj d', r1)
        else if (ord c1 =? 44)%N then
          match skip_ws r1 with
          | c2 :: r2 =>
              if (ord c2 =? 34)%N then object_members (S fuel) depth d' r2
              else Raise JSONDecodeError
          | [] => Raise JSONDecodeError
          end
        else Raise JSONDecodeError
    | [] => Raise JSONDecodeError
    end.
Proof.
  intros Hk Hv. unfold member. cbn [object_members]. unfold quote at 1.
  rewrite (scanstring_plain k _ Hk). cbn [bind].
  change (skip_ws (chr 58 :: ?r)) with (chr 58 :: r).
  cbv iota. change (ord (chr 58) =? 58)%N with true. cbv iota.
  change (skip_ws (chr 32 :: quote :: ?r)) with (quote :: r).
  rewrite (scan_once_plain fuel depth v _ Hv). cbn [bind].
  reflexivity.
Qed.

(** The text that [encode_cursor] writes is read back as its dictionary. *)
Lemma scan_once_cursor fuel depth (i c : bytes) :
  forallb plain i = true -> forallb plain c = true ->
  scan_once (S (S (S (S fuel)))) (S depth) (cursor_text i c)
  = Ok (JObj [("created_at", JStr (string_of_list_ascii c));
              ("id", JStr (string_of_list_ascii i))], []).
Proof.
  intros Hi Hc. unfold cursor_text. cbn [scan_once].
  change (ord (chr 123) =? 34)%N with false.
  change (ord (chr 123) =? 123)%N with true. cbv iota.
  change (skip_ws (quote :: ?r)) with (quote :: r). cbv iota.
  change (ord quote =? 125)%N with false.
  change (ord quote =? 34)%N with true. cbv iota.
  rewrite object_members_value by (done || (vm_compute; reflexivity)).
  cbv zeta.
  change (skip_ws (chr 44 :: chr 32 :: quote :: ?r))
    with (chr 44 :: chr 32 :: quote :: r). cbv iota.
  change (ord (chr 44) =? 125)%N with false.
  change (ord (chr 44) =? 44)%N with true. cbv iota.
  change (skip_ws (chr 32 :: quote :: ?r)) with (quote :: r). cbv iota.
  change (ord quote =? 34)%N with true. cbv iota.
  rewrite object_members_value by (done || (vm_compute; reflexivity)).
  reflexivity.
Qed.

Lemma json_loads_cursor headroom (i c : string) :
  (0 < headroom)%nat ->
  forallb plain (list_ascii_of_string i) = true ->
  forallb plain (list_ascii_of_string c) = true ->
  json_loads headroom (json_dumps_sorted [("id", i); ("created_at", c)])
  = Ok (JObj [("created_at", JStr c); ("id", JStr i)]).
Proof.
  intros Hh Hi Hc. unfold json_loads. cbv zeta.
  rewrite (json_dumps_cursor i c Hi Hc).
  destruct headroom as [|depth]; [lia|].
  set (text := cursor_text _ _).
  replace (S (2 * length text)) with (S (S (S (S (2 * length text - 3)))))
    by (unfold text, cursor_text; simpl length; lia).
  change (skip_ws text) with text. unfold text.
  rewrite (scan_once_cursor _ depth _ _ Hi Hc). cbn [bind skip_ws].
  by rewrite !string_list.
Qed.

(** *** ISO-8601 texts *)

Lemma ord_digit n : ord (digit n) = Z.to_N (48 + n mod 10).
Proof.
  unfold digit. apply KeysetSpec.ord_chr.
  pose proof (Z.mod_pos_bound n 10 ltac:(lia)). lia.
Qed.

Lemma is_digit_digit n : is_digit (digit n) = true.
Proof.
  unfold is_digit, in_range. cbv zeta. rewrite ord_digit.
  pose proof (Z.mod_pos_bound n 10 ltac:(lia)).
  apply andb_true_iff. rewrite !N.leb_le. lia.
Qed.

Lemma digit_value n : Z.of_N (ord (digit n) - 48) = n mod 10.
Proof.
  rewrite ord_digit. pose proof (Z.mod_pos_bound n 10 ltac:(lia)). lia.
Qed.

Lemma parse_digits_digit k acc n r :
  parse_digits (S k) acc (digit n :: r)
  = parse_digits k (acc * 10 + n mod 10) r.
Proof. cbn [parse_digits]. by rewrite is_digit_digit, digit_value. Qed.

Lemma parse_digits_pad2 n r :
  0 <= n < 100 -> parse_digits 2 0 (pad2 n ++ r) = Some (n, r).
Proof.
  intros Hn. unfold pad2. cbn [app]. rewrite !parse_digits_digit.
  cbn [parse_digits]. do 2 f_equal. Z_arith.
Qed.

Lemma parse_digits_pad4 n r :
  0 <= n < 10000 -> parse_digits 4 0 (pad4 n ++ r) = Some (n, r).
Proof.
  intros Hn. unfold pad4. cbn [app]. rewrite !parse_digits_digit.
  cbn [parse_digits]. do 2 f_equal. Z_arith.
Qed.

Lemma parse_digits_pad6 n r :
  0 <= n < 1000000 -> parse_digits 6 0 (pad6 n ++ r) = Some (n, r).
Proof.
  intros Hn. unfold pad6. cbn [app]. rewrite !parse_digits_digit.
  cbn [parse_digits]. do 2 f_equal. Z_arith.
Qed.

(** The characters of the time of day: digits, colons and the dot. *)
Definition time_char (c : ascii) : bool :=
  is_digit c || Ascii.eqb c colon || Ascii.eqb c dot.

Lemma time_char_digit n : time_char (digit n) = true.
Proof. unfold time_char. by rewrite is_digit_digit. Qed.

Lemma time_char_no_sign c :
  time_char c = true -> Ascii.eqb c hyphen = false /\ Ascii.eqb c plus = false.
Proof.
  unfold time_char, is_digit, in_range. cbv zeta. intros H.
  split.
  - destruct (Ascii.eqb_spec c hyphen) as [->|]; [|done].
    vm_compute in H. discriminate.
  - destruct (Ascii.eqb_spec c plus) as [->|]; [|done].
    vm_compute in H. discriminate.
Qed.

Lemma split_at_absent c l :
  forallb (fun x => negb (Ascii.eqb x c)) l = true -> split_at c l = None.
Proof.
  induction l as [|x l IH]; [done|]. cbn [forallb split_at].
  intros [Hx Hl]%andb_true_iff. apply negb_true_iff in Hx.
  by rewrite Hx, (IH Hl).
Qed.

Lemma split_at_first c l r :
  forallb (fun x => negb (Ascii.eqb x c)) l = true ->
  split_at c (l ++ c :: r) = Some (l, r).
Proof.
  induction l as [|x l IH]; cbn [forallb app split_at].
  - by rewrite Ascii.eqb_refl.
  - intros [Hx Hl]%andb_true_iff. apply negb_true_iff in Hx.
    by rewrite Hx, (IH Hl).
Qed.

Lemma time_chars_no_hyphen l :
  forallb time_char l = true ->
  forallb (fun x => negb (Ascii.eqb x hyphen)) l = true.
Proof.
  rewrite !forallb_forall. intros H x Hx.
  by rewrite (proj1 (time_char_no_sign x (H x Hx))).
Qed.

Lemma time_chars_no_plus l :
  forallb time_char l = true ->
  forallb (fun x => negb (Ascii.eqb x plus)) l = true.
Proof.
  rewrite !forallb_forall. intros H x Hx.
  by rewrite (proj2 (time_char_no_sign x (H x Hx))).
Qed.

(** [.ffffff], when there are microseconds. *)
Definition fraction_text (us : Z) : bytes :=
  if us =? 0 then [] else dot :: pad6 us.

(** [HH:MM:SS[.ffffff]]. *)
Definition time_text (h m s us : Z) : bytes :=
  pad2 h ++ colon :: pad2 m ++ colon :: pad2 s ++ fraction_text us.

Lemma time_chars_pad2 n : forallb time_char (pad2 n) = true.
Proof. unfold pad2. cbn [forallb]. by rewrite !time_char_digit. Qed.

Lemma time_chars_pad6 n : forallb time_char (pad6 n) = true.
Proof. unfold pad6. cbn [forallb]. by rewrite !time_char_digit. Qed.

Lemma time_chars_fraction us : forallb time_char (fraction_text us) = true.
Proof.
  unfold fraction_text. destruct (us =? 0); [done|].
  cbn [forallb]. by rewrite time_chars_pad6.
Qed.

Lemma time_chars_time h m s us : forallb time_char (time_text h m s us) = true.
Proof.
  unfold time_text.
  rewrite !forallb_app, !time_chars_pad2. cbn [forallb].
  rewrite !forallb_app, !time_chars_pad2. cbn [forallb].
  rewrite !forallb_app, !time_chars_pad2. by rewrite time_chars_fraction.
Qed.

Lemma parse_time_text h m s us :
  0 <= h < 100 -> 0 <= m < 100 -> 0 <= s < 100 -> 0 <= us < 1000000 ->
  parse_hh_mm_ss_ff (time_text h m s us) = Some (h, m, s, us).
Proof.
  intros Hh Hm Hs Hus. unfold parse_hh_mm_ss_ff, time_text.
  rewrite (parse_digits_pad2 h _ Hh).
  change (negb (colon =? colon)%char) with false. cbv iota.
  rewrite (parse_digits_pad2 m _ Hm).
  change (negb (colon =? colon)%char) with false. cbv iota.
  rewrite (parse_digits_pad2 s _ Hs).
  unfold fraction_text. destruct (Z.eqb_spec us 0) as [->|Hne]; [done|].
  change (dot =? dot)%char with true. cbv iota.
  change (length (pad6 us) =? 6)%nat with true. cbv iota.
  rewrite <- (app_nil_r (pad6 us)). by rewrite (parse_digits_pad6 us _ Hus).
Qed.

Lemma parse_hh_mm h m :
  0 <= h < 100 -> 0 <= m < 100 ->
  parse_hh_mm_ss_ff (pad2 h ++ colon :: pad2 m) = Some (h, m, 0, 0).
Proof.
  intros Hh Hm. unfold parse_hh_mm_ss_ff.
  rewrite (parse_digits_pad2 h _ Hh).
  change (negb (colon =? colon)%char) with false. cbv iota.
  rewrite <- (app_nil_r (pad2 m)). by rewrite (parse_digits_pad2 m _ Hm).
Qed.

(** The offset [HH:MM[:SS[.ffffff]]] of [a] microseconds. *)
Definition offset_text (a : Z) : bytes :=
  let hh := a / 3600000000 in
  let mm := (a mod 3600000000) / 60000000 in
  let ss := (a mod 60000000) / 1000000 in
  let us := a mod 1000000 in
  pad2 hh ++ colon :: pad2 mm
    ++ (if (ss =? 0) && (us =? 0) then []
        else colon :: pad2 ss ++ (if us =? 0 then [] else dot :: pad6 us)).

Lemma format_offset_text off :
  format_offset (Some off)
  = (if off <? 0 then hyphen else plus) :: offset_text (Z.abs off).
Proof. reflexivity. Qed.

Lemma parse_offset_text a :
  0 <= a < day_us ->
  exists h m s us,
    parse_hh_mm_ss_ff (offset_text a) = Some (h, m, s, us)
    /\ ((h * 60 + m) * 60 + s) * 1000000 + us = a
    /\ (let n := length (offset_text a) in
        negb ((n =? 5) || (n =? 8) || (n =? 15))%nat = false)
    /\ forallb time_char (offset_text a) = true.
Proof.
  unfold day_us. intros Ha. unfold offset_text. cbv zeta.
  set (hh := a / 3600000000). set (mm := a mod 3600000000 / 60000000).
  set (ss := a mod 60000000 / 1000000). set (us := a mod 1000000).
  assert (Hhh : 0 <= hh < 100) by (subst hh; Z_arith).
  assert (Hmm : 0 <= mm < 100) by (subst mm; Z_arith).
  assert (Hss : 0 <= ss < 100) by (subst ss; Z_arith).
  assert (Hus : 0 <= us < 1000000) by (subst us; Z_arith).
  assert (Hsum : ((hh * 60 + mm) * 60 + ss) * 1000000 + us = a)
    by (subst hh mm ss us; Z_arith).
  destruct ((ss =? 0) && (us =? 0)) eqn:Hz.
  - apply andb_true_iff in Hz as [Hs0%Z.eqb_eq Hu0%Z.eqb_eq].
    exists hh, mm, 0, 0. split; [by apply parse_hh_mm|].
    split; [lia|]. split; [reflexivity|].
    rewrite forallb_app, time_chars_pad2. cbn [forallb].
    by rewrite forallb_app, time_chars_pad2.
  - exists hh, mm, ss, us.
    change (pad2 hh ++ colon :: pad2 mm ++ colon :: pad2 ss
              ++ (if us =? 0 then [] else dot :: pad6 us))
      with (time_text hh mm ss us).
    split; [by apply parse_time_text|]. split; [done|].
    split; [|apply time_chars_time].
    unfold time_text, fraction_text. destruct (us =? 0); reflexivity.
Qed.

Lemma time_text_length h m s us rest :
  (length (time_text h m s us ++ rest) <? 2)%nat = false.
Proof.
  apply Nat.ltb_ge. rewrite length_app. unfold time_text, pad2.
  cbn [app length]. lia.
Qed.

(** The time of day and the offset are read back from what [isoformat]
    writes after the separator. *)
Lemma parse_isoformat_time_text h m s us tz :
  0 <= h < 100 -> 0 <= m < 100 -> 0 <= s < 100 -> 0 <= us < 1000000 ->
  match tz with Some off => - day_us < off < day_us | None => True end ->
  parse_isoformat_time (time_text h m s us ++ format_offset tz)
  = Some (h, m, s, us, tz).
Proof.
  intros Hh Hm Hs Hus Htz. unfold parse_isoformat_time.
  rewrite time_text_length. cbv beta zeta.
  pose proof (time_chars_time h m s us) as Htime.
  destruct tz as [off|].
  - rewrite format_offset_text.
    destruct (parse_offset_text (Z.abs off)) as (h' & m' & s' & us' & Hp & Hsum & Hlen & Hchars);
      [lia|].
    cbv zeta in Hlen.
    destruct (Z.ltb_spec off 0) as [Hneg|Hpos].
    + rewrite (split_at_first hyphen _ _ (time_chars_no_hyphen _ Htime)).
      rewrite (parse_time_text h m s us Hh Hm Hs Hus), Hlen, Hp, Hsum.
      do 3 f_equal. lia.
    + rewrite split_at_absent.
      2:{ rewrite forallb_app, (time_chars_no_hyphen _ Htime).
          cbn [forallb]. by rewrite (time_chars_no_hyphen _ Hchars). }
      rewrite (split_at_first plus _ _ (time_chars_no_plus _ Htime)).
      rewrite (parse_time_text h m s us Hh Hm Hs Hus), Hlen, Hp, Hsum.
      do 3 f_equal. lia.
  - cbn [format_offset]. rewrite app_nil_r.
    rewrite (split_at_absent _ _ (time_chars_no_hyphen _ Htime)).
    rewrite (split_at_absent _ _ (time_chars_no_plus _ Htime)).
    by rewrite (parse_time_text h m s us Hh Hm Hs Hus).
Qed.

(** What [isoformat] writes. *)
Lemma isoformat_text d :
  list_ascii_of_string (isoformat d)
  = pad4 (year d) ++ hyphen :: pad2 (month d) ++ hyphen :: pad2 (day d)
    ++ chr 84 :: time_text (hour d) (minute d) (second d) (microsecond d)
    ++ format_offset (tzinfo d).
Proof.
  unfold isoformat, time_text, fraction_text. rewrite list_string.
  repeat (rewrite <- app_assoc || rewrite <- app_comm_cons). reflexivity.
Qed.

Lemma datetime_ok_spec d :
  datetime_ok d = true ->
  1 <= year d <= 9999 /\ 1 <= month d <= 12 /\ 1 <= day d <= 31
  /\ 0 <= hour d <= 23 /\ 0 <= minute d <= 59 /\ 0 <= second d <= 59
  /\ 0 <= microsecond d <= 999999
  /\ match tzinfo d with
     | Some off => - day_us < off < day_us
     | None => True
     end.
Proof.
  unfold datetime_ok. intros H.
  apply andb_true_iff in H as [H Htz].
  repeat match type of H with
         | _ && _ = true =>
             let H' := fresh "H" in
             apply andb_true_iff in H as [H H']; apply Z.leb_le in H'
         end.
  apply Z.leb_le in H.
  assert (days_in_month (year d) (month d) <= 31).
  { unfold days_in_month. repeat case_match; lia. }
  repeat split; try lia.
  destruct (tzinfo d); [|done].
  apply andb_true_iff in Htz. rewrite !Z.ltb_lt in Htz. lia.
Qed.

Lemma time_fields_nonempty (t : bytes) :
  t <> [] ->
  match t with
  | [] => Some (0, 0, 0, 0, None)
  | a :: l => parse_isoformat_time (a :: l)
  end = parse_isoformat_time t.
Proof. by destruct t. Qed.

(** [fromisoformat] reads back what [isoformat] writes. *)
Lemma fromisoformat_isoformat d :
  datetime_ok d = true -> fromisoformat (isoformat d) = Ok d.
Proof.
  intros Hok.
  destruct (datetime_ok_spec d Hok)
    as (Hy & Hm & Hd & Hh & Hmi & Hs & Hus & Htz).
  unfold fromisoformat. rewrite isoformat_text.
  unfold parse_isoformat_date.
  rewrite parse_digits_pad4 by lia.
  change (expect hyphen (hyphen :: ?r)) with (Some r). cbv iota.
  rewrite parse_digits_pad2 by lia.
  change (expect hyphen (hyphen :: ?r)) with (Some r). cbv iota.
  rewrite parse_digits_pad2 by lia. cbv iota beta.
  assert (Hsep : forall t, drop_separator
            (chr 84 :: time_text (hour d) (minute d) (second d)
                         (microsecond d) ++ t)
          = time_text (hour d) (minute d) (second d) (microsecond d) ++ t).
  { intros t. unfold drop_separator, time_text, pad2. cbn [app].
    cbn [drop_continuation].
    replace (is_continuation (digit (hour d / 10))) with false; [done|].
    symmetry. unfold is_continuation. cbv zeta. rewrite ord_digit.
    pose proof (Z.mod_pos_bound (hour d / 10) 10 ltac:(lia)).
    apply andb_false_iff. left. apply N.leb_gt. lia. }
  rewrite Hsep, time_fields_nonempty.
  2:{ unfold time_text, pad2. cbn [app]. discriminate. }
  rewrite parse_isoformat_time_text by (done || lia).
  destruct d. cbn [year month day hour minute second microsecond tzinfo] in *.
  by rewrite Hok.
Qed.


Lemma plain_intro c :
  (32 <= ord c <= 126)%N -> ord c <> 34%N -> ord c <> 92%N -> plain c = true.
Proof.
  intros H1 H2 H3. unfold plain.
  rewrite !andb_true_iff, !negb_true_iff, !N.leb_le, !N.eqb_neq. tauto.
Qed.

Lemma plain_digit n : plain (digit n) = true.
Proof.
  pose proof (Z.mod_pos_bound n 10 ltac:(lia)).
  apply plain_intro; rewrite ord_digit; lia.
Qed.

Lemma plain_hex_digit v : (v < 16)%N -> plain (hex_digit v) = true.
Proof.
  intros Hv. unfold hex_digit.
  destruct (N.ltb_spec v 10); apply plain_intro;
    rewrite KeysetSpec.ord_chr; lia.
Qed.

Lemma plain_hex_digits k n : forallb plain (hex_digits k n) = true.
Proof.
  induction k as [|k IH]; [done|]. cbn [hex_digits forallb].
  rewrite IH, plain_hex_digit; [done|]. apply N.mod_lt. lia.
Qed.

Lemma forallb_take {A} (f : A -> bool) k l :
  forallb f l = true -> forallb f (take k l) = true.
Proof.
  revert l. induction k as [|k IH]; intros [|x l]; try done.
  cbn [take forallb]. intros [-> Hl]%andb_true_iff. by rewrite IH.
Qed.

Lemma forallb_drop {A} (f : A -> bool) k l :
  forallb f l = true -> forallb f (drop k l) = true.
Proof.
  revert l. induction k as [|k IH]; intros [|x l]; try done.
  cbn [drop forallb]. intros [_ Hl]%andb_true_iff. by apply IH.
Qed.

(** The canonical text of a UUID is made of plain characters. *)
Lemma plain_uuid_str u : forallb plain (list_ascii_of_string (uuid_str u)) = true.
Proof.
  unfold uuid_str. cbv zeta. rewrite list_string.
  pose proof (plain_hex_digits 32 u) as H.
  repeat (rewrite forallb_app || cbn [forallb]
          || rewrite forallb_take by (auto using forallb_drop)).
  by rewrite (forallb_drop _ 20 _ H).
Qed.

Lemma plain_pad2 n : forallb plain (pad2 n) = true.
Proof. unfold pad2. cbn [forallb]. by rewrite !plain_digit. Qed.

Lemma plain_pad4 n : forallb plain (pad4 n) = true.
Proof. unfold pad4. cbn [forallb]. by rewrite !plain_digit. Qed.

Lemma plain_pad6 n : forallb plain (pad6 n) = true.
Proof. unfold pad6. cbn [forallb]. by rewrite !plain_digit. Qed.

(** So is what [isoformat] writes. *)
Lemma plain_isoformat d :
  forallb plain (list_ascii_of_string (isoformat d)) = true.
Proof.
  unfold isoformat, format_offset. rewrite list_string.
  repeat (rewrite forallb_app || cbn [forallb]
          || rewrite plain_pad2 || rewrite plain_pad4 || rewrite plain_pad6
          || case_match).
  all: reflexivity.
Qed.

(** *** The texts that [uuid.UUID] accepts *)

Lemma strip_prefix_app lit : forall s rest,
  strip_prefix lit s = Some rest -> s = lit ++ rest.
Proof.
  induction lit as [|a lit IH]; intros s rest H; cbn [strip_prefix] in H.
  - by injection H as <-.
  - destruct s as [|c s]; [discriminate|].
    destruct (Ascii.eqb_spec a c) as [->|]; [|discriminate].
    by rewrite (IH _ _ H).
Qed.

Lemma remove_all_plain pat :
  forallb plain pat = true ->
  forall s skip,
    forallb plain (take skip s) = true ->
    forallb plain (remove_all pat skip s) = true ->
    forallb plain s = true.
Proof.
  intros Hpat. induction s as [|c r IH]; intros skip Htake Hrem; [done|].
  cbn [forallb]. destruct skip as [|k].
  - cbn [remove_all] in Hrem.
    destruct pat as [|p pat'].
    { cbn [forallb] in Hrem. apply andb_true_iff in Hrem as [-> Hrem].
      by rewrite (IH 0%nat). }
    destruct (strip_prefix (p :: pat') (c :: r)) as [rest|] eqn:Hs.
    + apply strip_prefix_app in Hs. injection Hs as -> ->.
      cbn [forallb] in Hpat. apply andb_true_iff in Hpat as [Hp Hpat'].
      rewrite Hp. apply (IH (length pat')); [|done].
      by rewrite take_app_length.
    + cbn [forallb] in Hrem. apply andb_true_iff in Hrem as [-> Hrem].
      by rewrite (IH 0%nat).
  - cbn [take forallb] in Htake. apply andb_true_iff in Htake as [-> Htake].
    cbn [remove_all] in Hrem. by rewrite (IH k).
Qed.

Lemma plain_brace c : is_brace c = true -> plain c = true.
Proof.
  unfold is_brace. intros [H%N.eqb_eq | H%N.eqb_eq]%orb_true_iff;
    apply plain_intro; lia.
Qed.

Lemma lstrip_braces_plain s :
  forallb plain (lstrip_braces s) = true -> forallb plain s = true.
Proof.
  induction s as [|c r IH]; [done|]. cbn [lstrip_braces forallb].
  destruct (is_brace c) eqn:Hb; [|done].
  intros H. by rewrite (plain_brace c Hb), IH.
Qed.

Lemma forallb_rev {A} (f : A -> bool) l :
  forallb f (rev l) = true <-> forallb f l = true.
Proof.
  rewrite !forallb_forall. split; intros H x Hx; apply H.
  - by apply in_rev in Hx.
  - by apply in_rev.
Qed.

Lemma strip_braces_plain s :
  forallb plain (strip_braces s) = true -> forallb plain s = true.
Proof.
  unfold strip_braces. intros H.
  apply (proj1 (forallb_rev _ _)), lstrip_braces_plain in H.
  apply (proj1 (forallb_rev _ _)) in H. by apply lstrip_braces_plain.
Qed.

Lemma plain_hex_value c d : hex_value c = Some d -> plain c = true.
Proof.
  unfold hex_value. cbv zeta. intros H. apply plain_intro;
    repeat match type of H with
    | (if ?b then _ else _) = _ =>
        let Hb := fresh "Hb" in
        destruct b eqn:Hb;
        [apply andb_true_iff in Hb; rewrite !N.leb_le in Hb; lia|]
    end; discriminate.
Qed.

Lemma hex_number_plain s : forall acc n,
  hex_number acc s = Some n -> forallb plain s = true.
Proof.
  induction s as [|c r IH]; intros acc n H; [done|].
  cbn [hex_number] in H. cbn [forallb].
  destruct (hex_value c) as [d|] eqn:Hc; [|discriminate].
  by rewrite (plain_hex_value c d Hc), (IH _ _ H).
Qed.

(** Every text that [UUID] accepts is made of plain characters. *)
Lemma plain_UUID s n :
  UUID s = Ok n -> forallb plain (list_ascii_of_string s) = true.
Proof.
  unfold UUID. cbv zeta. destruct (negb _); [discriminate|].
  destruct (hex_number 0 _) as [m|] eqn:H; [|discriminate]. intros _.
  apply hex_number_plain in H.
  apply (remove_all_plain [hyphen] eq_refl _ 0%nat eq_refl) in H.
  apply strip_braces_plain in H.
  apply (remove_all_plain (list_ascii_of_string "uuid:") eq_refl _ 0%nat
           eq_refl) in H.
  by apply (remove_all_plain (list_ascii_of_string "urn:") eq_refl _ 0%nat
              eq_refl) in H.
Qed.

(** *** Decoding what [encode_cursor] writes *)

Lemma cursor_text_ascii i c :
  forallb plain i = true -> forallb plain c = true ->
  forallb is_ascii (cursor_text i c) = true.
Proof.
  intros Hi%forallb_plain_ascii Hc%forallb_plain_ascii.
  unfold cursor_text, member. cbn [forallb].
  repeat (rewrite forallb_app; cbn [forallb]).
  rewrite Hi, Hc. reflexivity.
Qed.

(** The round trip for an identifier of plain characters. *)
Lemma decode_encode_plain (headroom : nat) (transaction_id : string)
    (created_at : datetime) :
  (0 < headroom)%nat ->
  forallb plain (list_ascii_of_string transaction_id) = true ->
  datetime_ok created_at = true ->
  exists c,
    encode_cursor transaction_id created_at = Ok c
    /\ decode_cursor headroom c = Ok (Some (JStr transaction_id, created_at)).
Proof.
  intros Hh Hid Hok. pose proof (plain_isoformat created_at) as Hiso.
  unfold encode_cursor. cbv zeta.
  set (json_str := json_dumps_sorted _).
  assert (Hraw : utf8_valid (list_ascii_of_string json_str) = true).
  { apply utf8_valid_ascii. unfold json_str.
    rewrite (json_dumps_cursor _ _ Hid Hiso). by apply cursor_text_ascii. }
  unfold str_encode at 1. rewrite Hraw. cbn [bind].
  set (raw := list_ascii_of_string json_str) in *.
  assert (Hb64 : utf8_valid (urlsafe_b64encode raw) = true)
    by apply utf8_valid_ascii, b64encode_ascii.
  unfold bytes_decode at 1. rewrite Hb64.
  eexists. split; [reflexivity|].
  unfold decode_cursor, decode_cursor_try, str_encode.
  rewrite list_string, Hb64. cbn [bind].
  rewrite urlsafe_b64decode_encode. cbn [bind].
  unfold bytes_decode. rewrite Hraw. cbn [bind].
  unfold raw. rewrite string_list. unfold json_str.
  rewrite (json_loads_cursor headroom _ _ Hh Hid Hiso). cbn [bind].
  change (getitem (JObj ?d) "id") with (Ok (JStr transaction_id)).
  cbn [bind].
  change (getitem (JObj ?d) "created_at")
    with (Ok (JStr (isoformat created_at))).
  cbn [bind fromisoformat_value].
  by rewrite (fromisoformat_isoformat created_at Hok).
Qed.

(** C8.  For every text that [uuid.UUID] accepts and every [datetime], with
    or without offset, [encode_cursor] returns a cursor, and [decode_cursor]
    reads it back as the very same identifier and timestamp, provided the
    recursion limit leaves room for the one nested call that reading a JSON
    object takes. *)
Theorem decode_cursor_encode_cursor (headroom : nat) (transaction_id : string)
    (u : N) (created_at : datetime) :
  (0 < headroom)%nat ->
  UUID transaction_id = Ok u ->
  datetime_ok created_at = true ->
  exists c,
    encode_cursor transaction_id created_at = Ok c
    /\ decode_cursor headroom c = Ok (Some (JStr transaction_id, created_at)).
Proof.
  intros Hh Hu Hok. apply decode_encode_plain; [done| |done].
  by apply (plain_UUID transaction_id u).
Qed.

Lemma decode_cursor_encode_cursor_witness :
  exists c,
    encode_cursor RoutesSpec.id_of_row RoutesSpec.noon = Ok c
    /\ decode_cursor 900 c
       = Ok (Some (JStr RoutesSpec.id_of_row, RoutesSpec.noon)).
Proof.
  apply (decode_cursor_encode_cursor 900 RoutesSpec.id_of_row
           (id RoutesSpec.row_of_u2) RoutesSpec.noon).
  - lia.
  - vm_compute. reflexivity.
  - vm_compute. reflexivity.
Defined.

(** The cursor of that row, as the interpreter makes it. *)
Example encode_cursor_of_row :
  encode_cursor RoutesSpec.id_of_row RoutesSpec.noon
  = Ok ServiceSpec.cursor_a.
Proof. vm_compute. reflexivity. Qed.

(** The identifiers of the records are written in the canonical form. *)
Corollary decode_cursor_of_record (headroom : nat) (t : Transaction) :
  (0 < headroom)%nat -> datetime_ok (created_at t) = true ->
  exists c,
    encode_cursor (uuid_str (id t)) (created_at t) = Ok c
    /\ decode_cursor headroom c
       = Ok (Some (JStr (uuid_str (id t)), created_at t)).
Proof.
  intros Hh Hok. apply decode_encode_plain; [done| |done].
  apply plain_uuid_str.
Qed.

(** *** What [decode_cursor] does on an arbitrary text *)

(** What a parsing step may do: return with a strictly shorter text, or
    raise [JSONDecodeError]. *)
Definition consumes {A} (s : bytes) (r : res (A * bytes)) : Prop :=
  match r with
  | Ok (_, rest) => (length rest < length s)%nat
  | Raise e => e = JSONDecodeError
  end.

Lemma skip_ws_length s : (length (skip_ws s) <= length s)%nat.
Proof.
  induction s as [|c s IH]; simpl; [lia|]. destruct (is_ws c); simpl; lia.
Qed.

Lemma consumes_prepend s l m : consumes s m -> consumes s (prepend l m).
Proof. destruct m as [[c r]|e]; simpl; auto. Qed.

Lemma consumes_weaken {A} (s s' : bytes) (r : res (A * bytes)) :
  (length s <= length s')%nat -> consumes s r -> consumes s' r.
Proof. destruct r as [[v rest]|e]; simpl; [lia|done]. Qed.

Lemma scanstring_consumes s : forall st high,
  consumes s (scanstring s st high).
Proof.
  induction s as [|c s IH]; intros st high; [reflexivity|].
  assert (Hstep : forall m : res (bytes * bytes),
            consumes s m -> consumes (c :: s) m).
  { intros m. apply consumes_weaken. simpl. lia. }
  cbn [scanstring]. destruct st as [| |k acc].
  - repeat case_match; try reflexivity; simpl; try lia;
      auto using consumes_prepend.
  - repeat case_match; try reflexivity; auto using consumes_prepend.
  - repeat case_match; try reflexivity; auto using consumes_prepend.
Qed.

Lemma span_digits_length s :
  (length (span_digits s).2 <= length s)%nat.
Proof.
  induction s as [|c s IH]; simpl; [lia|].
  destruct (is_digit c); simpl; [|lia].
  destruct (span_digits s) as [ds rest]. simpl in *. lia.
Qed.

Lemma strip_prefix_length lit : forall s rest,
  strip_prefix lit s = Some rest ->
  (length rest + length lit = length s)%nat.
Proof.
  induction lit as [|a lit IH]; intros s rest H; simpl in *.
  - injection H as <-. lia.
  - destruct s as [|c s]; [discriminate|].
    destruct (Ascii.eqb a c); [|discriminate]. apply IH in H. simpl. lia.
Qed.

Lemma literal_consumes lit v s x :
  lit <> EmptyString -> literal lit v s = Some x ->
  consumes s (Ok x).
Proof.
  unfold literal. intros Hne H.
  destruct (strip_prefix _ s) as [rest|] eqn:Hs; [|discriminate].
  injection H as <-. apply strip_prefix_length in Hs. simpl.
  destruct lit; [done|]. simpl in Hs. lia.
Qed.

Lemma number_sign_length s : (length (number_sign s).2 <= length s)%nat.
Proof.
  destruct s as [|c r]; simpl; [lia|]. destruct (_ =? _)%N; simpl; lia.
Qed.

Lemma number_int_length s ip rest :
  number_int s = Some (ip, rest) -> (length rest < length s)%nat.
Proof.
  destruct s as [|c r]; simpl; [discriminate|].
  destruct (_ =? _)%N; [intros [= <- <-]; simpl; lia|].
  destruct (is_digit c); [|discriminate].
  pose proof (span_digits_length r) as Hs.
  destruct (span_digits r) as [ds rest']. intros [= <- <-]. simpl in *. lia.
Qed.

Lemma number_frac_length s : (length (number_frac s).2 <= length s)%nat.
Proof.
  destruct s as [|c r]; simpl; [lia|]. destruct (_ =? _)%N; simpl; [|lia].
  pose proof (span_digits_length r) as Hs.
  destruct (span_digits r) as [[|d ds] rest]; simpl in *; lia.
Qed.

Lemma number_exp_length s : (length (number_exp s).2 <= length s)%nat.
Proof.
  destruct s as [|e r]; simpl; [lia|]. destruct (_ || _); simpl; [|lia].
  destruct r as [|c r']; simpl; [lia|].
  destruct (_ || _).
  - pose proof (span_digits_length r') as Hs.
    destruct (span_digits r') as [[|d ds] rest]; simpl in *; lia.
  - pose proof (span_digits_length (c :: r')) as Hs.
    destruct (span_digits (c :: r')) as [[|d ds] rest]; simpl in *; lia.
Qed.

Lemma match_number_consumes s x :
  match_number s = Some x -> consumes s (Ok x).
Proof.
  unfold match_number. intros H.
  pose proof (number_sign_length s) as H1.
  destruct (number_sign s) as [sign s1]. simpl in H1.
  destruct (number_int s1) as [[ip s2]|] eqn:Hint; [|discriminate].
  apply number_int_length in Hint.
  pose proof (number_frac_length s2) as H3.
  destruct (number_frac s2) as [frac s3]. simpl in H3.
  pose proof (number_exp_length s3) as H4.
  destruct (number_exp s3) as [exp s4]. simpl in H4.
  destruct frac, exp; injection H as <-; simpl; lia.
Qed.

Lemma scan_atom_consumes s : consumes s (scan_atom s).
Proof.
  unfold scan_atom.
  repeat match goal with
  | |- context [literal ?lit ?v s] =>
      let H := fresh "H" in
      destruct (literal lit v s) eqn:H;
      [by apply (literal_consumes lit v s) |]
  | |- context [match_number s] =>
      let H := fresh "H" in
      destruct (match_number s) eqn:H; [by apply match_number_consumes |]
  end.
  reflexivity.
Qed.

(** What a scan of a value at depth [depth] may do: return with a strictly
    shorter text, raise [JSONDecodeError], or, on a text longer than
    [depth], raise [RecursionError]. *)
Definition scans {A} (depth : nat) (s : bytes) (r : res (A * bytes)) : Prop :=
  match r with
  | Ok (_, rest) => (length rest < length s)%nat
  | Raise e =>
      e = JSONDecodeError \/ (e = RecursionError /\ (depth < length s)%nat)
  end.

Lemma scans_consumes {A} depth (s : bytes) (r : res (A * bytes)) :
  consumes s r -> scans depth s r.
Proof. destruct r as [[v rest]|e]; simpl; auto. Qed.

Lemma scans_weaken {A} depth depth' (s s' : bytes) (r : res (A * bytes)) :
  (length s <= length s')%nat ->
  (depth' + length s <= depth + length s')%nat ->
  scans depth s r -> scans depth' s' r.
Proof.
  destruct r as [[v rest]|e]; simpl; [lia|].
  intros H1 H2 [-> | [-> H]]; [by left|]. right. split; [done|lia].
Qed.

(** With enough fuel, the three mutually recursive scanners return with a
    shorter text or raise one of the two exceptions: the fuel never runs
    out. *)
Lemma scanners_scan (fuel : nat) :
  (forall depth s, (2 * length s < fuel)%nat ->
     scans depth s (scan_once fuel depth s)) /\
  (forall depth d s, (2 * length s < fuel)%nat ->
     scans depth s (object_members fuel depth d s)) /\
  (forall depth acc s, (2 * length s + 1 < fuel)%nat ->
     scans depth s (array_elements fuel depth acc s)).
Proof.
  induction fuel as [|fuel (IHv & IHo & IHa)].
  { repeat split; intros; lia. }
  split; [|split].
  - intros depth s Hf. destruct s as [|c r]; [by left|].
    cbn [scan_once]. simpl in Hf.
    destruct (ord c =? 34)%N.
    { apply scans_consumes.
      pose proof (scanstring_consumes r Normal None) as Hs.
      destruct (scanstring r Normal None) as [[content rest]|e]; simpl in *;
        [lia|done]. }
    destruct (ord c =? 123)%N.
    { destruct depth as [|depth']; [right; simpl; split; [done|lia]|].
      pose proof (skip_ws_length r) as Hw.
      destruct (skip_ws r) as [|c1 r1]; [by left|]. simpl in Hw.
      destruct (ord c1 =? 125)%N; [simpl; lia|].
      destruct (ord c1 =? 34)%N; [|by left].
      apply (scans_weaken depth' _ r1); [simpl; lia|simpl; lia|].
      apply IHo. lia. }
    destruct (ord c =? 91)%N.
    { destruct depth as [|depth']; [right; simpl; split; [done|lia]|].
      pose proof (skip_ws_length r) as Hw.
      destruct (skip_ws r) as [|c1 r1]; [by left|]. simpl in Hw.
      destruct (ord c1 =? 93)%N; [simpl; lia|].
      apply (scans_weaken depth' _ (c1 :: r1)); [simpl; lia|simpl; lia|].
      apply IHa. simpl. lia. }
    apply scans_consumes, scan_atom_consumes.
  - intros depth d s Hf. cbn [object_members].
    pose proof (scanstring_consumes s Normal None) as Hs.
    destruct (scanstring s Normal None) as [[key s1]|e];
      [|by apply scans_consumes].
    simpl in Hs. cbn [bind].
    pose proof (skip_ws_length s1) as Hw1.
    destruct (skip_ws s1) as [|c s2]; [by left|]. simpl in Hw1.
    destruct (ord c =? 58)%N; [|by left].
    pose proof (skip_ws_length s2) as Hw2.
    pose proof (IHv depth (skip_ws s2) ltac:(lia)) as Hv.
    destruct (scan_once fuel depth (skip_ws s2)) as [[v s3]|e].
    2:{ apply (scans_weaken depth _ (skip_ws s2)); [lia|lia|exact Hv]. }
    simpl in Hv. cbn [bind].
    pose proof (skip_ws_length s3) as Hw3.
    destruct (skip_ws s3) as [|c1 r1]; [by left|]. simpl in Hw3.
    destruct (ord c1 =? 125)%N; [simpl; lia|].
    destruct (ord c1 =? 44)%N; [|by left].
    pose proof (skip_ws_length r1) as Hw4.
    destruct (skip_ws r1) as [|c2 r2]; [by left|]. simpl in Hw4.
    destruct (ord c2 =? 34)%N; [|by left].
    apply (scans_weaken depth _ r2); [lia|lia|]. apply IHo. lia.
  - intros depth acc s Hf. cbn [array_elements].
    pose proof (IHv depth s ltac:(lia)) as Hv.
    destruct (scan_once fuel depth s) as [[v s1]|e]; [|exact Hv].
    simpl in Hv. cbn [bind].
    pose proof (skip_ws_length s1) as Hw1.
    destruct (skip_ws s1) as [|c1 r1]; [by left|]. simpl in Hw1.
    destruct (ord c1 =? 93)%N; [simpl; lia|].
    destruct (ord c1 =? 44)%N; [|by left].
    pose proof (skip_ws_length r1) as Hw2.
    apply (scans_weaken depth _ (skip_ws r1)); [lia|lia|]. apply IHa. lia.
Qed.

(** [json.loads] returns, raises [JSONDecodeError] or, on a text longer than
    the headroom, raises [RecursionError]. *)
Lemma json_loads_raises headroom s e :
  json_loads headroom s = Raise e ->
  e = JSONDecodeError
  \/ (e = RecursionError
      /\ (headroom < length (list_ascii_of_string s))%nat).
Proof.
  unfold json_loads. set (l := list_ascii_of_string s).
  pose proof (skip_ws_length l) as Hw.
  pose proof (proj1 (scanners_scan (S (2 * length l))) headroom (skip_ws l)
                ltac:(lia)) as Hv.
  destruct (scan_once _ _ (skip_ws l)) as [[v rest]|e']; simpl.
  - destruct (skip_ws rest); [discriminate|]. intros [= <-]. by left.
  - simpl in Hv. intros [= <-]. destruct Hv as [-> | [-> H]]; [by left|].
    right. split; [done|lia].
Qed.

Lemma a2b_base64_raises s : forall q lc p e,
  a2b_base64 s q lc p = Raise e -> e = binascii_Error.
Proof.
  induction s as [|c s IH]; intros q lc p e; cbn [a2b_base64].
  - destruct q; [discriminate|]. by intros [= <-].
  - unfold emit, fmap_res, bind.
    repeat case_match; try discriminate; eauto;
      intros [= <-];
      match goal with H : a2b_base64 _ _ _ _ = Raise _ |- _ =>
        by apply IH in H end.
Qed.

Lemma fromisoformat_value_raises x e :
  fromisoformat_value x = Raise e -> e = ValueError \/ e = TypeError.
Proof.
  destruct x; simpl; try (intros [= <-]; by right).
  unfold fromisoformat. repeat case_match; try discriminate;
    intros [= <-]; by left.
Qed.

Lemma getitem_raises x k e :
  getitem x k = Raise e -> e = KeyError \/ e = TypeError.
Proof.
  destruct x; simpl; try (intros [= <-]; by right).
  case_match; [discriminate|]. intros [= <-]. by left.
Qed.

Lemma emit_Ok {A} (a : A) m l :
  emit a m = Ok l -> exists l', m = Ok l' /\ l = a :: l'.
Proof. destruct m as [l'|e]; [|discriminate]. intros [= <-]. eauto. Qed.

Lemma a2b_base64_length s : forall q lc p l,
  a2b_base64 s q lc p = Ok l -> (length l <= length s)%nat.
Proof.
  induction s as [|c s IH]; intros q lc p l; cbn [a2b_base64].
  - destruct q; [|discriminate]. intros [= <-]. simpl. lia.
  - assert (Hemit : forall a q' lc' p',
              emit a (a2b_base64 s q' lc' p') = Ok l ->
              (length l <= length (c :: s))%nat).
    { intros a q' lc' p' (l' & H & ->)%emit_Ok. apply IH in H. simpl. lia. }
    destruct (Ascii.eqb c PAD).
    { destruct (_ && _); [intros [= <-]; simpl; lia|].
      intros H%IH. simpl. lia. }
    destruct (a2b c) as [v|]; [|intros H%IH; simpl; lia].
    destruct q as [|[|[|q]]]; eauto.
    intros H%IH. simpl. lia.
Qed.

(** Every exception that the [try] block of [decode_cursor] can raise is
    one that its [except] clause catches, [RecursionError] apart, which
    takes a cursor longer than the headroom. *)
Lemma decode_cursor_try_raises headroom s e :
  decode_cursor_try headroom s = Raise e ->
  caught e = true
  \/ (e = RecursionError
      /\ (headroom < length (list_ascii_of_string s))%nat).
Proof.
  unfold decode_cursor_try, str_encode, bytes_decode, urlsafe_b64decode,
    b64decode.
  destruct (utf8_valid (list_ascii_of_string s)); [|intros [= <-]; by left].
  cbn [bind].
  destruct (a2b_base64 _ 0 0 0) as [decoded|e1] eqn:Hb;
    [|intros [= <-]; left; by rewrite (a2b_base64_raises _ _ _ _ _ Hb)].
  apply a2b_base64_length in Hb. rewrite length_map in Hb.
  cbn [bind]. destruct (utf8_valid decoded); [|intros [= <-]; by left].
  cbn [bind].
  destruct (json_loads _ _) as [data|e1] eqn:Hj.
  2:{ intros [= <-].
      destruct (json_loads_raises _ _ _ Hj) as [-> | [-> H]]; [by left|].
      right. split; [done|]. rewrite list_string in H. lia. }
  cbn [bind].
  destruct (getitem data "id") as [i|e1] eqn:Hi;
    [|intros [= <-]; left; by destruct (getitem_raises _ _ _ Hi) as [-> | ->]].
  cbn [bind].
  destruct (getitem data "created_at") as [c|e1] eqn:Hc;
    [|intros [= <-]; left; by destruct (getitem_raises _ _ _ Hc) as [-> | ->]].
  cbn [bind].
  destruct (fromisoformat_value c) as [d|e1] eqn:Hd;
    [discriminate|].
  intros [= <-]. left.
  by destruct (fromisoformat_value_raises _ _ Hd) as [-> | ->].
Qed.

(** The cursor [s] is the (leniently read) URL-safe base64 of a JSON text
    that has an ["id"] and an ISO-8601 ["created_at"]. *)
Definition well_formed (headroom : nat) (s : string) (id : json)
    (created : datetime) : Prop :=
  exists raw decoded text data c,
    str_encode s = Ok raw /\ urlsafe_b64decode raw = Ok decoded
    /\ bytes_decode decoded = Ok text /\ json_loads headroom text = Ok data
    /\ getitem data "id" = Ok id /\ getitem data "created_at" = Ok (JStr c)
    /\ fromisoformat c = Ok created.

Lemma decode_cursor_try_well_formed headroom s id created :
  decode_cursor_try headroom s = Ok (id, created) ->
  well_formed headroom s id created.
Proof.
  unfold decode_cursor_try, well_formed.
  destruct (str_encode s) as [raw|] eqn:H1; [|discriminate]. cbn [bind].
  destruct (urlsafe_b64decode raw) as [decoded|] eqn:H2; [|discriminate].
  cbn [bind].
  destruct (bytes_decode decoded) as [text|] eqn:H3; [|discriminate].
  cbn [bind].
  destruct (json_loads headroom text) as [data|] eqn:H4; [|discriminate].
  cbn [bind].
  destruct (getitem data "id") as [i|] eqn:H5; [|discriminate]. cbn [bind].
  destruct (getitem data "created_at") as [c|] eqn:H6; [|discriminate].
  cbn [bind].
  destruct (fromisoformat_value c) as [d|] eqn:H7; [|discriminate].
  cbn [bind]. intros [= <- <-].
  destruct c; try discriminate. simpl in H7.
  by exists raw, decoded, text, data, s0.
Qed.

(** [decode_cursor] returns on every cursor that is no longer than the
    headroom, and whenever it raises, it raises [RecursionError]. *)
Lemma decode_cursor_cases headroom s :
  decode_cursor headroom s = Ok None
  \/ (exists id created,
        decode_cursor headroom s = Ok (Some (id, created))
        /\ well_formed headroom s id created)
  \/ (decode_cursor headroom s = Raise RecursionError
      /\ (headroom < length (list_ascii_of_string s))%nat).
Proof.
  unfold decode_cursor.
  destruct (decode_cursor_try headroom s) as [[id created]|e] eqn:H.
  - right. left. exists id, created. split; [done|].
    by apply decode_cursor_try_well_formed.
  - destruct (decode_cursor_try_raises headroom s e H) as [-> | [-> Hlen]].
    + by left.
    + right. right. by split.
Qed.

(** A cursor that [decode_cursor] refuses leaves the query as it is without
    cursor. *)
Lemma refused_cursor_ignored is_sqlite ilike lower headroom db user filters
    s lim :
  decode_cursor headroom s = Ok None ->
  get_by_user_id_cursor is_sqlite ilike lower headroom db user filters
    (Some {| cursor := Some s; limit := lim |})
  = get_by_user_id_cursor is_sqlite ilike lower headroom db user filters
      (Some {| cursor := None; limit := lim |}).
Proof.
  intros Hdec. unfold get_by_user_id_cursor. cbn [cursor limit].
  destruct s as [|c s']; [reflexivity|]. cbn [nonempty].
  rewrite Hdec. reflexivity.
Qed.

(** *** Deeply nested texts *)

(** [n] opening brackets, and the cursor that encodes them. *)
Definition nested (n : nat) : bytes := repeat (chr 91) n.

Definition nested_cursor (n : nat) : string :=
  string_of_list_ascii (urlsafe_b64encode (nested n)).

Lemma scan_once_nested depth : forall fuel n,
  (depth < n)%nat -> (2 * depth < fuel)%nat ->
  scan_once fuel depth (nested n) = Raise RecursionError.
Proof.
  induction depth as [|depth IH]; intros fuel n Hn Hf.
  - destruct n as [|n]; [lia|]. destruct fuel as [|fuel]; [lia|].
    reflexivity.
  - destruct n as [|[|n]]; try lia.
    destruct fuel as [|[|fuel]]; try lia.
    change (nested (S (S n))) with (chr 91 :: nested (S n)).
    cbn [scan_once].
    change (ord (chr 91) =? 34)%N with false.
    change (ord (chr 91) =? 123)%N with false.
    change (ord (chr 91) =? 91)%N with true. cbv iota.
    change (skip_ws (nested (S n))) with (chr 91 :: nested n). cbv iota.
    change (ord (chr 91) =? 93)%N with false. cbv iota.
    cbn [array_elements].
    change (chr 91 :: nested n) with (nested (S n)).
    rewrite IH by lia. reflexivity.
Qed.

Lemma nested_ascii n : forallb is_ascii (nested n) = true.
Proof. induction n as [|n IH]; [done|]. simpl. exact IH. Qed.

Lemma decode_cursor_nested headroom n :
  (headroom < n)%nat ->
  decode_cursor headroom (nested_cursor n) = Raise RecursionError.
Proof.
  intros Hn. unfold decode_cursor, decode_cursor_try, nested_cursor.
  unfold str_encode. rewrite list_string.
  rewrite (utf8_valid_ascii _ (b64encode_ascii _)). cbn [bind].
  rewrite urlsafe_b64decode_encode. cbn [bind].
  unfold bytes_decode. rewrite (utf8_valid_ascii _ (nested_ascii n)).
  cbn [bind]. unfold json_loads. rewrite list_string.
  replace (skip_ws (nested n)) with (nested n)
    by (destruct n; [lia|reflexivity]).
  rewrite scan_once_nested by (try done; unfold nested;
                               rewrite repeat_length; lia).
  reflexivity.
Qed.

(** C9 (the code departs from the claim).  [decode_cursor] is not total: on
    the cursor that encodes more
    opening brackets than the recursion limit allows nested calls,
    [json.loads] raises [RecursionError], which the [except] clause does not
    catch, and the keyset query raises with it.  On every other input the
    claim holds: whatever [decode_cursor] raises is a [RecursionError] on a
    cursor longer than the headroom; otherwise it returns either the
    identifier and timestamp of a well-formed cursor or [None]; and a cursor
    for which it returns [None] leaves the query as it is without cursor. *)
Theorem decode_cursor_raises_on_deep_nesting :
  (forall headroom n, (headroom < n)%nat ->
     decode_cursor headroom (nested_cursor n) = Raise RecursionError
     /\ forall is_sqlite ilike lower db user filters lim,
          get_by_user_id_cursor is_sqlite ilike lower headroom db user
            filters (Some {| cursor := Some (nested_cursor n); limit := lim |})
          = Raise RecursionError)
  /\ (forall headroom s,
        decode_cursor headroom s = Ok None
        \/ (exists id created,
              decode_cursor headroom s = Ok (Some (id, created))
              /\ well_formed headroom s id created)
        \/ (decode_cursor headroom s = Raise RecursionError
            /\ (headroom < length (list_ascii_of_string s))%nat))
  /\ (forall is_sqlite ilike lower headroom db user filters s lim,
        decode_cursor headroom s = Ok None ->
        get_by_user_id_cursor is_sqlite ilike lower headroom db user filters
          (Some {| cursor := Some s; limit := lim |})
        = get_by_user_id_cursor is_sqlite ilike lower headroom db user
            filters (Some {| cursor := None; limit := lim |})).
Proof.
  split; [|split].
  - intros headroom n Hn.
    pose proof (decode_cursor_nested headroom n Hn) as Hdec.
    split; [exact Hdec|]. intros.
    unfold get_by_user_id_cursor. cbn [cursor limit].
    assert (Hne : nonempty (Some (nested_cursor n)) = Some (nested_cursor n)).
    { destruct n as [|[|[|n]]]; [lia|reflexivity..]. }
    rewrite Hne, Hdec. reflexivity.
  - apply decode_cursor_cases.
  - apply refused_cursor_ignored.
Qed.

(** With a thousand brackets and the default limit of a thousand calls. *)
Lemma decode_cursor_raises_on_deep_nesting_witness :
  decode_cursor 999 (nested_cursor 1000) = Raise RecursionError
  /\ get_by_user_id_cursor false (fun _ _ => true) (fun s => s) 999
       [RoutesSpec.row_of_u2] "u2" None
       (Some {| cursor := Some (nested_cursor 1000); limit := 20 |})
     = Raise RecursionError.
Proof.
  destruct (proj1 decode_cursor_raises_on_deep_nesting 999%nat 1000%nat
              ltac:(lia)) as [Hdec Hquery].
  split; [exact Hdec|]. apply Hquery.
Defined.

(** A text that is no cursor, and every proper prefix of a cursor made by
    [encode_cursor], are refused without an exception. *)
Example invalid_cursor_refused :
  decode_cursor 900 "invalid_cursor" = Ok None.
Proof. vm_compute. reflexivity. Qed.

Example truncated_cursor_refused :
  forallb (fun n =>
      match decode_cursor 900
              (string_of_list_ascii
                 (take n (list_ascii_of_string ServiceSpec.cursor_a))) with
      | Ok None => true
      | _ => false
      end)
    (seq 0 (String.length ServiceSpec.cursor_a)) = true.
Proof. vm_compute. reflexivity. Qed.

(** *** The part of a cursor that the cache key reads *)

Lemma str_take_ascii l rest :
  forallb is_ascii (l ++ rest) = true ->
  str_take (length l) (string_of_list_ascii (l ++ rest))
  = string_of_list_ascii l.
Proof.
  assert (Hc : forall c, is_ascii c = true -> is_continuation c = false).
  { intros c H%N.ltb_lt. unfold is_continuation. cbv zeta.
    apply andb_false_iff. left. apply N.leb_gt. lia. }
  induction l as [|c l IH]; cbn [app length forallb string_of_list_ascii].
  - destruct rest as [|c r]; [done|]. cbn [forallb string_of_list_ascii].
    intros [H _]%andb_true_iff. cbn [str_take]. by rewrite (Hc c H).
  - intros [H Hl]%andb_true_iff. cbn [str_take].
    by rewrite (Hc c H), (IH Hl).
Qed.

(** The fifteen octets that open the JSON text of every cursor. *)
Definition opening : bytes :=
  chr 123 :: quote :: list_ascii_of_string "created_at"
    ++ [quote; chr 58; chr 32].

Lemma urlsafe_b64encode_opening tail :
  urlsafe_b64encode (opening ++ tail)
  = list_ascii_of_string "eyJjcmVhdGVkX2F0Ijog" ++ urlsafe_b64encode tail.
Proof.
  unfold urlsafe_b64encode, opening.
  cbn [list_ascii_of_string app b64encode map].
  repeat (apply (f_equal2 cons); [vm_compute; reflexivity|]). reflexivity.
Qed.

(** Every cursor that [encode_cursor] makes begins with the same twenty
    characters: the part of a cursor that the cache key reads is the same
    for all of them. *)
Lemma encode_cursor_prefix (transaction_id : string) (created_at : datetime)
    (c : string) :
  encode_cursor transaction_id created_at = Ok c ->
  str_take 20 c = "eyJjcmVhdGVkX2F0Ijog".
Proof.
  unfold encode_cursor. cbv zeta.
  set (json_str := json_dumps_sorted _).
  assert (Htext : exists tail,
            list_ascii_of_string json_str = opening ++ tail).
  { unfold json_str, json_dumps_sorted. rewrite list_string.
    change (sorted_items [("id", transaction_id);
                          ("created_at", isoformat created_at)])
      with [("created_at", isoformat created_at); ("id", transaction_id)].
    cbn [dumps_items]. unfold dumps_str at 1.
    change (escape_ascii (list_ascii_of_string "created_at"))
      with (list_ascii_of_string "created_at").
    eexists. unfold opening, quote.
    repeat (rewrite <- app_assoc || rewrite <- app_comm_cons).
    reflexivity. }
  destruct Htext as [tail Htext].
  unfold str_encode. rewrite Htext.
  destruct (utf8_valid _); [|discriminate]. cbn [bind].
  unfold bytes_decode. destruct (utf8_valid _); [|discriminate].
  intros [= <-].
  pose proof (b64encode_ascii (opening ++ tail)) as Hascii.
  rewrite urlsafe_b64encode_opening in *.
  exact (str_take_ascii (list_ascii_of_string "eyJjcmVhdGVkX2F0Ijog")
           _ Hascii).
Qed.

(** Hence any two requests of a user that differ only in cursors made by
    [encode_cursor] share one cache key. *)
Corollary encoded_cursors_share_cache_key (user : string)
    (filters : option TransactionFilter) (lim : Z)
    (id1 id2 : string) (d1 d2 : datetime) (c1 c2 : string) :
  encode_cursor id1 d1 = Ok c1 -> encode_cursor id2 d2 = Ok c2 ->
  Service._build_cache_key_cursor user filters
    (Some {| cursor := Some c1; limit := lim |})
  = Service._build_cache_key_cursor user filters
      (Some {| cursor := Some c2; limit := lim |}).
Proof.
  intros H1%encode_cursor_prefix H2%encode_cursor_prefix.
  unfold Service._build_cache_key_cursor. cbn [cursor limit].
  destruct c1 as [|x1 r1]; [discriminate|].
  destruct c2 as [|x2 r2]; [discriminate|].
  cbn [nonempty]. by rewrite H1, H2.
Qed.

End CursorSpec.

(* ===================================================================== *)
(** ** The breaker under any workload *)
(* ===================================================================== *)

Module BreakerFacts.
Import CircuitBreaker.

(** The failure counter of a closed breaker after one call: a success
    clears it, an expected failure adds one, any other exception leaves
    it. *)
Definition count_after (n : Z) (f : behaviour) : Z :=
  match f with
  | Returns => 0
  | RaisesExpected => n + 1
  | RaisesOther => n
  end.

(** The counter after a workload, and whether it stays below [threshold]
    all along. *)
Fixpoint streak (n : Z) (calls : list (Z * behaviour * Z)) : Z :=
  match calls with
  | [] => n
  | (_, f, _) :: rest => streak (count_after n f) rest
  end.

Fixpoint below (threshold n : Z) (calls : list (Z * behaviour * Z)) : bool :=
  match calls with
  | [] => true
  | (_, f, _) :: rest =>
      bool_decide (count_after n f < threshold)
      && below threshold (count_after n f) rest
  end.

Lemma closed_call b t1 f t2 :
  state b = CLOSED ->
  let b' := after (call true b t1 f t2) in
  failure_count b' = count_after (failure_count b) f
  /\ failure_threshold b' = failure_threshold b
  /\ state b' = (if bool_decide (failure_threshold b
                                 <= count_after (failure_count b) f)
                 then match f with RaisesExpected => OPEN | _ => CLOSED end
                 else CLOSED).
Proof.
  intros Hs. destruct b as [th tmo fc lft st sc hst]. simpl in Hs. subst st.
  destruct f; simpl; unfold call, admit_call, complete_call, _on_success,
    _on_failure; simpl; repeat case_bool_decide; simpl; auto.
Qed.

(** X1.  A closed breaker counts the expected failures since the last
    success: as long as that number stays below the threshold the breaker
    stays CLOSED, with the number in [failure_count]; successes in between
    start the count afresh, other exceptions neither count nor clear; and
    the expected failure that brings the count to the threshold opens the
    breaker. *)
Theorem closed_breaker_counts_consecutive_failures (b : breaker)
    (calls : list (Z * behaviour * Z)) :
  state b = CLOSED ->
  below (failure_threshold b) (failure_count b) calls = true ->
  let b' := run true b calls in
  state b' = CLOSED
  /\ failure_count b' = streak (failure_count b) calls
  /\ forall t1 t2,
       failure_threshold b <= failure_count b' + 1 ->
       state (after (call true b' t1 RaisesExpected t2)) = OPEN.
Proof.
  revert b. induction calls as [|[[t1 f] t2] rest IH]; intros b Hs Hb.
  - cbn [run streak]. split; [done|]. split; [done|].
    intros t1 t2 Hth.
    destruct (closed_call b t1 RaisesExpected t2 Hs) as (_ & _ & ->).
    cbn [count_after]. by rewrite bool_decide_eq_true_2.
  - cbn [below] in Hb. apply andb_true_iff in Hb as [Hlt Hb].
    apply bool_decide_eq_true in Hlt.
    destruct (closed_call b t1 f t2 Hs) as (Hfc & Hth & Hst).
    rewrite bool_decide_eq_false_2 in Hst by lia.
    cbn [run streak].
    set (b1 := after (call true b t1 f t2)) in *.
    rewrite <- Hfc, <- Hth in *. by apply IH.
Qed.

Lemma closed_breaker_counts_consecutive_failures_witness :
  let b := init 3 60 in
  let calls := [(0, RaisesExpected, 1); (2, RaisesExpected, 3);
                (4, Returns, 5); (6, RaisesOther, 7);
                (8, RaisesExpected, 9); (10, RaisesExpected, 11)] in
  let b' := run true b calls in
  state b' = CLOSED /\ failure_count b' = 2
  /\ state (after (call true b' 12 RaisesExpected 13)) = OPEN.
Proof.
  cbv zeta.
  destruct (closed_breaker_counts_consecutive_failures (init 3 60)
              [(0, RaisesExpected, 1); (2, RaisesExpected, 3);
               (4, Returns, 5); (6, RaisesOther, 7);
               (8, RaisesExpected, 9); (10, RaisesExpected, 11)]
              eq_refl eq_refl) as (H1 & H2 & H3).
  split; [exact H1|]. split; [exact H2|].
  apply H3. rewrite H2. simpl. lia.
Defined.

(** What happens to a breaker: a call, or a manual [reset()]. *)
Inductive operation :=
  | Call (t_check : Z) (f : behaviour) (t_fail : Z)
  | Reset.

Definition apply_operation (enabled : bool) (b : breaker) (o : operation)
  : breaker :=
  match o with
  | Call t1 f t2 => after (call enabled b t1 f t2)
  | Reset => reset b
  end.

(** What holds of every breaker in use. *)
Definition consistent (b : breaker) : Prop :=
  half_open_success_threshold b = 2
  /\ 1 <= failure_threshold b
  /\ 0 <= failure_count b
  /\ match state b with
     | CLOSED => success_count b = 0
                 /\ failure_count b < failure_threshold b
     | OPEN => last_failure_time b <> None
     | HALF_OPEN => last_failure_time b <> None
                    /\ 0 <= success_count b < 2
     end.

Lemma consistent_step enabled b o :
  consistent b -> consistent (apply_operation enabled b o).
Proof.
  destruct b as [th tmo fc lft st sc hst].
  unfold consistent. simpl. intros (-> & Hth & Hfc & Hst).
  destruct o as [t1 f t2|]; simpl.
  - destruct enabled; [|done].
    unfold call, admit_call, complete_call, _on_success, _on_failure,
      _should_attempt_reset; simpl.
    destruct st, f, lft; simpl in *; repeat case_bool_decide; simpl;
      intuition (try done; try lia).
  - destruct st; simpl in *; intuition lia.
Qed.

(** X2.  Starting from a new breaker with a threshold of at least one,
    whatever calls and manual resets follow, with gating on or off: the
    failure counter of a CLOSED breaker is below the threshold and its
    success counter is zero; a HALF_OPEN breaker has seen fewer than two
    successes; and a breaker that is OPEN or HALF_OPEN has the time of its
    last failure, so that an OPEN breaker admits a call as soon as
    [timeout] seconds have passed since then. *)
Theorem breaker_stays_consistent (enabled : bool) (threshold tmo : Z)
    (ops : list operation) :
  1 <= threshold ->
  let b := fold_left (apply_operation enabled) ops (init threshold tmo) in
  consistent b
  /\ (state b = OPEN ->
      exists t0, last_failure_time b = Some t0
        /\ forall t f t',
             tmo * 1000000 <= t - t0 ->
             invoked (call true b t f t') = true).
Proof.
  intros Hth. cbv zeta.
  assert (Hinv : forall ops b,
            consistent b -> timeout b = tmo ->
            consistent (fold_left (apply_operation enabled) ops b)
            /\ timeout (fold_left (apply_operation enabled) ops b) = tmo).
  { clear. induction ops as [|o ops' IH]; intros b Hc Ht; [done|].
    cbn [fold_left]. apply IH; [by apply consistent_step|].
    destruct o as [t1 f t2|]; simpl; [|done].
    by destruct (CircuitBreakerSpec.call_keeps_config enabled b t1 f t2)
      as (_ & -> & _). }
  destruct (Hinv ops (init threshold tmo)) as [Hc Ht].
  { unfold consistent, init. simpl. lia. }
  { reflexivity. }
  split; [exact Hc|]. intros Hs.
  destruct Hc as (_ & _ & _ & Hst). rewrite Hs in Hst.
  destruct (last_failure_time _) as [t0|] eqn:Hl; [|done].
  exists t0. split; [done|]. intros t f t' Hel.
  unfold call, admit_call, _should_attempt_reset. simpl.
  rewrite Hs, Hl, Ht. rewrite bool_decide_eq_true_2 by lia.
  by destruct f.
Qed.

Lemma breaker_stays_consistent_witness :
  let b := fold_left (apply_operation true)
             [Call 0 RaisesExpected 1; Call 2 RaisesExpected 3; Reset;
              Call 4 RaisesExpected 5; Call 6 RaisesExpected 7]
             (init 2 60) in
  consistent b
  /\ (state b = OPEN ->
      exists t0, last_failure_time b = Some t0
        /\ forall t f t',
             60 * 1000000 <= t - t0 ->
             invoked (call true b t f t') = true).
Proof.
  apply (breaker_stays_consistent true 2 60
           [Call 0 RaisesExpected 1; Call 2 RaisesExpected 3; Reset;
            Call 4 RaisesExpected 5; Call 6 RaisesExpected 7]).
  lia.
Defined.

End BreakerFacts.

(* ===================================================================== *)
(** ** The listing of a user and its pages *)
(* ===================================================================== *)

Module RepositoryFacts.
Import Py Schemas Repository.

Section WithEngine.
Context (is_sqlite : bool)
        (ilike : string -> string -> bool)
        (lower : string -> string).

Abbreviation base_query := (RepositorySpec.base_query ilike lower is_sqlite).
Abbreviation get_by_user_id := (get_by_user_id is_sqlite ilike lower).

(** The listing of a user as the engine orders it: the rows that the query
    selects, by [created_at] and [id] descending. *)
Definition listing (db : list Transaction) (user : string)
    (filters : option TransactionFilter) : list Transaction :=
  merge_sort (fun a b => Is_true (desc_created_at_id is_sqlite a b))
    (selected db (base_query user filters)).

Lemma all_page db q le off n :
  all db (limit_ (offset_ (order_by q le) off) n)
  = take (Z.to_nat n)
      (drop (Z.to_nat off)
         (merge_sort (fun a b => Is_true (le a b)) (selected db q))).
Proof. reflexivity. Qed.

Lemma all_ordered db q le :
  q_offset q = 0%nat -> q_limit q = None ->
  all db (order_by q le)
  = merge_sort (fun a b => Is_true (le a b)) (selected db q).
Proof.
  intros Ho Hl. unfold all.
  change (q_offset (order_by q le)) with (q_offset q).
  change (q_limit (order_by q le)) with (q_limit q).
  by rewrite Ho, Hl.
Qed.

Lemma listing_in_table db user filters t :
  t ∈ listing db user filters -> t ∈ db.
Proof.
  unfold listing. rewrite merge_sort_Permutation.
  rewrite KeysetSpec.selected_elem. tauto.
Qed.

Lemma length_listing db user filters :
  count db (base_query user filters)
  = Z.of_nat (length (listing db user filters)).
Proof.
  unfold count, listing. f_equal. symmetry.
  apply Permutation_length, merge_sort_Permutation.
Qed.

(** Without pagination the query returns the listing. *)
Lemma get_by_user_id_listing db user filters :
  get_by_user_id db user filters None
  = Ok (listing db user filters,
        Z.of_nat (length (listing db user filters))).
Proof.
  unfold Repository.get_by_user_id. cbv zeta.
  fold (base_query user filters).
  rewrite length_listing. cbn [bind].
  rewrite all_ordered;
    [done | apply KeysetSpec.q_offset_base | apply KeysetSpec.q_limit_base].
Qed.

(** A page whose offset and size the engine accepts is a slice of the
    listing. *)
Lemma get_by_user_id_page db user filters p :
  0 <= (page p - 1) * page_size p <= 2 ^ 63 - 1 ->
  0 <= page_size p <= 2 ^ 63 - 1 ->
  get_by_user_id db user filters (Some p)
  = Ok (take (Z.to_nat (page_size p))
          (drop (Z.to_nat ((page p - 1) * page_size p))
             (listing db user filters)),
        Z.of_nat (length (listing db user filters))).
Proof.
  intros Hoff Hsize. unfold Repository.get_by_user_id. cbv zeta.
  fold (base_query user filters).
  rewrite length_listing.
  rewrite KeysetSpec.offset_limit_all_page by done. cbn [bind].
  by rewrite all_page.
Qed.

(** A page whose offset is beyond 64 bits is refused by the engine. *)
Lemma get_by_user_id_overflow db user filters p :
  2 ^ 63 - 1 < (page p - 1) * page_size p ->
  get_by_user_id db user filters (Some p)
  = Raise (if is_sqlite then OverflowError else DatabaseError).
Proof.
  intros Hoff. unfold Repository.get_by_user_id, offset_limit_all, bind_int.
  cbv zeta. change (2 ^ 63) with 9223372036854775808 in *.
  rewrite (proj2 (Z.ltb_lt _ ((page p - 1) * page_size p))) by lia.
  rewrite !orb_true_r. by destruct is_sqlite.
Qed.

(** The pages [first .. first + n - 1] of size [s], one after another. *)
Fixpoint pages (db : list Transaction) (user : string)
    (filters : option TransactionFilter) (s : Z) (first : Z) (n : nat)
  : res (list Transaction) :=
  match n with
  | O => Ok []
  | S n' =>
      let! (rows, _) :=
        get_by_user_id db user filters
          (Some {| page := first; page_size := s |}) in
      let! rest := pages db user filters s (first + 1) n' in
      Ok (rows ++ rest)
  end.

Lemma pages_listing db user filters s : forall n first,
  1 <= s <= 2 ^ 63 - 1 -> 1 <= first ->
  (first + Z.of_nat n - 2) * s <= 2 ^ 63 - 1 ->
  pages db user filters s first n
  = Ok (take (n * Z.to_nat s)
          (drop (Z.to_nat ((first - 1) * s)) (listing db user filters))).
Proof.
  induction n as [|n IH]; intros first Hs Hf Hmax; [done|].
  cbn [pages]. rewrite get_by_user_id_page by (cbn [page page_size]; nia).
  cbn [bind page page_size]. rewrite IH by nia. cbn [bind]. f_equal.
  set (L := listing db user filters).
  replace ((first + 1 - 1) * s) with ((first - 1) * s + s) by ring.
  rewrite Z2Nat.inj_add by nia.
  rewrite <- drop_drop.
  set (D := drop (Z.to_nat ((first - 1) * s)) L).
  replace (S n * Z.to_nat s)%nat with (Z.to_nat s + n * Z.to_nat s)%nat by lia.
  by rewrite take_take_drop.
Qed.

(** X4.  Offset pages tile the listing, on either engine: the unpaginated
    query returns, [total] being the number of its rows; for a page size
    between one and the largest 64-bit integer, the pages [1 .. n] laid end
    to end are the first [n * page_size] rows of the unpaginated listing, no
    row skipped or repeated, as long as the offset of page [n] fits in 64
    bits; every page whose offset fits returns at most [page_size] rows and
    the same [total], and is empty exactly when it starts at or beyond
    [total]; and a page whose offset does not fit makes the engine raise. *)
Theorem offset_pages_tile_the_listing (db : list Transaction)
    (user : string) (filters : option TransactionFilter) (s : Z) :
  1 <= s <= 2 ^ 63 - 1 ->
  exists rows,
    get_by_user_id db user filters None = Ok (rows, Z.of_nat (length rows))
    /\ (forall n,
          (Z.of_nat n - 1) * s <= 2 ^ 63 - 1 ->
          pages db user filters s 1 n = Ok (take (n * Z.to_nat s) rows))
    /\ (forall p,
          1 <= p -> (p - 1) * s <= 2 ^ 63 - 1 ->
          exists items,
            get_by_user_id db user filters
              (Some {| page := p; page_size := s |})
            = Ok (items, Z.of_nat (length rows))
            /\ Z.of_nat (length items) <= s
            /\ (items = [] <-> Z.of_nat (length rows) <= (p - 1) * s))
    /\ (forall p,
          2 ^ 63 - 1 < (p - 1) * s ->
          get_by_user_id db user filters
            (Some {| page := p; page_size := s |})
          = Raise (if is_sqlite then OverflowError else DatabaseError)).
Proof.
  intros Hs. exists (listing db user filters).
  set (L := listing db user filters).
  split; [apply get_by_user_id_listing|]. split; [|split].
  - intros n Hn. rewrite pages_listing by lia. by rewrite Z.mul_0_l.
  - intros p Hp Hmax.
    rewrite get_by_user_id_page by (cbn [page page_size]; nia).
    cbn [page page_size]. fold L. eexists. split; [reflexivity|].
    split.
    + rewrite length_take. lia.
    + assert (Hoff : 0 <= (p - 1) * s) by nia.
      set (off := Z.to_nat ((p - 1) * s)) in *.
      assert (Hlen : length (take (Z.to_nat s) (drop off L))
                     = Nat.min (Z.to_nat s) (length L - off))
        by (by rewrite length_take, length_drop).
      split.
      * intros Hnil. rewrite Hnil in Hlen. simpl in Hlen. lia.
      * intros Htot. apply length_zero_iff_nil. rewrite Hlen. lia.
  - intros p Hp. by apply get_by_user_id_overflow.
Qed.

End WithEngine.

Section Postgres.
Context (ilike : string -> string -> bool)
        (lower : string -> string).

#[local] Existing Instance KeysetSpec.not_after_trans.
#[local] Existing Instance KeysetSpec.not_after_total.

Lemma selected_wanted db user filters :
  selected db (RepositorySpec.base_query ilike lower false user filters)
  = List.filter (RepositorySpec.wanted ilike lower user filters) db.
Proof.
  unfold selected. induction db as [|t db IH]; [done|]. simpl.
  by rewrite RepositorySpec.matches_base, IH.
Qed.

(** On PostgreSQL the listing holds the wanted rows, newest first. *)
Lemma listing_postgres db user filters :
  listing false ilike lower db user filters
  = merge_sort KeysetSpec.not_after
      (List.filter (RepositorySpec.wanted ilike lower user filters) db).
Proof. unfold listing. by rewrite selected_wanted. Qed.

Lemma listing_elem db user filters t :
  t ∈ listing false ilike lower db user filters <->
  t ∈ db /\ user_id t = user
  /\ match filters with
     | Some f => RepositorySpec.passes ilike lower f t = true
     | None => True
     end.
Proof.
  rewrite listing_postgres, merge_sort_Permutation.
  rewrite list_elem_of_In, filter_In, <- list_elem_of_In.
  by rewrite RepositorySpec.wanted_spec.
Qed.

Lemma listing_ordered db user filters :
  StronglySorted KeysetSpec.not_after
    (listing false ilike lower db user filters).
Proof.
  rewrite listing_postgres. apply StronglySorted_merge_sort; apply _.
Qed.

(** X3.  On PostgreSQL, [get_by_user_id] without pagination returns; its
    rows are the rows of the table that belong to the user and pass each
    filter that is set (exact match on type, product, status and currency,
    the closed range of instants on [created_at], the inclusive bounds on
    the amount, the pattern on [search_content], and every metadata key
    present with the given text), each row as often as the table holds it
    and no other row, ordered by [created_at] descending and then by [id]
    descending; [total] is their number. *)
Theorem get_by_user_id_lists_the_matching_rows (db : list Transaction)
    (user : string) (filters : option TransactionFilter) :
  exists rows,
    get_by_user_id false ilike lower db user filters None
    = Ok (rows, Z.of_nat (length rows))
    /\ rows ≡ₚ List.filter (RepositorySpec.wanted ilike lower user filters) db
    /\ (forall t, t ∈ rows <->
          t ∈ db /\ user_id t = user
          /\ match filters with
             | Some f => RepositorySpec.passes ilike lower f t = true
             | None => True
             end)
    /\ StronglySorted KeysetSpec.descending rows.
Proof.
  exists (listing false ilike lower db user filters).
  split; [apply get_by_user_id_listing|]. split; [|split].
  - rewrite listing_postgres. apply merge_sort_Permutation.
  - apply listing_elem.
  - apply KeysetSpec.sorted_descending, listing_ordered.
Qed.

End Postgres.

Lemma offset_pages_tile_the_listing_witness :
  let db := KeysetSpec.three_rows in
  exists rows,
    get_by_user_id true (fun _ _ => true) (fun s => s) db "u2" None None
    = Ok (rows, Z.of_nat (length rows))
    /\ (forall n,
          (Z.of_nat n - 1) * 2 <= 2 ^ 63 - 1 ->
          pages true (fun _ _ => true) (fun s => s) db "u2" None 2 1 n
          = Ok (take (n * Z.to_nat 2) rows))
    /\ (forall p,
          1 <= p -> (p - 1) * 2 <= 2 ^ 63 - 1 ->
          exists items,
            get_by_user_id true (fun _ _ => true) (fun s => s) db "u2" None
              (Some {| page := p; page_size := 2 |})
            = Ok (items, Z.of_nat (length rows))
            /\ Z.of_nat (length items) <= 2
            /\ (items = [] <-> Z.of_nat (length rows) <= (p - 1) * 2))
    /\ (forall p,
          2 ^ 63 - 1 < (p - 1) * 2 ->
          get_by_user_id true (fun _ _ => true) (fun s => s) db "u2" None
            (Some {| page := p; page_size := 2 |})
          = Raise OverflowError).
Proof.
  apply (offset_pages_tile_the_listing true (fun _ _ => true) (fun s => s)
           KeysetSpec.three_rows "u2" None 2).
  change (2 ^ 63) with 9223372036854775808. lia.
Defined.

(** The three rows of [u2], two to a page. *)
Example offset_pages_of_three_rows :
  pages true (fun _ _ => true) (fun s => s) KeysetSpec.three_rows "u2" None
    2 1 2
  = Ok [RoutesSpec.row_of_u2; ServiceSpec.small_row; KeysetSpec.old_row].
Proof. vm_compute. reflexivity. Qed.

End RepositoryFacts.

(* ===================================================================== *)
(** ** Identifiers: [UUID] reads what [str] writes *)
(* ===================================================================== *)

Module UuidFacts.
Import Py.

Lemma remove_all_absent p pat' s :
  forallb (fun c => negb (Ascii.eqb p c)) s = true ->
  remove_all (p :: pat') 0 s = s.
Proof.
  induction s as [|c r IH]; [done|]. cbn [forallb].
  intros [Hc Hr]%andb_true_iff. apply negb_true_iff in Hc.
  cbn [remove_all strip_prefix]. rewrite Hc. by rewrite (IH Hr).
Qed.

Lemma remove_all_single c s :
  remove_all [c] 0 s = List.filter (fun x => negb (Ascii.eqb c x)) s.
Proof.
  induction s as [|x r IH]; [done|].
  cbn [remove_all strip_prefix List.filter length].
  destruct (Ascii.eqb c x); simpl; by rewrite IH.
Qed.

Lemma filter_all {A} (f : A -> bool) l :
  forallb f l = true -> List.filter f l = l.
Proof.
  induction l as [|x l IH]; [done|]. cbn [forallb List.filter].
  intros [-> Hl]%andb_true_iff. by rewrite (IH Hl).
Qed.

Lemma lstrip_braces_none s :
  forallb (fun c => negb (is_brace c)) s = true -> lstrip_braces s = s.
Proof.
  destruct s as [|c r]; [done|]. cbn [forallb lstrip_braces].
  intros [Hc _]%andb_true_iff. apply negb_true_iff in Hc. by rewrite Hc.
Qed.

Lemma strip_braces_none s :
  forallb (fun c => negb (is_brace c)) s = true -> strip_braces s = s.
Proof.
  intros H. unfold strip_braces. rewrite (lstrip_braces_none s H).
  rewrite lstrip_braces_none; [apply rev_involutive|].
  by apply CursorSpec.forallb_rev.
Qed.

(** The characters of the canonical text: hexadecimal digits in lower case
    and hyphens. *)
Definition canonical_char (c : ascii) : bool :=
  Ascii.eqb c hyphen || (in_range 48 57 c || in_range 97 102 c).

Lemma canonical_hex_digit v : (v < 16)%N -> canonical_char (hex_digit v) = true.
Proof.
  intros Hv. unfold canonical_char, in_range. cbv zeta.
  rewrite KeysetSpec.ord_hex_digit by done.
  apply orb_true_iff. right.
  destruct (N.ltb_spec v 10); apply orb_true_iff; [left|right];
    apply andb_true_iff; rewrite !N.leb_le; lia.
Qed.

Lemma hex_digit_not_hyphen v :
  (v < 16)%N -> Ascii.eqb hyphen (hex_digit v) = false.
Proof.
  intros Hv. destruct (Ascii.eqb_spec hyphen (hex_digit v)) as [H|]; [|done].
  apply (f_equal ord) in H. rewrite KeysetSpec.ord_hex_digit in H by done.
  change (ord hyphen) with 45%N in H. destruct (v <? 10)%N; lia.
Qed.

Lemma canonical_hex_digits k n :
  forallb canonical_char (hex_digits k n) = true
  /\ forallb (fun x => negb (Ascii.eqb hyphen x)) (hex_digits k n) = true.
Proof.
  induction k as [|k [IH1 IH2]]; [done|]. cbn [hex_digits forallb].
  assert (Hd : ((n / 16 ^ N.of_nat k) mod 16 < 16)%N)
    by (apply N.mod_lt; lia).
  by rewrite canonical_hex_digit, hex_digit_not_hyphen, IH1, IH2.
Qed.

Lemma canonical_ord c :
  canonical_char c = true ->
  (ord c = 45 \/ 48 <= ord c <= 57 \/ 97 <= ord c <= 102)%N.
Proof.
  unfold canonical_char, in_range. cbv zeta.
  rewrite !orb_true_iff, !andb_true_iff, !N.leb_le.
  intros [H | [H | H]]; [left|right; by left|right; by right].
  apply Ascii.eqb_eq in H. by rewrite H.
Qed.

Lemma canonical_not c :
  canonical_char c = true ->
  Ascii.eqb "u" c = false /\ is_brace c = false.
Proof.
  intros H%canonical_ord. split.
  - destruct (Ascii.eqb_spec "u" c) as [Heq|]; [|done].
    apply (f_equal ord) in Heq. change (ord "u") with 117%N in Heq. lia.
  - unfold is_brace. apply orb_false_iff. rewrite !N.eqb_neq. lia.
Qed.

Lemma forallb_impl {A} (f g : A -> bool) l :
  (forall x, f x = true -> g x = true) ->
  forallb f l = true -> forallb g l = true.
Proof. rewrite !forallb_forall. auto. Qed.

Lemma hex_value_hex_digit v : (v < 16)%N -> hex_value (hex_digit v) = Some v.
Proof.
  intros Hv. unfold hex_value. cbv zeta.
  rewrite KeysetSpec.ord_hex_digit by done.
  destruct (N.ltb_spec v 10).
  - replace ((48 <=? 48 + v) && (48 + v <=? 57))%N with true
      by (symmetry; apply andb_true_iff; rewrite !N.leb_le; lia).
    f_equal. lia.
  - replace ((48 <=? 87 + v) && (87 + v <=? 57))%N with false
      by (symmetry; apply andb_false_iff; right; apply N.leb_gt; lia).
    replace ((97 <=? 87 + v) && (87 + v <=? 102))%N with true
      by (symmetry; apply andb_true_iff; rewrite !N.leb_le; lia).
    f_equal. lia.
Qed.

Lemma hex_number_hex_digits k : forall acc n,
  hex_number acc (hex_digits k n)
  = Some (acc * 16 ^ N.of_nat k + n mod 16 ^ N.of_nat k)%N.
Proof.
  induction k as [|k IH]; intros acc n.
  - simpl. rewrite N.mod_1_r. f_equal. lia.
  - cbn [hex_digits hex_number].
    rewrite hex_value_hex_digit by (apply N.mod_lt; lia).
    rewrite IH. f_equal.
    rewrite Nat2N.inj_succ, N.pow_succ_r'.
    set (M := (16 ^ N.of_nat k)%N).
    replace (16 * M)%N with (M * 16)%N by lia.
    rewrite N.Div0.mod_mul_r. lia.
Qed.

(** [UUID(str(u)) == u]: the canonical text of a 128-bit identifier is read
    back as the identifier. *)
Lemma UUID_uuid_str u : (u < 2 ^ 128)%N -> UUID (uuid_str u) = Ok u.
Proof.
  intros Hu. unfold UUID, uuid_str. cbv zeta.
  rewrite CursorSpec.list_string.
  fold (KeysetSpec.uuid_format (hex_digits 32 u)).
  set (h := hex_digits 32 u).
  destruct (canonical_hex_digits 32 u) as [Hcan Hnh]. fold h in Hcan, Hnh.
  assert (Hfmt : forallb canonical_char (KeysetSpec.uuid_format h) = true).
  { unfold KeysetSpec.uuid_format.
    repeat (rewrite forallb_app || cbn [forallb]
            || rewrite CursorSpec.forallb_take
                 by (auto using CursorSpec.forallb_drop)).
    by rewrite (CursorSpec.forallb_drop _ 20 _ Hcan). }
  assert (Hnu : forallb (fun c => negb (Ascii.eqb "u" c))
                  (KeysetSpec.uuid_format h) = true).
  { revert Hfmt. apply forallb_impl. intros c Hc.
    by rewrite (proj1 (canonical_not c Hc)). }
  assert (Hnb : forallb (fun c => negb (is_brace c))
                  (KeysetSpec.uuid_format h) = true).
  { revert Hfmt. apply forallb_impl. intros c Hc.
    by rewrite (proj2 (canonical_not c Hc)). }
  change (list_ascii_of_string "urn:") with ("u"%char :: list_ascii_of_string "rn:").
  rewrite (remove_all_absent _ _ _ Hnu).
  change (list_ascii_of_string "uuid:")
    with ("u"%char :: list_ascii_of_string "uid:").
  rewrite (remove_all_absent _ _ _ Hnu).
  rewrite (strip_braces_none _ Hnb), remove_all_single.
  assert (Hfilter : List.filter (fun x => negb (Ascii.eqb hyphen x))
                      (KeysetSpec.uuid_format h) = h).
  { unfold KeysetSpec.uuid_format.
    repeat (rewrite List.filter_app || cbn [List.filter]).
    change (negb (Ascii.eqb hyphen hyphen)) with false. cbv iota.
    rewrite !filter_all
      by (first [ apply CursorSpec.forallb_take; auto using CursorSpec.forallb_drop
                | by apply CursorSpec.forallb_drop ]).
    symmetry. apply KeysetSpec.uuid_chunks. }
  rewrite Hfilter. unfold h. rewrite KeysetSpec.length_hex_digits.
  change (negb (32 =? 32)%nat) with false. cbv iota.
  rewrite hex_number_hex_digits. f_equal.
  change (16 ^ N.of_nat 32)%N with (2 ^ 128)%N.
  rewrite N.mod_small by done. lia.
Qed.

End UuidFacts.

(* ===================================================================== *)
(** ** Rows by identifier and pages by cursor *)
(* ===================================================================== *)

Module KeysetFacts.
Import Py Schemas Repository.

Section Lists.
Context {A : Type}.

Lemma head_filter_unique (f : A -> bool) (l : list A) (t : A) :
  t ∈ l -> f t = true -> (forall x, x ∈ l -> f x = true -> x = t) ->
  head (List.filter f l) = Some t.
Proof.
  induction l as [|y l IH]; intros Hin Hf Huniq.
  - by apply elem_of_nil in Hin.
  - cbn [List.filter]. destruct (f y) eqn:Hy.
    + simpl. f_equal. apply Huniq; [left|done].
    + apply elem_of_cons in Hin as [->|Hin]; [congruence|].
      apply IH; [done|done|]. intros x Hx. apply Huniq. by right.
Qed.

Lemma filter_none (f : A -> bool) (l : list A) :
  (forall x, x ∈ l -> f x = false) -> List.filter f l = [].
Proof.
  induction l as [|y l IH]; intros H; [done|]. cbn [List.filter].
  rewrite (H y) by left. apply IH. intros x Hx. apply H. by right.
Qed.

Lemma filter_Permutation (f : A -> bool) (l l' : list A) :
  l ≡ₚ l' -> List.filter f l ≡ₚ List.filter f l'.
Proof.
  induction 1 as [|x l l' _ IH|x y l|l l' l'' _ IH1 _ IH2]; cbn [List.filter].
  - done.
  - destruct (f x); [by constructor|done].
  - destruct (f x), (f y); (done || by constructor).
  - by etrans.
Qed.

Lemma head_take_1 (l : list A) : head (take 1 l) = head l.
Proof. by destruct l. Qed.

Lemma NoDup_map_eq {B} (g : A -> B) (l : list A) (x y : A) :
  NoDup (map g l) -> x ∈ l -> y ∈ l -> g x = g y -> x = y.
Proof.
  induction l as [|z l IH]; intros Hnd Hx Hy Hg.
  - by apply elem_of_nil in Hx.
  - simpl in Hnd. apply NoDup_cons in Hnd as [Hz Hnd].
    apply elem_of_cons in Hx as [->|Hx], Hy as [->|Hy]; [done|..].
    + exfalso. apply Hz. rewrite Hg. by apply list_elem_of_fmap_2.
    + exfalso. apply Hz. rewrite <- Hg. by apply list_elem_of_fmap_2.
    + by apply IH.
Qed.

(** In a list sorted by a strict order, the elements strictly after one of
    its elements are those that follow it. *)
Lemma filter_after_element (R : relation A) `{!Irreflexive R, !Transitive R}
    (f : A -> bool) (l1 l2 : list A) (r : A) :
  StronglySorted R (l1 ++ r :: l2) ->
  (forall x, x ∈ l1 ++ r :: l2 -> f x = true <-> R r x) ->
  List.filter f (l1 ++ r :: l2) = l2.
Proof.
  intros Hs Hf.
  apply StronglySorted_app in Hs as (Hcross & _ & Hs2).
  apply StronglySorted_inv in Hs2 as [_ Hr].
  rewrite Forall_forall in Hr.
  rewrite List.filter_app. cbn [List.filter].
  rewrite filter_none.
  2:{ intros x Hx. destruct (f x) eqn:Hfx; [|done]. exfalso.
      apply Hf in Hfx; [|apply elem_of_app; by left].
      apply (irreflexivity R r). etrans; [exact Hfx|].
      apply Hcross; [done|left]. }
  destruct (f r) eqn:Hfr.
  { exfalso. apply Hf in Hfr; [|apply elem_of_app; right; left].
    by apply (irreflexivity R r). }
  simpl. apply UuidFacts.filter_all. apply forallb_forall.
  intros x Hx. apply list_elem_of_In in Hx.
  apply Hf; [apply elem_of_app; right; by right|]. by apply Hr.
Qed.

End Lists.

Section WithEngine.
Context (is_sqlite : bool).

Abbreviation small_id := KeysetSpec.small_id.

Lemma first_by_id db u t :
  NoDup (map id db) -> t ∈ db -> id t = u ->
  first db (filter_ select_all (fun t => Some (id t =? u)%N)) = Some t.
Proof.
  intros Hnd Hin Hid. unfold first, all, selected, matches.
  cbn [limit_ filter_ select_all q_where q_order q_offset q_limit app
       forallb drop].
  change (Z.to_nat 1) with 1%nat. rewrite head_take_1.
  apply head_filter_unique; [done|by rewrite Hid, N.eqb_refl|].
  intros x Hx Hfx. rewrite andb_true_r in Hfx.
  destruct (N.eqb_spec (id x) u) as [Hxu|]; [|done].
  apply (NoDup_map_eq id db); [done..|congruence].
Qed.


(** X5.  In a table with distinct identifiers, [get_by_id] returns the row
    whose identifier the text denotes: the row itself for the canonical text
    of its identifier and for any other text that [UUID] reads as it, and
    [None] when no row has the identifier. *)
Theorem get_by_id_finds_the_row (db : list Transaction) :
  NoDup (map id db) ->
  (forall t, t ∈ db -> small_id t ->
     get_by_id is_sqlite db (uuid_str (id t)) = Ok (Some t))
  /\ (forall s t, t ∈ db -> UUID s = Ok (id t) ->
        get_by_id is_sqlite db s = Ok (Some t))
  /\ (forall s u, UUID s = Ok u -> (forall t, t ∈ db -> id t <> u) ->
        get_by_id is_sqlite db s = Ok None).
Proof.
  intros Hnd.
  assert (Hfound : forall s t, t ∈ db -> UUID s = Ok (id t) ->
            get_by_id is_sqlite db s = Ok (Some t)).
  { intros s t Hin Hu. unfold get_by_id. rewrite Hu. f_equal.
    by apply first_by_id. }
  split; [|split; [exact Hfound|]].
  - intros t Hin Hsmall. apply Hfound; [done|].
    by apply UuidFacts.UUID_uuid_str.
  - intros s u Hu Hnone. unfold get_by_id. rewrite Hu. f_equal.
    unfold first, all, selected, matches.
    cbn [limit_ filter_ select_all q_where q_order q_offset q_limit app
         forallb drop].
    rewrite filter_none; [done|].
    intros x Hx. rewrite andb_true_r.
    destruct (N.eqb_spec (id x) u) as [Hxu|]; [|done].
    by destruct (Hnone x Hx).
Qed.

End WithEngine.

Section Postgres.
Context (ilike : string -> string -> bool)
        (lower : string -> string)
        (headroom : nat).

Abbreviation listing := (RepositoryFacts.listing false ilike lower).
Abbreviation small_id := KeysetSpec.small_id.
Abbreviation row_after := KeysetSpec.row_after.

#[local] Existing Instance KeysetSpec.not_after_trans.
#[local] Existing Instance KeysetSpec.not_after_total.

Lemma decode_cursor_empty : Cursor.decode_cursor headroom "" = Ok None.
Proof. reflexivity. Qed.

#[local] Instance row_after_irrefl : Irreflexive row_after.
Proof.
  intros a H. unfold KeysetSpec.row_after, KeysetSpec.strictly_after in H.
  lia.
Qed.

#[local] Instance row_after_trans : Transitive row_after.
Proof.
  intros a b c. unfold KeysetSpec.row_after, KeysetSpec.strictly_after. lia.
Qed.

#[local] Instance row_after_antisymm : AntiSymm (=) row_after.
Proof.
  intros a b H1 H2. exfalso.
  unfold KeysetSpec.row_after, KeysetSpec.strictly_after in *. lia.
Qed.

Lemma listing_sorted db user filters :
  NoDup (map id db) ->
  StronglySorted row_after (listing db user filters).
Proof.
  intros Hnd. apply KeysetSpec.sorted_strictly.
  - apply RepositoryFacts.listing_ordered.
  - unfold RepositoryFacts.listing. rewrite merge_sort_Permutation.
    by apply KeysetSpec.selected_NoDup.
Qed.

Lemma selected_filter_ db q p :
  selected db (filter_ q p)
  = List.filter (fun t => holds (p t)) (selected db q).
Proof.
  unfold selected. induction db as [|x db IH]; [done|].
  cbn [List.filter]. rewrite RepositorySpec.matches_filter_.
  destruct (matches q x); simpl; [|exact IH].
  destruct (holds (p x)); by rewrite IH.
Qed.

Lemma slice_of_fetch {A} (l : list A) lim :
  1 <= lim ->
  slice_to lim (take (Z.to_nat (lim + 1)) l) = take (Z.to_nat lim) l
  /\ (Z.of_nat (length (take (Z.to_nat (lim + 1)) l)) >? lim)
     = (Z.of_nat (length l) >? lim).
Proof.
  intros Hlim. split.
  - unfold slice_to. rewrite (proj2 (Z.leb_le 0 lim)) by lia.
    rewrite take_take. f_equal. lia.
  - rewrite length_take.
    destruct (Z.gtb_spec (Z.of_nat (length l)) lim);
      destruct (Z.gtb_spec
                  (Z.of_nat (Nat.min (Z.to_nat (lim + 1)) (length l))) lim);
      (done || lia).
Qed.

(** The page of a query whose cursor is read as the position of a row [r]
    of the listing. *)
Lemma keyset_page_after db user filters lim c l1 r l2 :
  NoDup (map id db) -> Forall small_id db -> 1 <= lim < 2 ^ 63 - 1 ->
  listing db user filters = l1 ++ r :: l2 ->
  Cursor.decode_cursor headroom c
  = Ok (Some (JStr (uuid_str (id r)), created_at r)) ->
  get_by_user_id_cursor false ilike lower headroom db user filters
    (Some {| cursor := Some c; limit := lim |})
  = Ok (take (Z.to_nat lim) l2,
        Z.of_nat (length l2) >? lim).
Proof.
  intros Hnd Hsmall Hlim HL Hdec.
  set (q := RepositorySpec.base_query ilike lower false user filters).
  assert (Hperm : listing db user filters ≡ₚ selected db q)
    by apply merge_sort_Permutation.
  assert (Hr : small_id r).
  { rewrite Forall_forall in Hsmall. apply Hsmall.
    assert (Hin : r ∈ listing db user filters)
      by (rewrite HL; apply elem_of_app; right; left).
    rewrite Hperm in Hin. by apply KeysetSpec.selected_elem in Hin as [? _]. }
  pose proof (listing_sorted db user filters Hnd) as Hsorted.
  assert (Hne : nonempty (Some c) = Some c).
  { destruct c; [|done]. rewrite decode_cursor_empty in Hdec. discriminate. }
  set (P := after_cursor false (created_at r) (id r)).
  rewrite (KeysetSpec.get_by_user_id_cursor_runs ilike lower headroom false
             db user filters (Some {| cursor := Some c; limit := lim |})
             (filter_ q P)).
  2:{ exact Hlim. }
  2:{ cbn [cursor]. rewrite Hne, Hdec. cbn [bind UUID_value].
      by rewrite (UuidFacts.UUID_uuid_str (id r) Hr). }
  cbv zeta. cbn [limit].
  rewrite (KeysetSpec.all_keyset db (filter_ q P) _ (lim + 1))
    by apply KeysetSpec.q_offset_base.
  change (merge_sort _ (selected db (filter_ q P)))
    with (merge_sort KeysetSpec.not_after (selected db (filter_ q P))).
  set (S := merge_sort KeysetSpec.not_after (selected db (filter_ q P))).
  assert (HP : List.filter (fun t => holds (P t)) (listing db user filters)
               = l2).
  { rewrite HL. apply (filter_after_element row_after).
    - by rewrite <- HL.
    - intros x Hx. unfold P. by rewrite KeysetSpec.after_cursor_spec. }
  assert (HS : S = l2).
  { apply (StronglySorted_unique row_after).
    - apply KeysetSpec.sorted_strictly.
      + apply StronglySorted_merge_sort; apply _.
      + unfold S. rewrite merge_sort_Permutation.
        by apply KeysetSpec.selected_NoDup.
    - rewrite HL in Hsorted.
      apply StronglySorted_app in Hsorted as (_ & _ & Hs2).
      by apply StronglySorted_inv in Hs2 as [? _].
    - unfold S. rewrite merge_sort_Permutation, selected_filter_, <- HP.
      apply filter_Permutation. by symmetry. }
  rewrite HS.
  destruct (slice_of_fetch l2 lim (proj1 Hlim)) as [-> ->]. reflexivity.
Qed.

Lemma keyset_first_page db user filters lim cur :
  1 <= lim < 2 ^ 63 - 1 -> nonempty cur = None ->
  get_by_user_id_cursor false ilike lower headroom db user filters
    (Some {| cursor := cur; limit := lim |})
  = Ok (take (Z.to_nat lim) (listing db user filters),
        Z.of_nat (length (listing db user filters)) >? lim).
Proof.
  intros Hlim Hcur.
  rewrite (KeysetSpec.get_by_user_id_cursor_runs ilike lower headroom false
             db user filters (Some {| cursor := cur; limit := lim |})
             (RepositorySpec.base_query ilike lower false user filters)).
  2:{ exact Hlim. }
  2:{ cbn [cursor]. by rewrite Hcur. }
  cbv zeta. cbn [limit].
  rewrite KeysetSpec.all_keyset by apply KeysetSpec.q_offset_base.
  fold (listing db user filters).
  destruct (slice_of_fetch (listing db user filters) lim (proj1 Hlim))
    as [-> ->].
  reflexivity.
Qed.

(** X6.  On PostgreSQL, keyset pages continue the listing of
    [get_by_user_id].  In a table with distinct 128-bit identifiers, with a
    limit of at least one: the unpaginated query returns; without a cursor
    the page is the first [limit] rows of that listing; with the cursor
    that [encode_cursor] makes for a row of the listing, the page is the
    [limit] rows that follow that row in the listing, none skipped and none
    repeated; in both cases [has_more] tells whether rows remain after the
    page. *)
Theorem keyset_pages_continue_the_listing (db : list Transaction)
    (user : string) (filters : option TransactionFilter) (lim : Z) :
  NoDup (map id db) -> Forall small_id db -> 1 <= lim < 2 ^ 63 - 1 ->
  (0 < headroom)%nat ->
  exists rows,
    get_by_user_id false ilike lower db user filters None
    = Ok (rows, Z.of_nat (length rows))
    /\ get_by_user_id_cursor false ilike lower headroom db user filters
         (Some {| cursor := None; limit := lim |})
       = Ok (take (Z.to_nat lim) rows, Z.of_nat (length rows) >? lim)
    /\ forall l1 r l2 c,
         rows = l1 ++ r :: l2 ->
         datetime_ok (created_at r) = true ->
         Cursor.encode_cursor (uuid_str (id r)) (created_at r) = Ok c ->
         get_by_user_id_cursor false ilike lower headroom db user filters
           (Some {| cursor := Some c; limit := lim |})
         = Ok (take (Z.to_nat lim) l2, Z.of_nat (length l2) >? lim).
Proof.
  intros Hnd Hsmall Hlim Hh. exists (listing db user filters).
  split; [apply RepositoryFacts.get_by_user_id_listing|].
  split; [by apply keyset_first_page|].
  intros l1 r l2 c HL Hok Henc.
  apply (keyset_page_after db user filters lim c l1 r l2); try done.
  destruct (CursorSpec.decode_encode_plain headroom (uuid_str (id r))
              (created_at r) Hh (CursorSpec.plain_uuid_str (id r)) Hok)
    as (c' & Henc' & Hdec).
  rewrite Henc in Henc'. by injection Henc' as <-.
Qed.

End Postgres.

Lemma get_by_id_finds_the_row_witness :
  get_by_id true KeysetSpec.three_rows (uuid_str (id RoutesSpec.row_of_u2))
  = Ok (Some RoutesSpec.row_of_u2)
  /\ get_by_id true KeysetSpec.three_rows
       "{123E4567-E89B-12D3-A456-426614174000}"
     = Ok (Some RoutesSpec.row_of_u2)
  /\ get_by_id true KeysetSpec.three_rows
       "00000000-0000-0000-0000-0000000000ff" = Ok None.
Proof.
  destruct (get_by_id_finds_the_row true KeysetSpec.three_rows)
    as (Hcanon & Hany & Hnone).
  { apply (bool_decide_unpack _). vm_compute. exact I. }
  split; [|split].
  - apply Hcanon.
    + unfold KeysetSpec.three_rows. right. left.
    + unfold KeysetSpec.small_id. vm_compute. reflexivity.
  - apply Hany.
    + unfold KeysetSpec.three_rows. right. left.
    + vm_compute. reflexivity.
  - apply (Hnone _ 255%N); [vm_compute; reflexivity|].
    intros t Ht. repeat (apply elem_of_cons in Ht as [->|Ht]);
      [vm_compute; discriminate..|by apply elem_of_nil in Ht].
Defined.

Lemma keyset_pages_continue_the_listing_witness :
  let db := KeysetSpec.three_rows in
  exists rows,
    get_by_user_id false (fun _ _ => true) (fun s => s) db "u2" None None
    = Ok (rows, Z.of_nat (length rows))
    /\ get_by_user_id_cursor false (fun _ _ => true) (fun s => s) 900 db
         "u2" None (Some {| cursor := None; limit := 1 |})
       = Ok (take (Z.to_nat 1) rows, Z.of_nat (length rows) >? 1)
    /\ get_by_user_id_cursor false (fun _ _ => true) (fun s => s) 900 db
         "u2" None (Some {| cursor := Some ServiceSpec.cursor_a; limit := 1 |})
       = Ok ([ServiceSpec.small_row], true).
Proof.
  destruct (keyset_pages_continue_the_listing (fun _ _ => true)
              (fun s => s) 900 KeysetSpec.three_rows "u2" None 1)
    as (rows & Hall & Hfirst & Hnext).
  - apply (bool_decide_unpack _). vm_compute. exact I.
  - repeat constructor; unfold KeysetSpec.small_id; vm_compute; reflexivity.
  - change (2 ^ 63) with 9223372036854775808. lia.
  - lia.
  - exists rows. split; [exact Hall|]. split; [exact Hfirst|].
    assert (Hrows : rows = [RoutesSpec.row_of_u2; ServiceSpec.small_row;
                            KeysetSpec.old_row]).
    { vm_compute in Hall. by injection Hall as <-. }
    apply (Hnext [] RoutesSpec.row_of_u2
             [ServiceSpec.small_row; KeysetSpec.old_row]
             ServiceSpec.cursor_a).
    + exact Hrows.
    + vm_compute. reflexivity.
    + vm_compute. reflexivity.
Defined.

End KeysetFacts.

(* ===================================================================== *)
(** ** The service: pages, the cache and [next_cursor] *)
(* ===================================================================== *)

Module ServiceFacts.
Import Py Schemas Repository Service.

Section WithCollaborators.
Context (is_sqlite : bool)
        (ilike : string -> string -> bool)
        (lower : string -> string)
        (search_enabled : bool)
        (search : string -> string -> list (string * string)
                  -> option string -> option string -> Z -> Z
                  -> list string * Z)
        (headroom : nat).

Abbreviation compute_page :=
  (compute_page is_sqlite ilike lower search_enabled search).
Abbreviation compute_cursor_page :=
  (compute_cursor_page is_sqlite ilike lower search_enabled search headroom).
Abbreviation get_transactions :=
  (get_transactions is_sqlite ilike lower search_enabled search).
Abbreviation get_transactions_cursor :=
  (get_transactions_cursor is_sqlite ilike lower search_enabled search
     headroom).
Abbreviation listing := (RepositoryFacts.listing is_sqlite ilike lower).

(** The request is answered from the table: the filter has no search query,
    or the search service is off. *)
Definition from_table (filters : option TransactionFilter) : Prop :=
  searching filters = None \/ search_enabled = false.

(** The row is one that [TransactionResponse] accepts. *)
Definition valid (t : Transaction) : Prop :=
  exists x, model_validate t = Ok x.

Lemma model_validate_Ok t x :
  model_validate t = Ok x -> x = map_custom_metadata t.
Proof. unfold model_validate. case_match; congruence. Qed.

Lemma comprehension_valid (l : list Transaction) :
  Forall valid l ->
  comprehension model_validate l = Ok (map map_custom_metadata l).
Proof.
  induction 1 as [|t l [x Hx] _ IH]; [done|].
  cbn [comprehension map]. rewrite Hx, IH. cbn [bind].
  by rewrite (model_validate_Ok t x Hx).
Qed.

Lemma Forall_sublist_of {A} (P : A -> Prop) (l l' : list A) :
  (forall x, x ∈ l' -> x ∈ l) -> Forall P l -> Forall P l'.
Proof.
  rewrite !Forall_forall. intros Hsub H x Hx. apply H. auto.
Qed.

Lemma compute_page_from_table db user filters pagination :
  from_table filters ->
  compute_page db user filters pagination
  = let! (transactions, total) :=
      get_by_user_id is_sqlite ilike lower db user filters pagination in
    let! items := comprehension model_validate transactions in
    let page_size :=
      match pagination with Some p => page_size p | None => 20 end in
    Ok {| items := items; total := total;
          p_page := match pagination with Some p => page p | None => 1 end;
          p_page_size := page_size;
          total_pages := (total + page_size - 1) / page_size |}.
Proof.
  intros Hpath. unfold Service.compute_page.
  destruct Hpath as [-> | ->]; [done|].
  by destruct (searching filters) as [[f q]|]; cbn [negb].
Qed.

(** X7.  On either engine, for a request that is not answered from the
    cache and is computed from the table, with a page of at least one, a
    page size of at least one and an offset that fits in 64 bits, over a
    table whose rows [TransactionResponse] accepts: the request returns;
    [total] is the number of rows of the unpaginated listing, [total_pages]
    is [total] divided by the page size and rounded up, the least number of
    pages that hold [total] rows, and the page of the request is empty
    exactly when its number is beyond [total_pages]. *)
Theorem total_pages_counts_the_nonempty_pages (db : list Transaction)
    (cache : CacheService) (user : string)
    (filters : option TransactionFilter) (p s : Z) :
  from_table filters -> 1 <= p -> 1 <= s <= 2 ^ 63 - 1 ->
  (p - 1) * s <= 2 ^ 63 - 1 ->
  Forall valid db ->
  cache_get cache
    (_build_cache_key user filters (Some {| page := p; page_size := s |}))
  = None ->
  exists rows r cache1,
    get_by_user_id is_sqlite ilike lower db user filters None
    = Ok (rows, Z.of_nat (length rows))
    /\ get_transactions db cache user filters
         (Some {| page := p; page_size := s |}) = Ok (r, cache1)
    /\ total r = Z.of_nat (length rows)
    /\ 0 <= total_pages r
    /\ (total_pages r - 1) * s < total r <= total_pages r * s
    /\ (items r = [] <-> total_pages r < p).
Proof.
  intros Hpath Hp Hs Hmax Hvalid Hmiss.
  exists (listing db user filters).
  unfold Service.get_transactions.
  rewrite Hmiss, (compute_page_from_table db user filters _ Hpath).
  rewrite RepositoryFacts.get_by_user_id_page
    by (cbn [page page_size]; nia).
  cbn [bind page page_size].
  set (L := listing db user filters).
  set (T := Z.of_nat (length L)).
  set (P := take (Z.to_nat s) (drop (Z.to_nat ((p - 1) * s)) L)).
  assert (HP : Forall valid P).
  { apply (Forall_sublist_of valid db); [|done].
    intros x Hx. apply (RepositoryFacts.listing_in_table is_sqlite ilike lower db user
                          filters).
    apply elem_of_take in Hx as (i & Hi & _).
    rewrite lookup_drop in Hi. by apply list_elem_of_lookup_2 in Hi. }
  rewrite (comprehension_valid P HP). cbn [bind].
  eexists _, _. split; [apply RepositoryFacts.get_by_user_id_listing|].
  split; [reflexivity|]. cbn [total total_pages items].
  assert (HT : 0 <= T) by lia.
  set (n := (T + s - 1) / s).
  assert (Hn : (n - 1) * s < T <= n * s)
    by (subst n; Z.to_euclidean_division_equations; nia).
  assert (Hn0 : 0 <= n) by (subst n; apply Z.div_pos; lia).
  split; [done|]. split; [done|]. split; [done|].
  assert (Hoff : 0 <= (p - 1) * s) by nia.
  assert (Hlen : length P
                 = Nat.min (Z.to_nat s)
                     (length L - Z.to_nat ((p - 1) * s)))
    by (unfold P; by rewrite length_take, length_drop).
  split.
  - intros Hnil. apply (f_equal length) in Hnil.
    rewrite length_map, Hlen in Hnil. simpl in Hnil.
    assert (T <= (p - 1) * s) by lia. nia.
  - intros Hlt. apply length_zero_iff_nil. rewrite length_map, Hlen.
    assert (T <= (p - 1) * s) by nia. lia.
Qed.

(** X8.  With the cache on, a page that [get_transactions] has computed is
    what every later request of the user with the same filters and
    pagination gets while the entry lasts, whatever has become of the table
    in between; and the cache is left as it is.  With the cache off, every
    request is computed anew and the cache is not touched. *)
Theorem get_transactions_serves_the_cached_page (db db' : list Transaction)
    (cache cache1 : CacheService) (user : string)
    (filters : option TransactionFilter)
    (pagination : option PaginationParams) (r : PaginatedResponse) :
  get_transactions db cache user filters pagination = Ok (r, cache1) ->
  if enabled cache
  then get_transactions db' cache1 user filters pagination = Ok (r, cache1)
  else cache1 = cache
       /\ compute_page db user filters pagination = Ok r.
Proof.
  unfold Service.get_transactions, cache_get, cache_set.
  destruct (enabled cache) eqn:Hen.
  - destruct (entries cache !! _) as [[p0|p0|t0]|] eqn:Hget;
      try discriminate.
    + intros [= <- <-]. by rewrite Hen, Hget.
    + destruct (compute_page db user filters pagination) as [res|e];
        [|discriminate].
      cbn [bind]. intros [= <- <-]. cbn [enabled entries].
      by rewrite lookup_insert_eq.
  - destruct (compute_page db user filters pagination) as [res|e];
      [|discriminate].
    cbn [bind]. by intros [= <- <-].
Qed.

(** *** Following [next_cursor] *)

(** A client that asks for a page and then follows [next_cursor] until there
    is none, for [n] requests at most: the items it has received. *)
Fixpoint walk (n : nat) (db : list Transaction) (cache : CacheService)
    (user : string) (filters : option TransactionFilter) (lim : Z)
    (cur : option string) : res (list TransactionResponse) :=
  match n with
  | O => Ok []
  | S n' =>
      let! (p, cache') :=
        get_transactions_cursor db cache user filters
          (Some {| cursor := cur; limit := lim |}) in
      match next_cursor p with
      | Some c =>
          let! rest := walk n' db cache' user filters lim (Some c) in
          Ok (c_items p ++ rest)
      | None => Ok (c_items p)
      end
  end.

(** The cursor of the row that ends [l1]; none where [l1] is empty. *)
Definition points_after (cur : option string) (l1 : list Transaction)
  : Prop :=
  match last l1 with
  | Some r => exists c, cur = Some c
                /\ Cursor.encode_cursor (uuid_str (id r)) (created_at r) = Ok c
  | None => cur = None
  end.

Definition dated (t : Transaction) : Prop := datetime_ok (created_at t) = true.

Lemma compute_cursor_page_table db user filters cp :
  from_table filters ->
  compute_cursor_page db user filters cp
  = let! (transactions, has_more) :=
      get_by_user_id_cursor is_sqlite ilike lower headroom db user filters
        cp in
    let! items := comprehension model_validate transactions in
    let! next_cursor :=
      match last transactions, has_more with
      | Some last_transaction, true =>
          let! c := Cursor.encode_cursor (uuid_str (id last_transaction))
                      (created_at last_transaction) in
          Ok (Some c)
      | _, _ => Ok None
      end in
    Ok {| c_items := items;
          next_cursor := next_cursor; has_more := has_more;
          c_limit := match cp with Some cp => limit cp | None => 20 end |}.
Proof.
  intros Hpath. unfold Service.compute_cursor_page.
  destruct Hpath as [-> | ->]; [done|].
  by destruct (searching filters) as [[f q]|]; cbn [negb].
Qed.

Lemma compute_cursor_page_next db user filters cp p c :
  compute_cursor_page db user filters cp = Ok p ->
  next_cursor p = Some c ->
  exists r, Cursor.encode_cursor (uuid_str (id r)) (created_at r) = Ok c.
Proof.
  unfold Service.compute_cursor_page. intros H.
  match type of H with
  | bind ?m _ = _ => destruct m as [[transactions more]|e]; [|discriminate]
  end.
  cbn [bind] in H.
  destruct (comprehension model_validate transactions) as [validated|e];
    [|discriminate].
  cbn [bind] in H.
  destruct (last transactions) as [r|], more; cbn [bind] in H;
    try (injection H as <-; discriminate).
  destruct (Cursor.encode_cursor _ _) as [c'|e] eqn:Henc; [|discriminate].
  cbn [bind] in H. injection H as <-. cbn [next_cursor].
  intros [= <-]. by exists r.
Qed.

(** X10.  With the cache on, the first answer to a request that carries a
    cursor made by [encode_cursor] is stored under a key that the
    [next_cursor] of that answer has as well: the request that follows
    [next_cursor] is answered with the same page again, whatever the table
    holds, and so is every request after it; a client that follows
    [next_cursor] receives the items of that page over and over. *)
Theorem next_cursor_is_answered_from_the_cache (db : list Transaction)
    (cache cache1 : CacheService) (user : string)
    (filters : option TransactionFilter) (lim : Z)
    (transaction_id : string) (created_at : datetime) (cur c : string)
    (p : CursorPaginatedResponse) :
  enabled cache = true ->
  Cursor.encode_cursor transaction_id created_at = Ok cur ->
  cache_get cache
    (_build_cache_key_cursor user filters
       (Some {| cursor := Some cur; limit := lim |})) = None ->
  get_transactions_cursor db cache user filters
    (Some {| cursor := Some cur; limit := lim |}) = Ok (p, cache1) ->
  next_cursor p = Some c ->
  forall db',
    get_transactions_cursor db' cache1 user filters
      (Some {| cursor := Some c; limit := lim |}) = Ok (p, cache1)
    /\ forall n, walk n db' cache1 user filters lim (Some c)
                 = Ok (mjoin (replicate n (c_items p))).
Proof.
  intros Hen Hcur Hmiss Hfirst Hnext db'.
  unfold Service.get_transactions_cursor in Hfirst. rewrite Hmiss in Hfirst.
  destruct (compute_cursor_page db user filters _) as [result|e] eqn:Hpage;
    [|discriminate].
  cbn [bind] in Hfirst. injection Hfirst as <- <-.
  destruct (compute_cursor_page_next _ _ _ _ _ _ Hpage Hnext) as [r Henc].
  assert (Hagain :
    get_transactions_cursor db' 
      (cache_set cache
         (_build_cache_key_cursor user filters
            (Some {| cursor := Some cur; limit := lim |}))
         (CachedCursorPage result)) user filters
      (Some {| cursor := Some c; limit := lim |})
    = Ok (result,
          cache_set cache
            (_build_cache_key_cursor user filters
               (Some {| cursor := Some cur; limit := lim |}))
            (CachedCursorPage result))).
  { unfold Service.get_transactions_cursor.
    rewrite (CursorSpec.encoded_cursors_share_cache_key user filters lim _ _
               _ _ c cur Henc Hcur).
    unfold cache_get, cache_set. rewrite Hen. cbn [enabled entries].
    by rewrite lookup_insert_eq. }
  split; [exact Hagain|].
  induction n as [|n IH]; [done|].
  cbn [walk]. rewrite Hagain. cbn [bind]. rewrite Hnext, IH. done.
Qed.

End WithCollaborators.

Section Postgres.
Context (ilike : string -> string -> bool)
        (lower : string -> string)
        (search_enabled : bool)
        (search : string -> string -> list (string * string)
                  -> option string -> option string -> Z -> Z
                  -> list string * Z)
        (headroom : nat).

Abbreviation listing := (RepositoryFacts.listing false ilike lower).
Abbreviation walk := (walk false ilike lower search_enabled search headroom).
Abbreviation from_table := (from_table search_enabled).

Lemma encode_cursor_of_dated (r : Transaction) :
  (0 < headroom)%nat -> dated r ->
  exists c,
    Cursor.encode_cursor (uuid_str (id r)) (created_at r) = Ok c
    /\ Cursor.decode_cursor headroom c
       = Ok (Some (JStr (uuid_str (id r)), created_at r)).
Proof.
  intros Hh Hok.
  exact (CursorSpec.decode_encode_plain headroom (uuid_str (id r))
           (created_at r) Hh (CursorSpec.plain_uuid_str (id r)) Hok).
Qed.

Lemma keyset_page_rest db user filters lim cur l1 l2 :
  NoDup (map id db) -> Forall KeysetSpec.small_id db -> Forall dated db ->
  1 <= lim < 2 ^ 63 - 1 -> (0 < headroom)%nat ->
  listing db user filters = l1 ++ l2 -> points_after cur l1 ->
  get_by_user_id_cursor false ilike lower headroom db user filters
    (Some {| cursor := cur; limit := lim |})
  = Ok (take (Z.to_nat lim) l2, Z.of_nat (length l2) >? lim).
Proof.
  intros Hnd Hsmall Hdated Hlim Hh HL Hcur. unfold points_after in Hcur.
  destruct l1 as [|x l1'] using rev_ind.
  - simpl in Hcur, HL. subst cur. rewrite <- HL.
    by apply KeysetFacts.keyset_first_page.
  - rewrite last_snoc in Hcur. destruct Hcur as (c & -> & Henc).
    rewrite <- app_assoc in HL. simpl in HL.
    apply (KeysetFacts.keyset_page_after ilike lower headroom
             db user filters lim c l1' x l2); try done.
    assert (Hx : dated x).
    { rewrite Forall_forall in Hdated. apply Hdated.
      apply (RepositoryFacts.listing_in_table false ilike lower db user
               filters). rewrite HL.
      apply elem_of_app. right. left. }
    destruct (encode_cursor_of_dated x Hh Hx) as (c' & Henc' & Hdec).
    rewrite Henc in Henc'. by injection Henc' as <-.
Qed.

Lemma last_app_take {A} (l1 l2 : list A) (k : nat) :
  (0 < k)%nat -> l2 <> [] -> last (l1 ++ take k l2) = last (take k l2).
Proof.
  intros Hk Hl2. destruct l2 as [|x l2]; [done|].
  destruct k as [|k]; [lia|]. simpl take.
  by rewrite last_app_cons.
Qed.

Lemma walk_table db cache user filters lim :
  NoDup (map id db) -> Forall KeysetSpec.small_id db -> Forall dated db ->
  Forall valid db ->
  1 <= lim < 2 ^ 63 - 1 -> (0 < headroom)%nat ->
  from_table filters -> enabled cache = false ->
  forall n l1 l2 cur,
    listing db user filters = l1 ++ l2 -> points_after cur l1 ->
    walk n db cache user filters lim cur
    = Ok (map map_custom_metadata (take (n * Z.to_nat lim) l2)).
Proof.
  intros Hnd Hsmall Hdated Hvalid Hlim Hh Hpath Hoff.
  induction n as [|n IH]; intros l1 l2 cur HL Hcur; [done|].
  cbn [ServiceFacts.walk].
  unfold Service.get_transactions_cursor, cache_get, cache_set.
  rewrite Hoff, (compute_cursor_page_table _ _ _ _ _ _ _ _ _ _ Hpath).
  rewrite (keyset_page_rest db user filters lim cur l1 l2) by done.
  cbn [bind limit]. set (k := Z.to_nat lim).
  assert (Hk : (0 < k)%nat) by lia.
  assert (Hin : forall x, x ∈ take k l2 -> x ∈ db).
  { intros x Hx. apply (RepositoryFacts.listing_in_table false ilike lower db user
               filters).
    rewrite HL. apply elem_of_app. right.
    apply elem_of_take in Hx as (i & Hi & _).
    by apply list_elem_of_lookup_2 in Hi. }
  rewrite (comprehension_valid (take k l2))
    by (by apply (Forall_sublist_of valid db)).
  cbn [bind].
  destruct (Z.of_nat (length l2) >? lim) eqn:Hmore.
  - assert (Hlen : (k < length l2)%nat) by lia.
    assert (Hne : l2 <> []) by (intros ->; simpl in Hlen; lia).
    destruct (last (take k l2)) as [r|] eqn:Hlast.
    + assert (Hr : dated r).
      { rewrite Forall_forall in Hdated. apply Hdated. apply Hin.
        by apply last_Some_elem_of in Hlast. }
      destruct (encode_cursor_of_dated r Hh Hr) as (c & Henc & _).
      rewrite Henc. cbn [bind next_cursor c_items].
      rewrite (IH (l1 ++ take k l2) (drop k l2) (Some c)).
      * cbn [bind]. rewrite <- map_app, take_take_drop.
        by replace (k + n * k)%nat with (S n * k)%nat by lia.
      * by rewrite <- app_assoc, take_drop.
      * unfold points_after. rewrite last_app_take, Hlast by done.
        by exists c.
    + apply last_None in Hlast. destruct l2 as [|x l2]; [done|].
      subst k. by destruct (Z.to_nat lim); [lia|].
  - assert (Hlen : (length l2 <= k)%nat) by lia.
    assert (Hnext : forall o : option Transaction,
              match o, false with
              | Some last_transaction, true =>
                  let! c := Cursor.encode_cursor
                              (uuid_str (id last_transaction))
                              (created_at last_transaction) in
                  Ok (Some c)
              | _, _ => Ok None
              end = Ok None) by (by intros [t|]).
    rewrite Hnext. cbn [bind next_cursor c_items].
    rewrite !take_ge; [done| nia | lia].
Qed.

(** X9.  On PostgreSQL, with the cache off and the request answered from
    the table, a client that starts without a cursor and follows
    [next_cursor] receives the rows of the unpaginated listing in order,
    none twice and none left out: after [n] requests it holds the first
    [n * limit] rows, and all of them as soon as that covers the listing.
    The rows of the table have distinct 128-bit identifiers and valid
    dates, and [TransactionResponse] accepts each of them. *)
Theorem following_next_cursor_walks_the_listing (db : list Transaction)
    (cache : CacheService) (user : string)
    (filters : option TransactionFilter) (lim : Z) :
  NoDup (map id db) -> Forall KeysetSpec.small_id db -> Forall dated db ->
  Forall valid db ->
  1 <= lim < 2 ^ 63 - 1 -> (0 < headroom)%nat ->
  from_table filters -> enabled cache = false ->
  exists rows,
    get_by_user_id false ilike lower db user filters None
    = Ok (rows, Z.of_nat (length rows))
    /\ forall n,
         walk n db cache user filters lim None
         = Ok (map map_custom_metadata (take (n * Z.to_nat lim) rows))
         /\ (Z.of_nat (length rows) <= Z.of_nat n * lim ->
             walk n db cache user filters lim None
             = Ok (map map_custom_metadata rows)).
Proof.
  intros Hnd Hsmall Hdated Hvalid Hlim Hh Hpath Hoff.
  exists (listing db user filters).
  split; [apply RepositoryFacts.get_by_user_id_listing|].
  intros n.
  assert (Hwalk := walk_table db cache user filters lim Hnd Hsmall Hdated
                     Hvalid Hlim Hh Hpath Hoff n [] (listing db user filters)
                     None eq_refl eq_refl).
  split; [exact Hwalk|].
  intros Hcover. rewrite Hwalk, take_ge; [done|nia].
Qed.

End Postgres.

Lemma total_pages_counts_the_nonempty_pages_witness :
  exists rows r cache1,
    get_by_user_id true (fun _ _ => true) (fun s => s) KeysetSpec.three_rows
      "u2" None None = Ok (rows, Z.of_nat (length rows))
    /\ Service.get_transactions true (fun _ _ => true) (fun s => s) false
         (fun _ _ _ _ _ _ _ => ([], 0)) KeysetSpec.three_rows
         RoutesSpec.no_cache "u2" None
         (Some {| page := 2; page_size := 2 |}) = Ok (r, cache1)
    /\ total r = Z.of_nat (length rows)
    /\ 0 <= total_pages r
    /\ (total_pages r - 1) * 2 < total r <= total_pages r * 2
    /\ (items r = [] <-> total_pages r < 2).
Proof.
  apply (total_pages_counts_the_nonempty_pages true (fun _ _ => true)
           (fun s => s) false (fun _ _ _ _ _ _ _ => ([], 0))
           KeysetSpec.three_rows RoutesSpec.no_cache "u2" None 2 2).
  - by left.
  - lia.
  - change (2 ^ 63) with 9223372036854775808. lia.
  - change (2 ^ 63) with 9223372036854775808. lia.
  - repeat constructor; eexists; vm_compute; reflexivity.
  - reflexivity.
Defined.

Lemma get_transactions_serves_the_cached_page_witness :
  match ServiceSpec.serve ServiceSpec.two_rows RoutesSpec.no_cache
          ServiceSpec.any_payment with
  | Ok (r, cache1) =>
      ServiceSpec.serve [] cache1 ServiceSpec.any_payment = Ok (r, cache1)
  | Raise _ => False
  end.
Proof.
  destruct (ServiceSpec.serve ServiceSpec.two_rows RoutesSpec.no_cache
              ServiceSpec.any_payment) as [[r cache1]|e] eqn:H.
  - apply (get_transactions_serves_the_cached_page false (fun _ _ => true)
             (fun s => s) false (fun _ _ _ _ _ _ _ => ([], 0))
             ServiceSpec.two_rows [] RoutesSpec.no_cache cache1 "u2"
             (Some ServiceSpec.any_payment) (Some ServiceSpec.first_page) r H).
  - vm_compute in H. discriminate.
Defined.

Lemma following_next_cursor_walks_the_listing_witness :
  walk false (fun _ _ => true) (fun s => s) false
    (fun _ _ _ _ _ _ _ => ([], 0)) 900 2 KeysetSpec.three_rows
    {| enabled := false; entries := ∅ |} "u2" None 2 None
  = Ok (map map_custom_metadata
          [RoutesSpec.row_of_u2; ServiceSpec.small_row; KeysetSpec.old_row]).
Proof.
  destruct (following_next_cursor_walks_the_listing (fun _ _ => true)
              (fun s => s) false (fun _ _ _ _ _ _ _ => ([], 0)) 900
              KeysetSpec.three_rows {| enabled := false; entries := ∅ |}
              "u2" None 2) as (rows & Hrows & Hwalk).
  - apply (bool_decide_unpack _). vm_compute. exact I.
  - repeat constructor; unfold KeysetSpec.small_id; vm_compute; reflexivity.
  - repeat constructor; vm_compute; reflexivity.
  - repeat constructor; eexists; vm_compute; reflexivity.
  - change (2 ^ 63) with 9223372036854775808. lia.
  - lia.
  - by left.
  - reflexivity.
  - assert (Hr : rows = [RoutesSpec.row_of_u2; ServiceSpec.small_row;
                         KeysetSpec.old_row]).
    { vm_compute in Hrows. by injection Hrows as <-. }
    destruct (Hwalk 2%nat) as [_ Hall]. rewrite Hall; [by rewrite Hr|].
    rewrite Hr. vm_compute. discriminate.
Defined.

Lemma next_cursor_is_answered_from_the_cache_witness :
  match Service.get_transactions_cursor true (fun _ _ => true) (fun s => s)
          false (fun _ _ _ _ _ _ _ => ([], 0)) 900 KeysetSpec.three_rows
          RoutesSpec.no_cache "u2" None
          (Some {| cursor := Some ServiceSpec.cursor_a; limit := 1 |}) with
  | Ok (p, cache1) =>
      match next_cursor p with
      | Some c =>
          c_items p = [map_custom_metadata ServiceSpec.small_row]
          /\ Service.get_transactions_cursor true (fun _ _ => true)
               (fun s => s) false (fun _ _ _ _ _ _ _ => ([], 0)) 900
               KeysetSpec.three_rows cache1 "u2" None
               (Some {| cursor := Some c; limit := 1 |}) = Ok (p, cache1)
      | None => False
      end
  | Raise _ => False
  end.
Proof.
  destruct (Service.get_transactions_cursor true (fun _ _ => true)
              (fun s => s) false (fun _ _ _ _ _ _ _ => ([], 0)) 900
              KeysetSpec.three_rows RoutesSpec.no_cache "u2" None
              (Some {| cursor := Some ServiceSpec.cursor_a; limit := 1 |}))
    as [[p cache1]|e] eqn:Hfirst; [|vm_compute in Hfirst; discriminate].
  destruct (next_cursor p) as [c|] eqn:Hnext.
  - split; [vm_compute in Hfirst; by injection Hfirst as <- _|].
    apply (next_cursor_is_answered_from_the_cache true (fun _ _ => true)
             (fun s => s) false (fun _ _ _ _ _ _ _ => ([], 0)) 900
             KeysetSpec.three_rows RoutesSpec.no_cache cache1 "u2" None 1
             "123e4567-e89b-12d3-a456-426614174000" RoutesSpec.noon
             ServiceSpec.cursor_a c p).
    + reflexivity.
    + vm_compute. reflexivity.
    + vm_compute. reflexivity.
    + exact Hfirst.
    + exact Hnext.
  - vm_compute in Hfirst. injection Hfirst as <- _. discriminate.
Defined.

End ServiceFacts.

(* ===================================================================== *)
(** ** The consumer: batches, redelivery and commits *)
(* ===================================================================== *)

Module ConsumerFacts.
Import Py Consumer.

Section WithRuntime.
Context (sha256 : string -> string)
        (py_repr : json -> string)
        (py_float : json -> res json)
        (build_search_content : dict -> string)
        (utcnow : string)
        (cfg : config).

Abbreviation process_message :=
  (process_message sha256 py_repr py_float build_search_content utcnow cfg).
Abbreviation handle :=
  (handle sha256 py_repr py_float build_search_content utcnow cfg).
Abbreviation _process_batch :=
  (_process_batch sha256 py_repr py_float build_search_content utcnow cfg).
Abbreviation message_id_of := (_generate_message_id sha256 py_repr).

(** Where a message sits in its topic. *)
Definition position (m : message) : Z * Z := (partition m, offset m).

(** What one turn of the loop may do to the state: the sets of processed
    messages and the effects grow, and the message, at its position, joins
    the end of one of the two lists. *)
Record turn (st st' : state) (m : message) : Prop := {
  turn_processed : processed_messages st ⊆ processed_messages st';
  turn_cache : cache_keys st ⊆ cache_keys st';
  turn_effects : exists l, effects st' = effects st ++ l;
  turn_lists :
    exists m',
      ((successful st' = successful st ++ [m'] /\ failed st' = failed st)
       \/ (successful st' = successful st /\ failed st' = failed st ++ [m']))
      /\ position m' = position m
}.

Lemma process_message_turn st m o : turn st (process_message st (m, o)) m.
Proof.
  unfold Consumer.process_message, Consumer.handle, _write_to_audit_db.
  repeat case_match; simplify_eq.
  all: split; cbn [processed_messages cache_keys effects successful failed
                   ack fail log set_breaker _mark_as_processed];
    [ set_solver
    | first [set_solver | case_match; set_solver]
    | rewrite <- ?app_assoc;
      first [by eexists | by exists []; rewrite app_nil_r]
    | eexists; split; [first [by left | by right] | reflexivity] ].
Qed.

Lemma turns_fold batch : forall st,
  let st' := fold_left process_message batch st in
  processed_messages st ⊆ processed_messages st'
  /\ cache_keys st ⊆ cache_keys st'
  /\ (exists l, effects st' = effects st ++ l)
  /\ exists acked refused,
       successful st' = successful st ++ acked
       /\ failed st' = failed st ++ refused
       /\ map position acked ++ map position refused
           ≡ₚ map (position ∘ fst) batch
       /\ sublist (map position acked) (map (position ∘ fst) batch)
       /\ sublist (map position refused) (map (position ∘ fst) batch).
Proof.
  induction batch as [|[m o] batch IH]; intros st; cbn [fold_left].
  - split; [done|]. split; [done|].
    split; [by exists []; rewrite app_nil_r|].
    exists [], []. by rewrite !app_nil_r.
  - destruct (process_message_turn st m o) as [Hp Hc [l Hl] (m' & Hm & Hpos)].
    destruct (IH (process_message st (m, o)))
      as (Hp' & Hc' & [l' Hl'] & acked & refused & Hs & Hf & Hperm & Ha & Hr).
    split; [by etrans|]. split; [by etrans|].
    split; [exists (l ++ l'); by rewrite Hl', Hl, app_assoc|].
    cbn [map compose fst]. fold (position m). rewrite <- Hpos.
    destruct Hm as [[Hs1 Hf1] | [Hs1 Hf1]].
    + exists (m' :: acked), refused. rewrite Hs, Hs1, Hf, Hf1, <- app_assoc.
      split; [done|]. split; [done|]. cbn [map app].
      split; [by rewrite Hperm|].
      split; [by apply sublist_skip | by apply sublist_cons].
    + exists acked, (m' :: refused). rewrite Hs, Hs1, Hf, Hf1, <- app_assoc.
      split; [done|]. split; [done|]. cbn [map].
      split; [by rewrite <- Permutation_middle, Hperm|].
      split; [by apply sublist_cons | by apply sublist_skip].
Qed.

Lemma commit_successful_lists st :
  successful (commit_successful cfg st) = successful st
  /\ failed (commit_successful cfg st) = failed st
  /\ processed_messages (commit_successful cfg st) = processed_messages st
  /\ breaker (commit_successful cfg st) = breaker st.
Proof.
  unfold commit_successful.
  destruct (successful st) as [|m l] eqn:Hs; [done|].
  by destruct (kafka_enable_auto_commit cfg).
Qed.

Lemma send_failed_to_dlq_lists st :
  successful (send_failed_to_dlq cfg st) = successful st
  /\ failed (send_failed_to_dlq cfg st) = failed st
  /\ processed_messages (send_failed_to_dlq cfg st) = processed_messages st.
Proof.
  rewrite ConsumerSpec.send_failed_to_dlq_effects.
  by destruct (CircuitBreaker.state (breaker st)).
Qed.

(** X11.  [_process_batch] puts every message of a batch in exactly one of
    its two lists, [successful] or [failed], whatever the message holds and
    whatever the index, the audit database and the breaker do: the positions
    (partition and offset) of the two lists together are those of the batch,
    each list in the order of the batch; and no message that was marked as
    processed before the batch is forgotten. *)
Theorem batch_sorts_every_message (st : state)
    (batch : list (message * outcomes)) :
  batch <> [] ->
  let st' := _process_batch st batch in
  let positions := map (position ∘ fst) batch in
  map position (successful st') ++ map position (failed st') ≡ₚ positions
  /\ sublist (map position (successful st')) positions
  /\ sublist (map position (failed st')) positions
  /\ processed_messages st ⊆ processed_messages st'.
Proof.
  intros Hne. cbv zeta. unfold Consumer._process_batch.
  destruct batch as [|mo batch]; [done|].
  set (st0 := {| processed_messages := processed_messages st;
                 cache_keys := cache_keys st; breaker := breaker st;
                 successful := []; failed := []; effects := effects st |}).
  destruct (turns_fold (mo :: batch) st0)
    as (Hp & _ & _ & acked & refused & Hs & Hf & Hperm & Ha & Hr).
  cbv zeta in *.
  destruct (send_failed_to_dlq_lists
              (commit_successful cfg
                 (fold_left process_message (mo :: batch) st0)))
    as (-> & -> & ->).
  destruct (commit_successful_lists
              (fold_left process_message (mo :: batch) st0))
    as (-> & -> & -> & _).
  rewrite Hs, Hf. by cbn [successful failed st0 app].
Qed.

(** *** Deliveries of a message that was marked as processed *)

Lemma duplicate_acked st m o i :
  message_id_of (value m) = Ok i -> _is_duplicate cfg st i = true ->
  process_message st (m, o) = ack st m.
Proof.
  intros Hid Hdup. unfold Consumer.process_message, Consumer.handle.
  rewrite Hid. unfold _generate_message_id in Hid.
  destruct (value m) as [| | | | | |d]; try discriminate.
  cbn [get]. rewrite Hdup.
  by destruct (negb (truthy _)).
Qed.

Lemma duplicate_stays st st' i :
  processed_messages st ⊆ processed_messages st' ->
  cache_keys st ⊆ cache_keys st' ->
  _is_duplicate cfg st i = true -> _is_duplicate cfg st' i = true.
Proof.
  intros Hp Hc. unfold _is_duplicate.
  rewrite !orb_true_iff, !andb_true_iff, !bool_decide_eq_true.
  intros [Hi|[Hen Hi]]; [left; by apply Hp|right; split; [done|by apply Hc]].
Qed.

Lemma marked_is_duplicate st i :
  i ∈ processed_messages st -> _is_duplicate cfg st i = true.
Proof.
  intros Hi. unfold _is_duplicate. by rewrite bool_decide_eq_true_2.
Qed.

(** X12.  A [transaction.created] or [transaction.updated] message whose
    identifier is computed (the text it is made of can be encoded) and that
    has been through the fan-out is not handled again: whatever messages
    are processed in between, every later delivery of the same value is
    acknowledged without enrichment, index call, audit write or any other
    effect, and leaves everything but [successful] as it was. *)
Theorem redelivery_is_acked_without_effects (st : state) (m : message)
    (o : outcomes) (d tx : dict) (e : string) (es : dict) (i : string) :
  value m = JObj d ->
  dict_get d "transaction" = Some (JObj tx) -> tx <> [] ->
  dict_get d "event_type" = Some (JStr e) ->
  e = "transaction.created" \/ e = "transaction.updated" ->
  _generate_message_id sha256 py_repr (JObj d) = Ok i ->
  _normalize_transaction py_repr py_float utcnow
    (ConsumerSpec.versioned build_search_content utcnow cfg d tx o) = Ok es ->
  forall (between : list (message * outcomes)) (m' : message) (o' : outcomes),
    value m' = JObj d ->
    let st' := fold_left process_message between
                 (process_message st (m, o)) in
    process_message st' (m', o') = ack st' m'.
Proof.
  intros Hv Htx Hne He Hcu Hid Hnorm between m' o' Hv'. cbv zeta.
  apply (duplicate_acked _ _ _ i); [by rewrite Hv'|].
  destruct (turns_fold between (process_message st (m, o)))
    as (Hp & Hc & _).
  apply (duplicate_stays (process_message st (m, o))); [done|done|].
  destruct (_is_duplicate cfg st i) eqn:Hdup.
  - destruct (process_message_turn st m o) as [Hp1 Hc1 _ _].
    by apply (duplicate_stays st).
  - apply marked_is_duplicate.
    by apply (ConsumerSpec.created_or_updated_always_acked sha256 py_repr
                py_float build_search_content utcnow cfg st m o d tx i es e).
Qed.

End WithRuntime.

(** *** The offsets of the commit *)

(** [offsets[msg.partition] = {msg.offset + 1: None}]. *)
Definition set_offset (m : message) : list (Z * Z) -> list (Z * Z) :=
  fix set (d : list (Z * Z)) : list (Z * Z) :=
    match d with
    | [] => [(partition m, offset m + 1)]
    | (p, o) :: d' =>
        if p =? partition m then (p, offset m + 1) :: d'
        else (p, o) :: set d'
    end.

Lemma commit_offsets_cons acc m rest :
  commit_offsets acc (m :: rest) = commit_offsets (set_offset m acc) rest.
Proof. reflexivity. Qed.

Lemma set_offset_keys m acc p :
  p ∈ map fst (set_offset m acc) <-> p = partition m \/ p ∈ map fst acc.
Proof.
  induction acc as [|[p' o'] acc IH]; cbn [set_offset map fst].
  - rewrite list_elem_of_singleton, elem_of_nil. tauto.
  - destruct (Z.eqb_spec p' (partition m)) as [->|Hp]; cbn [map fst].
    + rewrite elem_of_cons. tauto.
    + rewrite !elem_of_cons, IH. tauto.
Qed.

Lemma set_offset_NoDup m acc :
  NoDup (map fst acc) -> NoDup (map fst (set_offset m acc)).
Proof.
  induction acc as [|[p' o'] acc IH]; cbn [set_offset map fst].
  - intros _. apply NoDup_singleton.
  - rewrite NoDup_cons. intros [Hp' Hnd].
    destruct (Z.eqb_spec p' (partition m)) as [->|Hp]; cbn [map fst].
    + by apply NoDup_cons.
    + apply NoDup_cons. split; [|by apply IH].
      rewrite set_offset_keys. intros [?|?]; done.
Qed.

Lemma set_offset_elem m acc p o :
  NoDup (map fst acc) ->
  (p, o) ∈ set_offset m acc
  <-> (p = partition m /\ o = offset m + 1)
      \/ (p <> partition m /\ (p, o) ∈ acc).
Proof.
  induction acc as [|[p' o'] acc IH]; cbn [set_offset map fst].
  - intros _. rewrite list_elem_of_singleton, elem_of_nil.
    split; [intros [= -> ->]; by left | intros [[-> ->]|[_ []]]; done].
  - rewrite NoDup_cons. intros [Hp' Hnd].
    destruct (Z.eqb_spec p' (partition m)) as [->|Hp].
    + rewrite !elem_of_cons. split.
      * intros [[= -> ->]|Hin]; [by left|]. right. split; [|by right].
        intros ->. apply Hp'. apply list_elem_of_fmap. by exists (partition m, o).
      * intros [[-> ->]|[Hne [[= -> ->]|Hin]]]; [by left|done|by right].
    + rewrite !elem_of_cons, (IH Hnd). split.
      * intros [[= -> ->]|[[-> ->]|[Hne Hin]]].
        -- right. split; [done|by left].
        -- by left.
        -- right. split; [done|by right].
      * intros [[-> ->]|[Hne [[= -> ->]|Hin]]].
        -- right. by left.
        -- by left.
        -- right. right. done.
Qed.

(** The last message of [l] in partition [p] has the offset [o - 1]. *)
Definition last_in_partition (l : list message) (p o : Z) : Prop :=
  exists l1 m l2,
    l = l1 ++ m :: l2 /\ partition m = p /\ o = offset m + 1
    /\ Forall (fun m' => partition m' <> p) l2.

Lemma commit_offsets_spec l : forall acc,
  NoDup (map fst acc) ->
  NoDup (map fst (commit_offsets acc l))
  /\ forall p o,
       (p, o) ∈ commit_offsets acc l
       <-> last_in_partition l p o
           \/ (Forall (fun m' => partition m' <> p) l /\ (p, o) ∈ acc).
Proof.
  induction l as [|m l IH]; intros acc Hnd.
  - split; [done|]. intros p o. cbn [commit_offsets]. split.
    + intros Hin. right. by split.
    + intros [(l1 & m & l2 & Hl & _)|[_ Hin]]; [|done].
      by destruct l1.
  - rewrite commit_offsets_cons.
    destruct (IH (set_offset m acc) (set_offset_NoDup m acc Hnd))
      as [Hnd' Hspec].
    split; [done|]. intros p o. rewrite Hspec, (set_offset_elem _ _ _ _ Hnd).
    unfold last_in_partition. split.
    + intros [(l1 & m0 & l2 & -> & Hp & Ho & Hl2)
             |[Hl [[-> ->]|[Hne Hin]]]].
      * left. by exists (m :: l1), m0, l2.
      * left. by exists [], m, l.
      * right. split; [by constructor|done].
    + intros [(l1 & m0 & l2 & Hl & Hp & Ho & Hl2)|[Hl Hin]].
      * destruct l1 as [|m1 l1]; simplify_eq/=.
        -- right. split; [done|]. by left.
        -- left. by exists l1, m0, l2.
      * apply Forall_cons in Hl as [Hm Hl]. right. split; [done|].
        right. done.
Qed.

(** X13.  The offsets that [_process_batch] commits hold one entry for each
    partition that has an acknowledged message and none for any other
    partition; the entry is the offset after the last acknowledged message of
    the partition in the order of the batch, whatever the offsets of the
    messages before it. *)
Theorem commit_offsets_follow_the_last_message (l : list message) :
  let offsets := commit_offsets [] l in
  NoDup (map fst offsets)
  /\ (forall p, p ∈ map fst offsets <-> p ∈ map partition l)
  /\ forall p o, (p, o) ∈ offsets <-> last_in_partition l p o.
Proof.
  cbv zeta. destruct (commit_offsets_spec l [] (NoDup_nil_2)) as [Hnd Hspec].
  assert (Hlast : forall p o,
            (p, o) ∈ commit_offsets [] l <-> last_in_partition l p o).
  { intros p o. rewrite Hspec. split; [|by left].
    intros [H|[_ H]]; [done|]. by apply elem_of_nil in H. }
  split; [done|]. split; [|done].
  intros p. rewrite !list_elem_of_fmap. split.
  - intros ([p' o] & -> & Hin). apply Hlast in Hin.
    destruct Hin as (l1 & m & l2 & -> & Hp & _). exists m. split; [done|].
    apply elem_of_app. right. by left.
  - intros (m & -> & Hin). induction l as [|m0 l IHl] using rev_ind.
    + by apply elem_of_nil in Hin.
    + clear IHl Hnd Hspec.
      assert (Hex : exists l1 m1 l2, l ++ [m0] = l1 ++ m1 :: l2
                      /\ partition m1 = partition m
                      /\ Forall (fun m' => partition m' <> partition m) l2).
      { clear Hlast. revert Hin. generalize (l ++ [m0]). clear l m0.
        intros l. induction l as [|a l IH] using rev_ind.
        - intros Hin. by apply elem_of_nil in Hin.
        - intros Hin.
          destruct (decide (partition a = partition m)) as [Ha|Ha].
          + by exists l, a, [].
          + apply elem_of_app in Hin as [Hin|Hin].
            * destruct (IH Hin) as (l1 & m1 & l2 & -> & Hp & Hl2).
              exists l1, m1, (l2 ++ [a]). rewrite <- app_assoc.
              split; [done|]. split; [done|].
              apply Forall_app. split; [done|]. by constructor.
            * apply list_elem_of_singleton in Hin. by subst. }
      destruct Hex as (l1 & m1 & l2 & Hl & Hp & Hl2).
      exists (partition m, offset m1 + 1). split; [done|].
      apply Hlast. by exists l1, m1, l2.
Qed.

Lemma batch_sorts_every_message_witness :
  let st' := ConsumerSpec.run_batch (ConsumerSpec.idle (CircuitBreaker.init 5 60))
               [(ConsumerSpec.demo_message "transaction.created" 7,
                 ConsumerSpec.quiet);
                (ConsumerSpec.demo_message "transaction.archived" 8,
                 ConsumerSpec.quiet)] in
  map position (successful st') ++ map position (failed st')
    ≡ₚ [(0, 7); (0, 8)]
  /\ sublist (map position (successful st')) [(0, 7); (0, 8)]
  /\ sublist (map position (failed st')) [(0, 7); (0, 8)]
  /\ ∅ ⊆ processed_messages st'.
Proof.
  apply (batch_sorts_every_message (fun s => s) (fun _ => EmptyString)
           (fun x => Ok x) (fun _ => EmptyString) "2024-01-15T10:30:01"
           ConsumerSpec.demo_cfg
           (ConsumerSpec.idle (CircuitBreaker.init 5 60))
           [(ConsumerSpec.demo_message "transaction.created" 7,
             ConsumerSpec.quiet);
            (ConsumerSpec.demo_message "transaction.archived" 8,
             ConsumerSpec.quiet)]).
  discriminate.
Defined.

Lemma redelivery_is_acked_without_effects_witness :
  let run := Consumer.process_message (fun s => s) (fun _ => EmptyString)
               (fun x => Ok x) (fun _ => EmptyString) "2024-01-15T10:30:01"
               ConsumerSpec.demo_cfg in
  let st' := fold_left run
               [(ConsumerSpec.demo_message "transaction.archived" 8,
                 ConsumerSpec.quiet)]
               (run (ConsumerSpec.idle (CircuitBreaker.init 5 60))
                  (ConsumerSpec.demo_message "transaction.created" 7,
                   ConsumerSpec.quiet)) in
  run st' (ConsumerSpec.demo_message "transaction.created" 9,
           ConsumerSpec.index_error_audit_up)
  = ack st' (ConsumerSpec.demo_message "transaction.created" 9).
Proof.
  eapply (redelivery_is_acked_without_effects (fun s => s)
            (fun _ => EmptyString) (fun x => Ok x) (fun _ => EmptyString)
            "2024-01-15T10:30:01" ConsumerSpec.demo_cfg
            (ConsumerSpec.idle (CircuitBreaker.init 5 60))
            (ConsumerSpec.demo_message "transaction.created" 7)
            ConsumerSpec.quiet _ ConsumerSpec.demo_transaction
            "transaction.created").
  - reflexivity.
  - reflexivity.
  - discriminate.
  - reflexivity.
  - by left.
  - reflexivity.
  - reflexivity.
  - reflexivity.
Defined.

End ConsumerFacts.

(* ===================================================================== *)
(** ** The endpoint of one transaction over the table *)
(* ===================================================================== *)

Module RoutesFacts.
Import Py Schemas Repository Service Routes.

Section WithEngine.
Context (is_sqlite : bool).

Abbreviation get_transaction_endpoint := (get_transaction_endpoint is_sqlite).

Lemma get_by_id_found db s t :
  NoDup (map id db) -> t ∈ db -> UUID s = Ok (id t) ->
  get_by_id is_sqlite db s = Ok (Some t).
Proof.
  intros Hnd Hin Hu. unfold get_by_id. rewrite Hu. f_equal.
  by apply KeysetFacts.first_by_id.
Qed.

Lemma get_by_id_absent db s u :
  UUID s = Ok u -> (forall t, t ∈ db -> id t <> u) ->
  get_by_id is_sqlite db s = Ok None.
Proof.
  intros Hu Hnone. unfold get_by_id. rewrite Hu. f_equal.
  unfold first, all, selected, matches.
  cbn [limit_ filter_ select_all q_where q_order q_offset q_limit app
       forallb drop].
  rewrite KeysetFacts.filter_none; [done|].
  intros x Hx. rewrite andb_true_r.
  destruct (N.eqb_spec (id x) u) as [Hxu|]; [|done].
  by destruct (Hnone x Hx).
Qed.

(** The callers that the endpoint lets read a record: those without a user
    id, and the one whose user id is that of the record. *)
Definition reads (caller : option string) (t : Transaction) : Prop :=
  nonempty caller = None \/ caller = Some (user_id t).

(** X14.  [GET /transactions/{id}] over a table with distinct identifiers,
    for a text that [UUID] reads as an identifier (32 hexadecimal digits,
    with or without hyphens, braces and the [urn:uuid:] prefix) and that is
    not in the cache yet.  When a row has the identifier and
    [TransactionResponse] accepts it, a caller without user id and the
    owner of the row get the record, which is stored in the cache under the
    canonical text of the identifier; from then on, with the cache on, they
    get the same record for every such text of that identifier, whatever
    has become of the table.  When [TransactionResponse] refuses the row,
    the request raises.  When no row has the identifier, the answer is 404
    and nothing is stored. *)
Theorem get_transaction_endpoint_reads_the_table (db : list Transaction)
    (cache : CacheService) (s : string) (u : N) :
  NoDup (map id db) -> UUID s = Ok u ->
  cache_get cache ("transaction:" +:+ uuid_str u) = None ->
  (forall t caller r,
     t ∈ db -> id t = u -> reads caller t ->
     model_validate t = Ok r ->
     let cache1 := cache_set cache ("transaction:" +:+ uuid_str u)
                     (CachedTransaction r) in
     get_transaction_endpoint db cache s caller = Ok (Body r, cache1)
     /\ (enabled cache = true ->
         forall db' s',
           UUID s' = Ok u ->
           get_transaction_endpoint db' cache1 s' caller
           = Ok (Body r, cache1)))
  /\ (forall t caller e,
        t ∈ db -> id t = u -> model_validate t = Raise e ->
        get_transaction_endpoint db cache s caller = Raise e)
  /\ ((forall t, t ∈ db -> id t <> u) ->
      forall caller,
        get_transaction_endpoint db cache s caller
        = Ok (HTTPException 404, cache)).
Proof.
  intros Hnd Hu Hmiss.
  assert (Hcanon : UUID (uuid_str u) = Ok u)
    by (apply UuidFacts.UUID_uuid_str; by apply (KeysetSpec.UUID_bound s)).
  assert (Hallowed : forall t caller r (c : CacheService),
            reads caller t -> model_validate t = Ok r ->
            match nonempty caller with
            | Some v =>
                if negb (String.eqb (r_user_id r) v)
                then Ok (HTTPException 403, c)
                else Ok (Body r, c)
            | None => Ok (Body r, c)
            end = Ok (Body r, c)).
  { intros t caller r c Hreads Hr.
    apply ServiceFacts.model_validate_Ok in Hr as ->.
    destruct Hreads as [-> | ->]; [done|].
    destruct (nonempty (Some (user_id t))) as [v|] eqn:Hv; [|done].
    assert (v = user_id t) as ->
      by (destruct (user_id t); simpl in Hv; congruence).
    cbn [map_custom_metadata r_user_id]. by rewrite String.eqb_refl. }
  split; [|split].
  - intros t caller r Hin Hid Hreads Hr. cbv zeta. subst u. split.
    + unfold Routes.get_transaction_endpoint, Service.get_transaction.
      rewrite Hu. cbv zeta. rewrite Hmiss.
      rewrite (get_by_id_found db _ t Hnd Hin Hcanon). cbn [bind].
      rewrite Hr. cbn [bind].
      by apply (Hallowed t).
    + intros Hen db' s' Hu'.
      unfold Routes.get_transaction_endpoint, Service.get_transaction.
      rewrite Hu'. cbv zeta. unfold cache_get, cache_set. rewrite Hen.
      cbn [enabled entries]. rewrite lookup_insert_eq. cbn [bind].
      by apply (Hallowed t).
  - intros t caller e Hin Hid Hr. subst u.
    unfold Routes.get_transaction_endpoint, Service.get_transaction.
    rewrite Hu. cbv zeta. rewrite Hmiss.
    rewrite (get_by_id_found db _ t Hnd Hin Hcanon). cbn [bind].
    by rewrite Hr.
  - intros Hnone caller.
    unfold Routes.get_transaction_endpoint, Service.get_transaction.
    rewrite Hu. cbv zeta. rewrite Hmiss.
    by rewrite (get_by_id_absent db _ u Hcanon Hnone).
Qed.

End WithEngine.

Lemma get_transaction_endpoint_reads_the_table_witness :
  let t := RoutesSpec.row_of_u2 in
  let cache1 := cache_set RoutesSpec.no_cache
                  ("transaction:" +:+ RoutesSpec.id_of_row)
                  (CachedTransaction (map_custom_metadata t)) in
  Routes.get_transaction_endpoint false [t] RoutesSpec.no_cache
    "{123E4567-E89B-12D3-A456-426614174000}" (Some "u2")
  = Ok (Body (map_custom_metadata t), cache1)
  /\ Routes.get_transaction_endpoint false [] cache1 RoutesSpec.id_of_row
       (Some "u2")
     = Ok (Body (map_custom_metadata t), cache1).
Proof.
  destruct (get_transaction_endpoint_reads_the_table false
              [RoutesSpec.row_of_u2] RoutesSpec.no_cache
              "{123E4567-E89B-12D3-A456-426614174000}"
              24249434048109030647017182301789831168%N) as [Hfound _].
  - apply NoDup_singleton.
  - vm_compute. reflexivity.
  - reflexivity.
  - destruct (Hfound RoutesSpec.row_of_u2 (Some "u2")
                (map_custom_metadata RoutesSpec.row_of_u2))
      as [Hfirst Hnext].
    + apply list_elem_of_singleton. reflexivity.
    + reflexivity.
    + by right.
    + reflexivity.
    + split; [exact Hfirst|].
      apply (Hnext eq_refl [] RoutesSpec.id_of_row). vm_compute. reflexivity.
Defined.

End RoutesFacts.

(* ===================================================================== *)
(** ** Cache keys and users *)
(* ===================================================================== *)

Module CacheKeyFacts.
Import Py Schemas Repository Service.

(** No colon in the text. *)
Fixpoint no_colon (s : string) : bool :=
  match s with
  | EmptyString => true
  | String c r => negb (Ascii.eqb c ":") && no_colon r
  end.

(** What follows the first part of a joined key: nothing, or a colon and the
    other parts. *)
Definition tail_of_key (t : string) : Prop :=
  t = EmptyString \/ exists r, t = String ":" r.

Lemma app_nil_r_string (a : string) : a +:+ EmptyString = a.
Proof.
  induction a as [|x a IH]; [done|].
  change (String x (a +:+ EmptyString) = String x a). by rewrite IH.
Qed.

Lemma app_assoc_string (a b c : string) : (a +:+ b) +:+ c = a +:+ (b +:+ c).
Proof.
  induction a as [|x a IH]; [done|].
  change (String x ((a +:+ b) +:+ c) = String x (a +:+ (b +:+ c))).
  by rewrite IH.
Qed.

Lemma join_colon_cons a parts :
  exists t, join_colon (a :: parts) = a +:+ t /\ tail_of_key t.
Proof.
  unfold join_colon. destruct parts as [|b parts].
  - exists EmptyString. split; [|by left].
    cbn [String.concat]. by rewrite app_nil_r_string.
  - exists (":" +:+ String.concat ":" (b :: parts)). split; [done|].
    right. by eexists.
Qed.

Lemma user_of_key u u' t t' :
  no_colon u = true -> no_colon u' = true ->
  tail_of_key t -> tail_of_key t' ->
  u +:+ t = u' +:+ t' -> u = u'.
Proof.
  revert u'. induction u as [|c u IH]; intros [|c' u'] Hu Hu' Ht Ht' Heq;
    cbn in *.
  - done.
  - destruct Ht as [->|[r ->]]; [done|]. injection Heq as <- _.
    by rewrite Ascii.eqb_refl in Hu'.
  - destruct Ht' as [->|[r ->]]; [done|]. injection Heq as -> _.
    by rewrite Ascii.eqb_refl in Hu.
  - injection Heq as <- Heq. f_equal.
    apply andb_true_iff in Hu as [_ Hu], Hu' as [_ Hu'].
    by apply (IH u').
Qed.

(** X15.  Requests of two users never share a cache key, as long as neither
    user id holds a colon: the key of a page, and that of a cursor page,
    gives the user id back, whatever the filters and the pagination. *)
Theorem cache_keys_tell_users_apart (user user' : string)
    (filters filters' : option TransactionFilter) :
  no_colon user = true -> no_colon user' = true ->
  (forall pagination pagination',
     _build_cache_key user filters pagination
     = _build_cache_key user' filters' pagination' -> user = user')
  /\ (forall cursor_pagination cursor_pagination',
        _build_cache_key_cursor user filters cursor_pagination
        = _build_cache_key_cursor user' filters' cursor_pagination' ->
        user = user').
Proof.
  intros Hu Hu'. split.
  - intros pagination pagination'. unfold _build_cache_key.
    match goal with
    | |- join_colon ([?a] ++ ?l) = join_colon ([?a'] ++ ?l') -> _ =>
        change (join_colon (a :: l) = join_colon (a' :: l') -> user = user');
        destruct (join_colon_cons a l) as (t & -> & Ht);
        destruct (join_colon_cons a' l') as (t' & -> & Ht')
    end.
    rewrite !app_assoc_string. intros Heq. apply String.app_inj in Heq.
    by apply (user_of_key user user' t t').
  - intros cp cp'. unfold _build_cache_key_cursor.
    match goal with
    | |- join_colon ([?a] ++ ?l) = join_colon ([?a'] ++ ?l') -> _ =>
        change (join_colon (a :: l) = join_colon (a' :: l') -> user = user');
        destruct (join_colon_cons a l) as (t & -> & Ht);
        destruct (join_colon_cons a' l') as (t' & -> & Ht')
    end.
    rewrite !app_assoc_string. intros Heq. apply String.app_inj in Heq.
    apply (user_of_key user user' (":cursor" +:+ t) (":cursor" +:+ t'));
      [done|done|right; by eexists|right; by eexists|done].
Qed.

(** With a colon in a user id the keys do not tell the users apart: the
    page of ["a"] filtered by currency and the unfiltered page of
    ["a:currency:USD"] have one key. *)
Example colon_in_user_id_shares_key :
  _build_cache_key "a"
    (Some {| f_user_id := None; f_transaction_type := None; f_product := None;
             f_status := None; f_currency := Some "USD"; start_date := None;
             end_date := None; min_amount := None; max_amount := None;
             search_query := None; metadata_filters := None |}) None
  = _build_cache_key "a:currency:USD" None None.
Proof. reflexivity. Qed.

Lemma cache_keys_tell_users_apart_witness :
  no_colon "u1" = true /\ no_colon "u2" = true
  /\ _build_cache_key "u1" (Some ServiceSpec.any_payment)
       (Some ServiceSpec.first_page)
     <> _build_cache_key "u2" (Some ServiceSpec.any_payment)
          (Some ServiceSpec.first_page).
Proof.
  split; [reflexivity|]. split; [reflexivity|].
  intros Heq.
  destruct (cache_keys_tell_users_apart "u1" "u2"
              (Some ServiceSpec.any_payment) (Some ServiceSpec.any_payment))
    as [Hpage _]; [reflexivity|reflexivity|].
  apply Hpage in Heq. discriminate.
Defined.

End CacheKeyFacts.

(* ===================================================================== *)
(** ** The search path *)
(* ===================================================================== *)

Module SearchFacts.
Import Py Schemas Repository Service.

Section WithCollaborators.
Context (is_sqlite : bool)
        (ilike : string -> string -> bool)
        (lower : string -> string)
        (search : string -> string -> list (string * string)
                  -> option string -> option string -> Z -> Z
                  -> list string * Z).

Abbreviation get_transactions :=
  (get_transactions is_sqlite ilike lower true search).

(** The first row of the table with the identifier that the text denotes. *)
Definition row_of (db : list Transaction) (s : string) : option Transaction :=
  match UUID s with
  | Ok u => List.find (fun t => (id t =? u)%N) db
  | Raise _ => None
  end.

Lemma first_find db u :
  first db (filter_ select_all (fun t => Some (id t =? u)%N))
  = List.find (fun t => (id t =? u)%N) db.
Proof.
  unfold first, all, selected, matches.
  cbn [limit_ filter_ select_all q_where q_order q_offset q_limit app
       forallb drop].
  change (Z.to_nat 1) with 1%nat. rewrite KeysetFacts.head_take_1.
  induction db as [|t db IH]; [done|]. cbn [List.filter find holds].
  rewrite andb_true_r. by destruct (id t =? u)%N.
Qed.

Lemma hydrate_rows db ids :
  is_sqlite = true \/ Forall (fun s => exists u, UUID s = Ok u) ids ->
  hydrate is_sqlite db ids = Ok (omap (row_of db) ids).
Proof.
  intros Hids. induction ids as [|s ids IH]; [done|].
  assert (Hrest : is_sqlite = true
                  \/ Forall (fun s => exists u, UUID s = Ok u) ids).
  { destruct Hids as [?|Hall]; [by left|right]. by inversion Hall. }
  cbn [hydrate omap list_omap]. rewrite (IH Hrest).
  unfold get_by_id, row_of. destruct (UUID s) as [u|e] eqn:Hu.
  - cbn [bind]. rewrite first_find. by destruct (find _ db).
  - destruct Hids as [->|Hall]; [done|].
    inversion Hall as [|? ? [u Hu'] _]. congruence.
Qed.

(** X16.  With the search service on, a request with a search query that
    is not answered from the cache is answered from the search result
    alone.  When the returned identifiers are texts that [UUID] reads and
    [TransactionResponse] accepts the rows they denote, the request
    returns: the items are the rows of the table that the identifiers
    denote, in the order of the search result, an identifier without row
    being skipped; [total] is the number that the search service gave, not
    the number of items; and the rows are not matched against the user or
    the filters again. *)
Theorem search_result_is_hydrated_in_order (db : list Transaction)
    (cache : CacheService) (user : string) (f : TransactionFilter)
    (q : string) (pagination : option PaginationParams)
    (ids : list string) (found : Z) :
  let page := match pagination with Some p => page p | None => 1 end in
  let size := match pagination with Some p => page_size p | None => 20 end in
  nonempty (search_query f) = Some q ->
  cache_get cache (_build_cache_key user (Some f) pagination) = None ->
  search user q (_extract_search_filters f)
    (option_map isoformat (start_date f))
    (option_map isoformat (end_date f)) page size = (ids, found) ->
  Forall (fun s => exists u, UUID s = Ok u) ids ->
  Forall ServiceFacts.valid (omap (row_of db) ids) ->
  exists r cache1,
    get_transactions db cache user (Some f) pagination = Ok (r, cache1)
    /\ items r = map map_custom_metadata (omap (row_of db) ids)
    /\ total r = found
    /\ p_page r = page /\ p_page_size r = size
    /\ total_pages r = (found + size - 1) / size.
Proof.
  intros page size Hq Hmiss Hsearch Hids Hvalid.
  unfold Service.get_transactions, compute_page, searching.
  rewrite Hmiss, Hq. cbn [negb]. fold page size. rewrite Hsearch.
  rewrite (hydrate_rows db ids (or_intror Hids)). cbn [bind].
  rewrite (ServiceFacts.comprehension_valid _ Hvalid). cbn [bind].
  by eexists _, _.
Qed.

End WithCollaborators.

Lemma search_result_is_hydrated_in_order_witness :
  let f := {| f_user_id := None; f_transaction_type := None;
              f_product := None; f_status := None; f_currency := None;
              start_date := None; end_date := None; min_amount := None;
              max_amount := None; search_query := Some "card";
              metadata_filters := None |} in
  let search := fun (_ _ : string) (_ : list (string * string))
                    (_ _ : option string) (_ _ : Z) =>
                  (["00000000-0000-0000-0000-000000000002";
                    "00000000-0000-0000-0000-00000000ffff";
                    RoutesSpec.id_of_row], 7) in
  exists r cache1,
    Service.get_transactions false (fun _ _ => true) (fun s => s) true search
      KeysetSpec.three_rows RoutesSpec.no_cache "u1" (Some f) None
    = Ok (r, cache1)
    /\ items r = map map_custom_metadata
                   [ServiceSpec.small_row; RoutesSpec.row_of_u2]
    /\ total r = 7 /\ p_page r = 1 /\ p_page_size r = 20
    /\ total_pages r = 1.
Proof.
  intros f search.
  apply (search_result_is_hydrated_in_order false (fun _ _ => true)
           (fun s => s) search KeysetSpec.three_rows RoutesSpec.no_cache "u1"
           f "card" None
           ["00000000-0000-0000-0000-000000000002";
            "00000000-0000-0000-0000-00000000ffff"; RoutesSpec.id_of_row] 7).
  - reflexivity.
  - reflexivity.
  - reflexivity.
  - repeat constructor; eexists; vm_compute; reflexivity.
  - repeat constructor; eexists; vm_compute; reflexivity.
Defined.

End SearchFacts.

(* ===================================================================== *)
(** ** The search path with a cursor *)
(* ===================================================================== *)

Module SearchCursorFacts.
Import Py Schemas Repository Service.

Section WithCollaborators.
Context (is_sqlite : bool)
        (ilike : string -> string -> bool)
        (lower : string -> string)
        (search : string -> string -> list (string * string)
                  -> option string -> option string -> Z -> Z
                  -> list string * Z)
        (headroom : nat).

Abbreviation get_transactions_cursor :=
  (get_transactions_cursor is_sqlite ilike lower true search headroom).
Abbreviation row_of := SearchFacts.row_of.

Lemma hydrate_elem db ids : forall l t,
  hydrate is_sqlite db ids = Ok l -> t ∈ l ->
  exists s, s ∈ ids /\ row_of db s = Some t.
Proof.
  induction ids as [|s ids IH]; intros l t; cbn [hydrate].
  - intros [= <-] Hin. by apply elem_of_nil in Hin.
  - destruct (get_by_id is_sqlite db s) as [tx|e] eqn:Hget; [|discriminate].
    destruct (hydrate is_sqlite db ids) as [txs|e]; [|discriminate].
    cbn [bind]. intros [= <-] Hin.
    assert (Hrest : t ∈ txs -> exists s', s' ∈ s :: ids
                                  /\ row_of db s' = Some t).
    { intros Hin'. destruct (IH txs t eq_refl Hin') as (s' & Hs' & Hrow).
      exists s'. split; [by right|done]. }
    destruct tx as [t0|]; [|by apply Hrest].
    apply elem_of_cons in Hin as [->|Hin]; [|by apply Hrest].
    exists s. split; [by left|].
    unfold get_by_id in Hget. unfold SearchFacts.row_of.
    destruct (UUID s) as [u|e].
    + rewrite SearchFacts.first_find in Hget. congruence.
    + by destruct is_sqlite.
Qed.

Lemma hydrate_length db ids : forall l,
  hydrate is_sqlite db ids = Ok l -> (length l <= length ids)%nat.
Proof.
  induction ids as [|s ids IH]; intros l; cbn [hydrate].
  - by intros [= <-].
  - destruct (get_by_id is_sqlite db s) as [tx|e]; [|discriminate].
    destruct (hydrate is_sqlite db ids) as [txs|e]; [|discriminate].
    cbn [bind]. intros [= <-]. specialize (IH txs eq_refl).
    destruct tx; cbn [length]; lia.
Qed.

Lemma filter_after_sublist cid created l : forall l',
  filter_after cid created l = Ok l' -> sublist l' l.
Proof.
  induction l as [|tx l IH]; intros l'; cbn [filter_after].
  - by intros [= <-].
  - match goal with
    | |- bind ?m _ = _ -> _ => destruct m as [keep|e]; [|discriminate]
    end.
    destruct (filter_after cid created l) as [rest|e]; [|discriminate].
    cbn [bind]. intros [= <-]. specialize (IH rest eq_refl).
    destruct keep; [by apply sublist_skip | by apply sublist_cons].
Qed.

Lemma comprehension_elem {A B} (f : A -> res B) (l : list A) : forall l',
  comprehension f l = Ok l' ->
  length l' = length l
  /\ forall y, y ∈ l' -> exists x, x ∈ l /\ f x = Ok y.
Proof.
  induction l as [|x l IH]; intros l'; cbn [comprehension].
  - intros [= <-]. split; [done|]. intros y Hy. by apply elem_of_nil in Hy.
  - destruct (f x) as [y0|e] eqn:Hx; [|discriminate]. cbn [bind].
    destruct (comprehension f l) as [ys|e]; [|discriminate]. cbn [bind].
    intros [= <-]. destruct (IH ys eq_refl) as [Hlen Helem].
    split; [cbn [length]; by rewrite Hlen|].
    intros y [->|Hy]%elem_of_cons.
    + exists x. split; [left|done].
    + destruct (Helem y Hy) as (x' & Hx' & Hfx'). exists x'.
      split; [by right|done].
Qed.

Lemma slice_to_sublist {A} n (l : list A) : sublist (slice_to n l) l.
Proof. unfold slice_to. destruct (0 <=? n); apply sublist_take. Qed.

(** X17.  With the search service on, the cursor pages of a request with a
    search query never go beyond the first [2 * limit] hits: whatever the
    cursor, the search service is asked for page 1 with a page size of
    [limit * 2], and every item of the page is a row that one of the
    identifiers of that answer denotes; a page holds no more items than that
    answer has identifiers. *)
Theorem search_cursor_pages_stay_within_the_first_hits
    (db : list Transaction) (user : string) (f : TransactionFilter)
    (q : string) (lim : Z) (ids : list string) (found : Z) :
  nonempty (search_query f) = Some q ->
  search user q (_extract_search_filters f)
    (option_map isoformat (start_date f))
    (option_map isoformat (end_date f)) 1 (lim * 2) = (ids, found) ->
  forall (cur : option string) (cache cache1 : CacheService)
         (r : CursorPaginatedResponse),
    cache_get cache
      (_build_cache_key_cursor user (Some f)
         (Some {| cursor := cur; limit := lim |})) = None ->
    get_transactions_cursor db cache user (Some f)
      (Some {| cursor := cur; limit := lim |}) = Ok (r, cache1) ->
    (length (c_items r) <= length ids)%nat
    /\ forall x, x ∈ c_items r ->
         exists s t, s ∈ ids /\ row_of db s = Some t
                     /\ model_validate t = Ok x.
Proof.
  intros Hq Hsearch cur cache cache1 r Hmiss.
  unfold Service.get_transactions_cursor, compute_cursor_page, searching.
  rewrite Hmiss, Hq. cbn [negb limit cursor]. rewrite Hsearch.
  destruct (hydrate is_sqlite db ids) as [rows|e] eqn:Hrows; [|discriminate].
  cbn [bind].
  destruct (sort_desc rows) as [sorted|e] eqn:Hsorted; [|discriminate].
  cbn [bind].
  assert (Hperm : sorted ≡ₚ rows).
  { unfold sort_desc in Hsorted. case_match; [discriminate|].
    injection Hsorted as <-. apply merge_sort_Permutation. }
  match goal with
  | |- bind (bind (bind ?m _) _) _ = _ -> _ =>
      destruct m as [kept|e] eqn:Hkept; [|discriminate]
  end.
  cbn [bind].
  destruct (comprehension model_validate (slice_to lim kept))
    as [validated|e] eqn:Hvalidated; [|discriminate].
  cbn [bind].
  match goal with
  | |- bind (bind ?m _) _ = _ -> _ => destruct m as [next|e]; [|discriminate]
  end.
  cbn [bind]. intros [= <- _]. cbn [c_items].
  assert (Hsub : sublist kept sorted).
  { destruct (nonempty cur) as [c|]; [|by injection Hkept as <-].
    destruct (Cursor.decode_cursor headroom c) as [[[cid created]|]|e];
      cbn [bind] in Hkept; [|by injection Hkept as <-|discriminate].
    by apply (filter_after_sublist cid created). }
  assert (Hpage : sublist (slice_to lim kept) sorted)
    by (etrans; [apply slice_to_sublist|done]).
  destruct (comprehension_elem model_validate _ _ Hvalidated)
    as [Hlen Helem].
  split.
  - rewrite Hlen. apply sublist_length in Hpage.
    rewrite Hperm in Hpage.
    pose proof (hydrate_length db ids rows Hrows). lia.
  - intros x Hx. destruct (Helem x Hx) as (t & Ht & Hx').
    assert (Hin : t ∈ rows).
    { eapply sublist_submseteq, elem_of_submseteq in Hpage; [|exact Ht].
      by rewrite Hperm in Hpage. }
    destruct (hydrate_elem db ids rows t Hrows Hin) as (s & Hs & Hrow).
    by exists s, t.
Qed.

End WithCollaborators.

(** A query for which the search service reports two hits. *)
Definition card_query : TransactionFilter :=
  {| f_user_id := None; f_transaction_type := None; f_product := None;
     f_status := None; f_currency := None; start_date := None;
     end_date := None; min_amount := None; max_amount := None;
     search_query := Some "card"; metadata_filters := None |}.

Definition two_hits (_ _ : string) (_ : list (string * string))
    (_ _ : option string) (_ _ : Z) : list string * Z :=
  (["00000000-0000-0000-0000-000000000002"; RoutesSpec.id_of_row], 7).

Lemma search_cursor_pages_stay_within_the_first_hits_witness :
  match Service.get_transactions_cursor false (fun _ _ => true) (fun s => s)
          true two_hits 900 KeysetSpec.three_rows RoutesSpec.no_cache "u2"
          (Some card_query)
          (Some {| cursor := Some ServiceSpec.cursor_a; limit := 1 |}) with
  | Ok (r, _) =>
      (length (c_items r) <= 2)%nat
      /\ forall x, x ∈ c_items r ->
           exists s t,
             s ∈ ["00000000-0000-0000-0000-000000000002";
                  RoutesSpec.id_of_row]
             /\ SearchFacts.row_of KeysetSpec.three_rows s = Some t
             /\ model_validate t = Ok x
  | Raise _ => False
  end.
Proof.
  destruct (Service.get_transactions_cursor false (fun _ _ => true)
              (fun s => s) true two_hits 900 KeysetSpec.three_rows
              RoutesSpec.no_cache "u2" (Some card_query)
              (Some {| cursor := Some ServiceSpec.cursor_a; limit := 1 |}))
    as [[r cache1]|e] eqn:Hpage; [|vm_compute in Hpage; discriminate].
  apply (search_cursor_pages_stay_within_the_first_hits false
           (fun _ _ => true) (fun s => s) two_hits 900 KeysetSpec.three_rows
           "u2" card_query "card" 1
           ["00000000-0000-0000-0000-000000000002"; RoutesSpec.id_of_row] 7
           eq_refl eq_refl (Some ServiceSpec.cursor_a) RoutesSpec.no_cache
           cache1 r eq_refl Hpage).
Defined.

End SearchCursorFacts.

(* ===================================================================== *)
(** ** Whose rows the listings return *)
(* ===================================================================== *)

Module IsolationFacts.
Import Py Schemas Repository.

Section WithEngine.
Context (is_sqlite : bool)
        (ilike : string -> string -> bool)
        (lower : string -> string)
        (headroom : nat).

Abbreviation passes := (RepositorySpec.passes ilike lower).
Abbreviation base_query := (RepositorySpec.base_query ilike lower is_sqlite).

(** The row is in the table and belongs to the user; on PostgreSQL it
    passes the filters as well. *)
Definition owned (db : list Transaction) (user : string)
    (filters : option TransactionFilter) (t : Transaction) : Prop :=
  t ∈ db /\ user_id t = user
  /\ (is_sqlite = false ->
      match filters with
      | Some f => passes f t = true
      | None => True
      end).

Lemma selected_owned db user filters q t :
  (forall x, matches q x = true -> matches (base_query user filters) x = true) ->
  t ∈ selected db q -> owned db user filters t.
Proof.
  intros Hq Hin. apply KeysetSpec.selected_elem in Hin as [Hin Hm].
  apply Hq in Hm. split; [done|]. split.
  - by apply (RepositorySpec.matches_base_user ilike lower is_sqlite user
                filters).
  - intros ->. rewrite RepositorySpec.matches_base in Hm.
    by apply RepositorySpec.wanted_spec in Hm as [_ ?].
Qed.

Lemma all_sublist db q :
  exists l, l ≡ₚ selected db q /\ sublist (all db q) l.
Proof.
  unfold all.
  exists (match q_order q with
          | Some le => merge_sort (fun a b => Is_true (le a b)) (selected db q)
          | None => selected db q
          end).
  split; [destruct (q_order q); [apply merge_sort_Permutation|done]|].
  destruct (q_limit q);
    [etrans; [apply sublist_take|apply sublist_drop] | apply sublist_drop].
Qed.

Lemma all_elem db q t : t ∈ all db q -> t ∈ selected db q.
Proof.
  destruct (all_sublist db q) as (l & Hperm & Hsub). intros Ht.
  rewrite <- Hperm.
  eapply elem_of_submseteq; [exact Ht|by apply sublist_submseteq].
Qed.

Lemma all_limit db q n :
  0 <= n -> Z.of_nat (length (all db (limit_ q n))) <= n.
Proof.
  intros Hn. unfold all. cbn [limit_ q_limit]. rewrite length_take. lia.
Qed.

Lemma bind_int_inv n m : bind_int is_sqlite n = Ok m -> m = n.
Proof. unfold bind_int. repeat case_match; congruence. Qed.

(** X18.  On either engine, neither listing of the repository ever returns
    a row of another user or more rows than were asked for, whatever the
    table, the filters, the page and the text of the cursor: when the query
    returns, every row of an offset page and of a keyset page is a row of
    the table with the user id of the request, an offset page has at most
    [page_size] rows and a keyset page at most [limit].  On PostgreSQL
    every returned row passes every filter that is set as well. *)
Theorem listings_stay_with_the_user (db : list Transaction) (user : string)
    (filters : option TransactionFilter) :
  (forall p rows total,
     1 <= page_size p ->
     get_by_user_id is_sqlite ilike lower db user filters (Some p)
     = Ok (rows, total) ->
     Z.of_nat (length rows) <= page_size p
     /\ forall t, t ∈ rows -> owned db user filters t)
  /\ (forall cur lim rows more,
        1 <= lim ->
        get_by_user_id_cursor is_sqlite ilike lower headroom db user filters
          (Some {| cursor := cur; limit := lim |}) = Ok (rows, more) ->
        Z.of_nat (length rows) <= lim
        /\ forall t, t ∈ rows -> owned db user filters t).
Proof.
  split.
  - intros p rows total Hs.
    unfold get_by_user_id, offset_limit_all. cbv zeta.
    fold (base_query user filters).
    destruct (bind_int is_sqlite ((page p - 1) * page_size p))
      as [off|e]; [|discriminate]. cbn [bind].
    destruct (bind_int is_sqlite (page_size p)) as [n|e] eqn:Hn;
      [|discriminate]. cbn [bind].
    apply bind_int_inv in Hn as ->.
    rewrite (proj2 (Z.ltb_ge (page_size p) 0)) by lia.
    intros [= <- _]. split; [apply all_limit; lia|].
    intros t Ht%all_elem.
    by apply (selected_owned db user filters _ t) in Ht.
  - intros cur lim rows more Hlim.
    unfold get_by_user_id_cursor, offset_limit_all. cbv zeta.
    cbn [cursor limit]. fold (base_query user filters).
    set (q0 := base_query user filters).
    match goal with
    | |- bind ?m _ = _ -> _ => destruct m as [q|e] eqn:Hq; [|discriminate]
    end.
    cbn [bind].
    destruct (bind_int is_sqlite (lim + 1)) as [n|e] eqn:Hn; [|discriminate].
    cbn [bind]. apply bind_int_inv in Hn as ->.
    rewrite (proj2 (Z.ltb_ge (lim + 1) 0)) by lia.
    intros [= <- _].
    assert (Hm : forall x, matches q x = true -> matches q0 x = true).
    { destruct (nonempty cur) as [c|]; [|by injection Hq as <-].
      destruct (Cursor.decode_cursor headroom c) as [[[cid created]|]|e];
        cbn [bind] in Hq; [|by injection Hq as <-|discriminate].
      destruct (UUID_value cid) as [cu|e]; [|discriminate].
      cbn [bind] in Hq. injection Hq as <-.
      intros x. rewrite RepositorySpec.matches_filter_.
      by intros [? _]%andb_true_iff. }
    unfold slice_to. rewrite (proj2 (Z.leb_le 0 lim)) by lia.
    split; [rewrite length_take; lia|].
    intros t Ht. apply (selected_owned db user filters q); [done|].
    assert (Hin : t ∈ all db (limit_ (order_by q
                                        (desc_created_at_id is_sqlite))
                                (lim + 1))).
    { eapply elem_of_submseteq; [exact Ht|].
      apply sublist_submseteq, sublist_take. }
    by apply all_elem in Hin.
Qed.

End WithEngine.

Lemma listings_stay_with_the_user_witness :
  match get_by_user_id true (fun _ _ => true) (fun s => s)
          KeysetSpec.three_rows "u2" None
          (Some {| page := 2; page_size := 2 |}) with
  | Ok (rows, _) =>
      Z.of_nat (length rows) <= 2
      /\ forall t, t ∈ rows ->
           owned true (fun _ _ => true) (fun s => s) KeysetSpec.three_rows
             "u2" None t
  | Raise _ => False
  end
  /\ match get_by_user_id_cursor false (fun _ _ => true) (fun s => s) 900
             KeysetSpec.three_rows "u2" None
             (Some {| cursor := Some "not a cursor"; limit := 2 |}) with
     | Ok (rows, _) =>
         Z.of_nat (length rows) <= 2
         /\ forall t, t ∈ rows ->
              owned false (fun _ _ => true) (fun s => s)
                KeysetSpec.three_rows "u2" None t
     | Raise _ => False
     end.
Proof.
  split.
  - destruct (get_by_user_id true (fun _ _ => true) (fun s => s)
                KeysetSpec.three_rows "u2" None
                (Some {| page := 2; page_size := 2 |}))
      as [[rows total]|e] eqn:Hpage; [|vm_compute in Hpage; discriminate].
    apply (proj1 (listings_stay_with_the_user true (fun _ _ => true)
                    (fun s => s) 900 KeysetSpec.three_rows "u2" None)
             {| page := 2; page_size := 2 |} rows total);
      [simpl; lia|exact Hpage].
  - destruct (get_by_user_id_cursor false (fun _ _ => true) (fun s => s) 900
                KeysetSpec.three_rows "u2" None
                (Some {| cursor := Some "not a cursor"; limit := 2 |}))
      as [[rows more]|e] eqn:Hpage; [|vm_compute in Hpage; discriminate].
    apply (proj2 (listings_stay_with_the_user false (fun _ _ => true)
                    (fun s => s) 900 KeysetSpec.three_rows "u2" None)
             (Some "not a cursor") 2 rows more); [lia|exact Hpage].
Defined.

End IsolationFacts.
